(** * Anki Helper: the line pipeline and the scope check of [main.ts]

    A shallow embedding of the plugin's core ([findYamlEnd], [globToRegExp],
    [isInScope], [ensureTargetDeck], [rewriteHeadingsAndCollectLists],
    [tidyLists], [updateScopePatterns], [processFile]) and the properties
    of it that the design document states.

    JavaScript strings are sequences of UTF-16 code units; a code unit is a
    number [N], a string a [list N], a document a [list] of strings. *)

From Stdlib Require Import String Ascii NArith Lia.
From stdpp Require Import base list numbers.

Local Open Scope N_scope.
Local Open Scope nat_scope.
Local Open Scope list_scope.

(** ** JavaScript strings *)

Module Js.

Definition char := N.
Definition str := list char.

(** A string literal of the source, for ASCII text. *)
Definition lit (s : string) : str :=
  List.map N_of_ascii (list_ascii_of_string s).
Arguments lit s%_string.

(** A character literal of the source. *)
Definition ch (a : ascii) : char := N_of_ascii a.
Arguments ch a%_char.

Definition char_eqb (a b : char) : bool := N.eqb a b.
Arguments char_eqb (a b)%_N.

Fixpoint str_eqb (a b : str) : bool :=
  match a, b with
  | [], [] => true
  | x :: a', y :: b' => char_eqb x y && str_eqb a' b'
  | _, _ => false
  end.

Definition char_in (cs : list char) (c : char) : bool :=
  existsb (char_eqb c) cs.

(** LineTerminator of ECMA-262: LF, CR, LS, PS. *)
Definition isLineTerminator (c : char) : bool :=
  char_in [10; 13; 8232; 8233]%N c.

(** WhiteSpace and LineTerminator of ECMA-262: what the class [\s] matches
    and what [String.prototype.trim] strips. *)
Definition isSpace (c : char) : bool :=
  char_in [9; 10; 11; 12; 13; 32; 160; 5760;
           8192; 8193; 8194; 8195; 8196; 8197; 8198; 8199; 8200; 8201; 8202;
           8232; 8233; 8239; 8287; 12288; 65279]%N c.

(** The class [\d]. *)
Definition isDigit (c : char) : bool := N.leb 48 c && N.leb c 57.

Fixpoint trimStart (s : str) : str :=
  match s with
  | c :: s' => if isSpace c then trimStart s' else s
  | [] => []
  end.

Definition trimEnd (s : str) : str := rev (trimStart (rev s)).

(** [s.trim()] *)
Definition trim (s : str) : str := trimEnd (trimStart s).

(** [s.startsWith(p)] *)
Fixpoint startsWith (s p : str) {struct p} : bool :=
  match p, s with
  | [], _ => true
  | x :: p', y :: s' => char_eqb x y && startsWith s' p'
  | _ :: _, [] => false
  end.

(** [s.endsWith(p)] *)
Definition endsWith (s p : str) : bool := startsWith (rev s) (rev p).

(** [s.includes(p)] *)
Fixpoint includes (s p : str) : bool :=
  startsWith s p ||
  match s with
  | [] => false
  | _ :: s' => includes s' p
  end.

(** The empty string. *)
Definition empty : str := [].

(** The line feed, as a string. *)
Definition LF : str := [10%N].

(** [s.slice(n)] for [0 <= n]. *)
Definition slice (n : nat) (s : str) : str := drop n s.

(** [c.repeat(n)] for a one-character string. *)
Definition repeat (c : char) (n : nat) : str := replicate n c.

(** [lines.join(sep)] *)
Fixpoint join (sep : str) (l : list str) : str :=
  match l with
  | [] => []
  | [x] => x
  | x :: l' => x ++ sep ++ join sep l'
  end.

(** [raw.split(/\r?\n/)]: the text is cut at every LF, and a CR right before
    the LF belongs to the separator; [cur] is the current line, reversed. *)
Definition dropCR (cur : str) : str :=
  match cur with
  | c :: cur' => if char_eqb c 13 then cur' else cur
  | [] => []
  end.

Fixpoint split_lines_from (cur : str) (s : str) : list str :=
  match s with
  | [] => [rev cur]
  | c :: s' =>
      if char_eqb c 10 then rev (dropCR cur) :: split_lines_from [] s'
      else split_lines_from (c :: cur) s'
  end.

Definition split_lines (s : str) : list str := split_lines_from [] s.

(** *** [String.prototype.replace] with a global pattern that matches one
    fixed string

    [GetSubstitution] of ECMA-262 for a pattern without capture groups:
    in the replacement text [$$] is a dollar, [$&] the matched text,
    [$`] the text before the match and [$'] the text after it; every
    other [$] stands for itself. *)
Fixpoint getSubstitution (matched before after : str) (repl : str) : str :=
  match repl with
  | [] => []
  | d :: t =>
      if char_eqb d (ch "$") then
        match t with
        | c :: r =>
            if char_eqb c (ch "$") then
              ch "$" :: getSubstitution matched before after r
            else if char_eqb c (ch "&") then
              matched ++ getSubstitution matched before after r
            else if char_eqb c (ch "`") then
              before ++ getSubstitution matched before after r
            else if char_eqb c (ch "'") then
              after ++ getSubstitution matched before after r
            else d :: getSubstitution matched before after t
        | [] => [d]
        end
      else d :: getSubstitution matched before after t
  end.

(** [s.replace(/needle/g, repl)] for a non-empty literal [needle]: matches
    are found left to right and do not overlap. [skip] counts the
    characters of the current match still to pass; [before] is the text
    already passed, reversed. *)
Fixpoint replaceAll_from (needle repl : str) (skip : nat) (before : str)
    (s : str) : str :=
  match s with
  | [] => []
  | c :: s' =>
      match skip with
      | S k => replaceAll_from needle repl k (c :: before) s'
      | O =>
          if startsWith s needle then
            getSubstitution needle (rev before) (drop (length needle) s) repl
            ++ replaceAll_from needle repl (length needle - 1) (c :: before) s'
          else c :: replaceAll_from needle repl 0 (c :: before) s'
      end
  end.

Definition replaceAll (needle repl : str) (s : str) : str :=
  replaceAll_from needle repl 0 [] s.

(** [s.replace(/[cs]/g, "\\$&")]: every character of the class gets a
    backslash in front. *)
Fixpoint escapeChars (cls : char -> bool) (s : str) : str :=
  match s with
  | [] => []
  | c :: s' => if cls c then ch "\" :: c :: escapeChars cls s'
               else c :: escapeChars cls s'
  end.

(** [s.replace(/[cs]+/g, empty)]: every maximal run of characters of the
    class is cut out, so the characters outside the class remain, in order. *)
Fixpoint removeRuns (cls : char -> bool) (s : str) : str :=
  match s with
  | [] => []
  | c :: s' => if cls c then removeRuns cls s' else c :: removeRuns cls s'
  end.

End Js.

(** ** Regular expressions

    The fragment of JavaScript regular expressions that the plugin uses:
    character classes, concatenation, alternation and repetition, tested
    against a whole string ([/^r$/]) or against a prefix of it ([/^r/]).
    Matching is by derivatives. A lazy quantifier accepts the same strings
    as the greedy one, so [.*?] is [Star dot]. *)

Module RegExp.
Import Js.

Inductive re : Type :=
| Void
| Eps
| Cls (p : char -> bool)
| Cat (r1 r2 : re)
| Alt (r1 r2 : re)
| Star (r : re).

Fixpoint nullable (r : re) : bool :=
  match r with
  | Void => false
  | Eps => true
  | Cls _ => false
  | Cat r1 r2 => nullable r1 && nullable r2
  | Alt r1 r2 => nullable r1 || nullable r2
  | Star _ => true
  end.

Fixpoint deriv (c : char) (r : re) : re :=
  match r with
  | Void => Void
  | Eps => Void
  | Cls p => if p c then Eps else Void
  | Cat r1 r2 =>
      if nullable r1 then Alt (Cat (deriv c r1) r2) (deriv c r2)
      else Cat (deriv c r1) r2
  | Alt r1 r2 => Alt (deriv c r1) (deriv c r2)
  | Star r1 => Cat (deriv c r1) (Star r1)
  end.

Fixpoint matchb (r : re) (s : str) : bool :=
  match s with
  | [] => nullable r
  | c :: s' => matchb (deriv c r) s'
  end.

(** The strings a regular expression denotes. *)
Inductive Matches : re -> str -> Prop :=
| MEps : Matches Eps []
| MCls p c : p c = true -> Matches (Cls p) [c]
| MCat r1 r2 s1 s2 :
    Matches r1 s1 -> Matches r2 s2 -> Matches (Cat r1 r2) (s1 ++ s2)
| MAltL r1 r2 s : Matches r1 s -> Matches (Alt r1 r2) s
| MAltR r1 r2 s : Matches r2 s -> Matches (Alt r1 r2) s
| MStar0 r : Matches (Star r) []
| MStarS r s1 s2 :
    Matches r s1 -> Matches (Star r) s2 -> Matches (Star r) (s1 ++ s2).

(** Building blocks named after the source syntax. *)
Definition chr (c : char) : re := Cls (char_eqb c).
Definition dot : re := Cls (fun c => negb (isLineTerminator c)).
Definition any : re := Cls (fun _ => true).
Definition space : re := Cls isSpace.
Definition digit : re := Cls isDigit.
Definition notSlash : re := Cls (fun c => negb (char_eqb c (ch "/"))).
Definition plus (r : re) : re := Cat r (Star r).
Definition opt (r : re) : re := Alt Eps r.

Fixpoint text (s : str) : re :=
  match s with
  | [] => Eps
  | c :: s' => Cat (chr c) (text s')
  end.

Fixpoint seq (rs : list re) : re :=
  match rs with
  | [] => Eps
  | r :: rs' => Cat r (seq rs')
  end.

(** [/^r$/.test(s)] *)
Definition test_whole (r : re) (s : str) : bool := matchb r s.

(** [/^r/.test(s)]: some prefix of [s] matches. *)
Definition test_prefix (r : re) (s : str) : bool := matchb (Cat r (Star any)) s.

(** *** [new RegExp(source)]

    The constructor reads the source text. Of the pattern syntax only what
    [globToRegExp] can write is read here: a leading [^], a final [$],
    escaped syntax characters, the class [[^/]], the dot, plain characters
    and the quantifiers [*] and [?] with an optional lazy mark. A
    quantifier with nothing to repeat is the engine's [SyntaxError]; any
    other construct is [Unsupported]. *)

Inductive token :=
| TChar (c : char)
| TNotSlash
| TDot
| TStar
| TQuest
| TCaret
| TDollar
| TDangling
| TOther (c : char).

Definition isSyntaxChar (c : char) : bool := char_in (lit "^$\.*+?()[]{}|") c.

(** [skip] counts the characters of the current token still to pass. *)
Fixpoint tokens (skip : nat) (src : str) : list token :=
  match src with
  | [] => []
  | c :: s' =>
      match skip with
      | S k => tokens k s'
      | O =>
          if char_eqb c (ch "\") then
            match s' with
            | d :: _ => (if isSyntaxChar d then TChar d else TOther d) :: tokens 1 s'
            | [] => [TDangling]
            end
          else if startsWith src (lit "[^/]") then TNotSlash :: tokens 3 s'
          else if char_eqb c (ch ".") then TDot :: tokens 0 s'
          else if char_eqb c (ch "*") then TStar :: tokens 0 s'
          else if char_eqb c (ch "?") then TQuest :: tokens 0 s'
          else if char_eqb c (ch "^") then TCaret :: tokens 0 s'
          else if char_eqb c (ch "$") then TDollar :: tokens 0 s'
          else if isSyntaxChar c then TOther c :: tokens 0 s'
          else TChar c :: tokens 0 s'
      end
  end.

Inductive compiled :=
| Ok (r : re)
| SyntaxError
| Unsupported.

Definition andThen (r : re) (k : compiled) : compiled :=
  match k with
  | Ok r' => Ok (Cat r r')
  | other => other
  end.

Definition atomOf (t : token) : option re :=
  match t with
  | TChar c => Some (chr c)
  | TNotSlash => Some notSlash
  | TDot => Some dot
  | _ => None
  end.

(** The terms up to the final [$]. *)
Fixpoint terms (ts : list token) : compiled :=
  match ts with
  | [] => Unsupported
  | [TDollar] => Ok Eps
  | t :: rest =>
      match atomOf t with
      | Some a =>
          match rest with
          | TStar :: TQuest :: rest' => andThen (Star a) (terms rest')
          | TStar :: rest' => andThen (Star a) (terms rest')
          | TQuest :: TQuest :: rest' => andThen (opt a) (terms rest')
          | TQuest :: rest' => andThen (opt a) (terms rest')
          | _ => andThen a (terms rest)
          end
      | None =>
          match t with
          | TStar | TQuest | TDangling => SyntaxError
          | _ => Unsupported
          end
      end
  end.

Definition RegExp_new (src : str) : compiled :=
  match tokens 0 src with
  | TCaret :: ts => terms ts
  | _ => Unsupported
  end.

(** [r.test(s)] for a pattern anchored at both ends. *)
Definition test (r : re) (s : str) : bool := test_whole r s.

End RegExp.

(** ** The plugin *)

Import Js RegExp.

(** [lines.splice(i, 0, x1, ..., xn)] *)
Definition splice_in (i : nat) (xs : list str) (lines : list str) : list str :=
  take i lines ++ xs ++ drop i lines.

(** [lines.splice(i, 1)] *)
Definition splice_out (i : nat) (lines : list str) : list str := delete i lines.

(** [lines.indexOf(x, from)], [None] for [-1]. *)
Fixpoint indexOf_from (x : str) (i : nat) (l : list str) : option nat :=
  match l with
  | [] => None
  | y :: l' => if str_eqb y x then Some i else indexOf_from x (S i) l'
  end.

Definition indexOf (x : str) (from : nat) (lines : list str) : option nat :=
  indexOf_from x from (drop from lines).

(** [lines.findIndex(p)], [None] for [-1]. *)
Fixpoint findIndex_from (p : str -> bool) (i : nat) (l : list str) : option nat :=
  match l with
  | [] => None
  | y :: l' => if p y then Some i else findIndex_from p (S i) l'
  end.

Definition findIndex (p : str -> bool) (lines : list str) : option nat :=
  findIndex_from p 0 lines.

(** [lines[i] === x]; a missing element is [undefined], equal to no string. *)
Definition line_is (lines : list str) (i : nat) (x : str) : bool :=
  match lines !! i with
  | Some y => str_eqb y x
  | None => false
  end.

(** [findYamlEnd]: the index of the first line after the YAML block. *)
Definition findYamlEnd (lines : list str) : nat :=
  if line_is lines 0 (lit "---") then
    match indexOf (lit "---") 1 lines with
    | Some end_ => end_ + 1
    | None => 0
    end
  else 0.

(** [globToRegExp] *)
Definition placeholder : str := [167; 167]%N.

Definition globToRegExp (pattern : str) : compiled :=
  let escaped := escapeChars (char_in (lit ".+^${}()|[]\")) pattern in
  let withPlaceholders := replaceAll (lit "**") placeholder escaped in
  let single := replaceAll (lit "*") (lit "[^/]*") withPlaceholders in
  RegExp_new (lit "^" ++ replaceAll placeholder (lit ".*") single ++ lit "$").

Inductive RunScope := ScopeAll | ScopeInclude | ScopeExclude.

Record AnkiHelperSettings := {
  headingLevel : nat;
  targetDeckTemplate : str;
  enableTargetDeck : bool;
  enableHeadingOps : bool;
  enableListTidy : bool;
  runScope : RunScope;
  includePaths : list str;
  excludePaths : list str
}.

(** The deck template of [DEFAULT_SETTINGS] holds two characters outside
    ASCII, written by their code units. *)
Definition DEFAULT_SETTINGS : AnkiHelperSettings := {|
  headingLevel := 4;
  targetDeckTemplate := lit "[[anki" ++ [32972; 35829]%N ++ lit "]]::[[filename]]";
  enableTargetDeck := true;
  enableHeadingOps := true;
  enableListTidy := true;
  runScope := ScopeAll;
  includePaths := [];
  excludePaths := []
|}.

Record TFile := { path : str; basename : str }.

Record AnkiHelperPlugin := {
  settings : AnkiHelperSettings;
  includePatterns : list re;
  excludePatterns : list re
}.

(** [isInScope] *)
Definition isInScope (this : AnkiHelperPlugin) (file : TFile) : bool :=
  let path := path file in
  match runScope (settings this) with
  | ScopeInclude => existsb (fun r => test r path) (includePatterns this)
  | ScopeExclude => negb (existsb (fun r => test r path) (excludePatterns this))
  | ScopeAll => true
  end.

(** [updateScopePatterns]. [new RegExp] can throw; the call then ends at
    once, with the fields assigned so far. *)
Definition toGlob (p : str) : str :=
  if endsWith p (lit "/") then p ++ lit "**" else p.

Fixpoint compileAll (ps : list str) : option (list re) :=
  match ps with
  | [] => Some []
  | p :: ps' =>
      match globToRegExp (toGlob p) with
      | Ok r =>
          match compileAll ps' with
          | Some rs => Some (r :: rs)
          | None => None
          end
      | _ => None
      end
  end.

Inductive completion (A : Type) :=
| Returned (a : A)
| Threw (a : A).
Arguments Returned {A} a.
Arguments Threw {A} a.

Definition updateScopePatterns (this : AnkiHelperPlugin)
    : completion AnkiHelperPlugin :=
  match compileAll (includePaths (settings this)) with
  | None => Threw this
  | Some inc =>
      let this1 := {| settings := settings this;
                      includePatterns := inc;
                      excludePatterns := excludePatterns this |} in
      match compileAll (excludePaths (settings this)) with
      | None => Threw this1
      | Some exc =>
          Returned {| settings := settings this;
                      includePatterns := inc;
                      excludePatterns := exc |}
      end
  end.

(** [ensureTargetDeck] *)
Definition marker : str := lit "TARGET DECK".

Definition ensureTargetDeck (this : AnkiHelperPlugin) (lines : list str)
    (file : TFile) : list str * bool :=
  if existsb (fun l => includes l marker) lines then (lines, false)
  else
    let idx := findYamlEnd lines in
    let idx :=
      if idx =? 0 then
        match findIndex (fun l => startsWith (trim l) (lit "#")) lines with
        | Some fh => fh
        | None => idx
        end
      else idx in
    let tpl := replaceAll (lit "filename") (basename file)
                 (targetDeckTemplate (settings this)) in
    let '(lines, idx) :=
      if (0 <? idx) && line_is lines (idx - 1) (lit "---")
      then (splice_in idx [empty] lines, idx + 1)
      else (lines, idx) in
    (splice_in idx [marker; tpl; empty] lines, true).

(** [rewriteHeadingsAndCollectLists] *)

(** [/^\[\[.*?#.*?\]\]$/] *)
Definition wikiLinkRe : re :=
  seq [text (lit "[["); Star dot; chr (ch "#"); Star dot; text (lit "]]")].

(** [while (j < lines.length && lines[j].trim() === empty) j++]: [j] passes
    the blank lines that start at it. *)
Fixpoint countWhile (p : str -> bool) (l : list str) : nat :=
  match l with
  | x :: l' => if p x then S (countWhile p l') else 0
  | [] => 0
  end.

Definition isTrimEmpty (l : str) : bool := str_eqb (trim l) empty.

Definition skipBlank (lines : list str) (j : nat) : nat :=
  j + countWhile isTrimEmpty (drop j lines).

(** The body of the [for] loop at index [i]. *)
Definition headingStep (hPrefix noteName : str) (lines : list str) (i : nat)
    (changed : bool) : list str * bool :=
  match lines !! i with
  | None => (lines, changed)
  | Some line =>
      if negb (startsWith line hPrefix) then (lines, changed)
      else
        let rawHeading := slice (length hPrefix) line in
        let cleanHeading := trim (removeRuns (char_in (lit "`<>")) rawHeading) in
        let '(lines, changed) :=
          if negb (str_eqb rawHeading cleanHeading)
          then (<[i := hPrefix ++ cleanHeading]> lines, true)
          else (lines, changed) in
        let backlink := lit "[[" ++ noteName ++ lit "#" ++ cleanHeading ++ lit "]]" in
        let j := skipBlank lines (i + 1) in
        match lines !! j with
        | None => (lines ++ [backlink], true)
        | Some lj =>
            if negb (test_whole wikiLinkRe (trim lj))
            then (splice_in j [backlink] lines, true)
            else if negb (str_eqb (trim lj) backlink)
            then (<[j := backlink]> lines, true)
            else (lines, changed)
        end
  end.

(** [for (let i = start; i < lines.length; i++)]; the loop can add a line
    in every round, so the rounds are counted by [fuel]. *)
Fixpoint headingLoop (fuel : nat) (hPrefix noteName : str) (lines : list str)
    (i : nat) (changed : bool) : option (list str * bool) :=
  match fuel with
  | O => None
  | S fuel' =>
      if i <? length lines then
        let '(lines', changed') := headingStep hPrefix noteName lines i changed in
        headingLoop fuel' hPrefix noteName lines' (i + 1) changed'
      else Some (lines, changed)
  end.

Definition rewriteHeadingsAndCollectLists (this : AnkiHelperPlugin)
    (lines : list str) (file : TFile) : option (list str * bool) :=
  let hPrefix := repeat (ch "#") (headingLevel (settings this)) ++ lit " " in
  let noteName := basename file in
  let start := findYamlEnd lines in
  headingLoop (2 * length lines + 1) hPrefix noteName lines start false.

(** [tidyLists] *)

Definition listMarker : re :=
  Alt (Cls (char_in (lit "-+*"))) (Cat (plus digit) (chr (ch "."))).

(** [isList]: the pattern is anchored at the start only; white space, then
    the marker (one of [-], [+], [*], or digits and a dot), then white
    space. *)
Definition isList (l : str) : bool :=
  test_prefix (seq [Star space; listMarker; Star space]) l.

(** [isEmptyItem]: the same pattern, anchored at both ends. *)
Definition isEmptyItem (l : str) : bool :=
  test_whole (seq [Star space; listMarker; Star space]) l.

(** [isBlankLine]: [/^\s*$/] *)
Definition isBlankLine (l : str) : bool := test_whole (Star space) l.

(** [isHtmlCmt]: [/^\s*<!--.*-->/] *)
Definition isHtmlCmt (l : str) : bool :=
  test_prefix (seq [Star space; text (lit "<!--"); Star dot; text (lit "-->")]) l.

(** [for (let j = end; j >= i; j--)]: [k] rounds remain and [j = i + k - 1];
    [end_] goes below [i] by one when the whole block is deleted. *)
Fixpoint removeEmptyItems (i k : nat) (lines : list str) (end_ : Z)
    (changed : bool) : list str * Z * bool :=
  match k with
  | O => (lines, end_, changed)
  | S k' =>
      let j := i + k' in
      match lines !! j with
      | Some lj =>
          if isEmptyItem lj
          then removeEmptyItems i k' (splice_out j lines) (end_ - 1)%Z true
          else removeEmptyItems i k' lines end_ changed
      | None => removeEmptyItems i k' lines end_ changed
      end
  end.

(** The body of the [for] loop at index [i]; the third component is the
    next value of [i], after [i = end] and [i++]. *)
Definition tidyStep (lines : list str) (i : nat) (changed : bool)
    : list str * nat * bool :=
  match lines !! i with
  | None => (lines, i + 1, changed)
  | Some li =>
      if negb (isList li) then (lines, i + 1, changed)
      else
        let end_ := i + countWhile isList (drop (i + 1) lines) in
        let '(lines, end_, changed) :=
          removeEmptyItems i (end_ - i + 1) lines (Z.of_nat end_) changed in
        let next := Z.to_nat (end_ + 1)%Z in
        let '(lines, changed) :=
          match lines !! next with
          | Some nextLine =>
              let needSpace :=
                negb (isBlankLine nextLine) &&
                negb (isList nextLine) &&
                negb (isHtmlCmt nextLine) in
              if needSpace then (splice_in next [lit " "] lines, true)
              else (lines, changed)
          | None => (lines, changed)
          end in
        (lines, next, changed)
  end.

Fixpoint tidyLoop (fuel : nat) (lines : list str) (i : nat) (changed : bool)
    : option (list str * bool) :=
  match fuel with
  | O => None
  | S fuel' =>
      if i <? length lines then
        let '(lines', i', changed') := tidyStep lines i changed in
        tidyLoop fuel' lines' i' changed'
      else Some (lines, changed)
  end.

Definition tidyLists (lines : list str) : option (list str * bool) :=
  tidyLoop (2 * length lines + 2) lines (findYamlEnd lines) false.

(** [processFile] *)

Inductive event :=
| Notice (msg : str)
| VaultRead (p : str)
| VaultModify (p : str) (data : str).

(** The three guarded calls in the middle of [processFile]. *)
Definition pipeline (this : AnkiHelperPlugin) (file : TFile) (lines : list str)
    : option (list str * bool) :=
  let changed := false in
  let '(lines, changed) :=
    if enableTargetDeck (settings this) then
      let '(lines, c) := ensureTargetDeck this lines file in (lines, c || changed)
    else (lines, changed) in
  match
    (if enableHeadingOps (settings this) then
       match rewriteHeadingsAndCollectLists this lines file with
       | Some (lines, c) => Some (lines, c || changed)
       | None => None
       end
     else Some (lines, changed))
  with
  | None => None
  | Some (lines, changed) =>
      if enableListTidy (settings this) then
        match tidyLists lines with
        | Some (lines, c) => Some (lines, c || changed)
        | None => None
        end
      else Some (lines, changed)
  end.

(** [vault] gives the text of a file; the result is the trace of what the
    call does to its surroundings. *)
Definition processFile (this : AnkiHelperPlugin) (vault : str -> str)
    (file : TFile) : option (list event) :=
  if negb (isInScope this file) then
    Some [Notice (lit "Anki Helper: skipped (out of scope)")]
  else
    let raw := vault (path file) in
    let lines := split_lines raw in
    match pipeline this file lines with
    | None => None
    | Some (lines, changed) =>
        Some (VaultRead (path file) ::
              if changed then [VaultModify (path file) (join LF lines)]
              else [])
    end.


(** ** The loops seen from the lines still to visit

    Both loops leave the lines before [i] alone, so a round is a function
    of the line at [i] and the lines after it. *)

(** *** Headings *)

Definition hPrefixOf (level : nat) : str := repeat (ch "#") level ++ lit " ".

Definition cleanHeadingOf (hPrefix : str) (l : str) : str :=
  trim (removeRuns (char_in (lit "`<>")) (slice (length hPrefix) l)).

Definition backlinkFor (noteName clean : str) : str :=
  lit "[[" ++ noteName ++ lit "#" ++ clean ++ lit "]]".

(** What a round does below the heading line: [k] blank lines are passed,
    then the backlink is appended, put in, written over a link, or found. *)
Definition placeBacklink (backlink : str) (tl : list str) (changed : bool)
    : list str * bool :=
  let k := countWhile isTrimEmpty tl in
  match tl !! k with
  | None => (tl ++ [backlink], true)
  | Some x =>
      if negb (test_whole wikiLinkRe (trim x))
      then (take k tl ++ backlink :: drop k tl, true)
      else if negb (str_eqb (trim x) backlink)
      then (<[k := backlink]> tl, true)
      else (tl, changed)
  end.

Definition headingRound (hPrefix noteName : str) (l : str) (tl : list str)
    (changed : bool) : str * list str * bool :=
  if negb (startsWith l hPrefix) then (l, tl, changed)
  else
    let clean := cleanHeadingOf hPrefix l in
    let '(l', c1) :=
      if negb (str_eqb (slice (length hPrefix) l) clean)
      then (hPrefix ++ clean, true)
      else (l, changed) in
    let '(tl', c2) := placeBacklink (backlinkFor noteName clean) tl c1 in
    (l', tl', c2).

Fixpoint headingRounds (fuel : nat) (hPrefix noteName : str) (rest : list str)
    (changed : bool) : option (list str * bool) :=
  match fuel with
  | O => None
  | S fuel' =>
      match rest with
      | [] => Some ([], changed)
      | l :: tl =>
          let '(l', tl', c') := headingRound hPrefix noteName l tl changed in
          match headingRounds fuel' hPrefix noteName tl' c' with
          | Some (out, c'') => Some (l' :: out, c'')
          | None => None
          end
      end
  end.

(** The rounds that a document can still need: one for each line and one
    more for each heading, whose backlink may come as a new line. *)
Definition headingMeasure (hPrefix : str) (rest : list str) : nat :=
  length rest + length (filter (fun l => startsWith l hPrefix = true) rest).

(** A heading at rest: its text is clean and the first line after it that
    is not blank is its backlink. *)
Definition headingSettled (hPrefix noteName : str) (l : str) (tl : list str) : Prop :=
  startsWith l hPrefix = true ->
  slice (length hPrefix) l = cleanHeadingOf hPrefix l /\
  exists x, tl !! countWhile isTrimEmpty tl = Some x /\
            test_whole wikiLinkRe (trim x) = true /\
            trim x = backlinkFor noteName (cleanHeadingOf hPrefix l).

Fixpoint headingsSettled (hPrefix noteName : str) (rest : list str) : Prop :=
  match rest with
  | [] => True
  | l :: tl => headingSettled hPrefix noteName l tl /\
               headingsSettled hPrefix noteName tl
  end.

(** *** Lists *)

Definition needSpace (nextLine : str) : bool :=
  negb (isBlankLine nextLine) && negb (isList nextLine) && negb (isHtmlCmt nextLine).

Definition keepItem (l : str) : bool := negb (isEmptyItem l).

(** The separator that a round puts before the lines after a block. *)
Definition separatorFor (after : list str) : list str :=
  match after with
  | n :: _ => if needSpace n then [lit " "] else []
  | [] => []
  end.

(** A round at a list line: the block loses its empty items, and the lines
    after it are visited next, the separator first. The result is the
    lines that stay behind, the lines still to visit, and the flag. *)
Definition tidyRound (l : str) (tl : list str) (changed : bool)
    : list str * list str * bool :=
  if negb (isList l) then ([l], tl, changed)
  else
    let n := countWhile isList tl in
    let block := l :: take n tl in
    let after := drop n tl in
    let kept := filter (fun x => keepItem x = true) block in
    let sep := separatorFor after in
    (kept, sep ++ after,
     changed || negb (length kept =? length block) || negb (length sep =? 0)).

Fixpoint tidyRounds (fuel : nat) (rest : list str) (changed : bool)
    : option (list str * bool) :=
  match fuel with
  | O => None
  | S fuel' =>
      match rest with
      | [] => Some ([], changed)
      | l :: tl =>
          let '(kept, rest', c') := tidyRound l tl changed in
          match tidyRounds fuel' rest' c' with
          | Some (out, c'') => Some (kept ++ out, c'')
          | None => None
          end
      end
  end.

Definition tidyMeasure (rest : list str) : nat :=
  2 * length rest +
  match rest with
  | l :: _ => if isList l then 1 else 0
  | [] => 0
  end.

(** Lines at rest for the list tidier: no empty item, and no list line
    right before a line that needs a separator. *)
Fixpoint listsTidy (rest : list str) : Prop :=
  match rest with
  | [] => True
  | l :: tl =>
      isEmptyItem l = false /\
      (isList l = true -> separatorFor tl = []) /\
      listsTidy tl
  end.

(** *** The list marker, in words

    One of the three bullet characters, or one or more digits and a dot. *)
Definition IsMarker (m : str) : Prop :=
  (exists c, m = [c] /\ char_in (lit "-+*") c = true) \/
  (exists ds, m = ds ++ [ch "."] /\ ds <> [] /\ forallb isDigit ds = true).

(** A plugin right after [loadSettings] with no stored data. *)
Definition freshPlugin : AnkiHelperPlugin :=
  {| settings := DEFAULT_SETTINGS; includePatterns := []; excludePatterns := [] |}.

Definition withScope (mode : RunScope) (inc exc : list str) : AnkiHelperPlugin :=
  {| settings := {| headingLevel := 4;
                    targetDeckTemplate := targetDeckTemplate DEFAULT_SETTINGS;
                    enableTargetDeck := true;
                    enableHeadingOps := true;
                    enableListTidy := true;
                    runScope := mode;
                    includePaths := inc;
                    excludePaths := exc |};
     includePatterns := [];
     excludePatterns := [] |}.

Definition fileAt (p b : string) : TFile := {| path := lit p; basename := lit b |}.

(** *** The deck header, in words *)

(** The index at which the deck block goes: right after the front matter,
    else at the first line whose trimmed text starts with [#], else 0. *)
Definition deckIndex (lines : list str) : nat :=
  if findYamlEnd lines =? 0 then
    match findIndex (fun l => startsWith (trim l) (lit "#")) lines with
    | Some fh => fh
    | None => 0
    end
  else findYamlEnd lines.

(** Every occurrence of [needle] in [s], from left to right and without
    overlap, gives way to the text [by_], taken as it is. *)
Fixpoint substituteAll_from (needle by_ : str) (skip : nat) (s : str) : str :=
  match s with
  | [] => []
  | c :: s' =>
      match skip with
      | S k => substituteAll_from needle by_ k s'
      | O =>
          if startsWith s needle
          then by_ ++ substituteAll_from needle by_ (length needle - 1) s'
          else c :: substituteAll_from needle by_ 0 s'
      end
  end.

Definition substituteAll (needle by_ : str) (s : str) : str :=
  substituteAll_from needle by_ 0 s.

Definition hasMarker (l : str) : bool := includes l marker.

(** *** The backlink slot, in words *)

Definition noLineTerminator (s : str) : bool :=
  forallb (fun c => negb (isLineTerminator c)) s.

(** Two opening brackets, text, [#], text, two closing brackets; the text
    is what the dot of the pattern accepts, so it holds no line
    terminator. *)
Definition WikiShape (s : str) : Prop :=
  exists a b, s = lit "[[" ++ a ++ lit "#" ++ b ++ lit "]]" /\
              noLineTerminator a = true /\ noLineTerminator b = true.

(** [j] is the index of the first line after [i] that is not blank, or the
    length of the document when all lines after [i] are blank. *)
Definition firstNonBlankAfter (lines : list str) (i j : nat) : Prop :=
  i < j /\
  (forall m, i < m < j -> exists x, lines !! m = Some x /\ trim x = empty) /\
  match lines !! j with
  | Some x => trim x <> empty
  | None => j = length lines
  end.

(** *** The rounds that follow

    What the loop of [rewriteHeadingsAndCollectLists] makes of the lines
    [s] when it starts at their first line with the flag [c0]: the lines
    [out] and the flag [c]. *)
Definition goesOn (hPrefix noteName : str) (s : list str) (c0 : bool)
    (out : list str) (c : bool) : Prop :=
  exists fuel, headingLoop fuel hPrefix noteName s 0 c0 = Some (out, c).

(** ** Further notions for the properties of the stages *)

(** The line that the list tidier inserts. *)
Definition isSeparator (l : str) : bool := str_eqb l (lit " ").

(** The lines that are not the inserted separator. *)
Definition withoutSeparators (l : list str) : list str :=
  filter (fun x => isSeparator x = false) l.

(** The lines that are not empty list items. *)
Definition withoutEmptyItems (l : list str) : list str :=
  filter (fun x => keepItem x = true) l.

(** The lines that start with the heading prefix. *)
Definition headingLines (hPrefix : str) (l : list str) : list str :=
  filter (fun x => startsWith x hPrefix = true) l.

(** ** The path lists of the settings tab

    The two text areas show [paths.join("\n")]; on a change they store
    [value.split(/\n+/).map(s => s.trim()).filter(Boolean)]. *)

(** [value.split(/\n+/)]: the text is cut at every run of line feeds;
    [inRun] says that the last character was a line feed, [cur] is the
    current piece, reversed. *)
Fixpoint splitRuns_from (cur : str) (inRun : bool) (s : str) : list str :=
  match s with
  | [] => [rev cur]
  | c :: s' =>
      if char_eqb c 10 then
        if inRun then splitRuns_from [] true s'
        else rev cur :: splitRuns_from [] true s'
      else splitRuns_from (c :: cur) false s'
  end.

Definition splitRuns (s : str) : list str := splitRuns_from [] false s.

(** [filter(Boolean)] on strings keeps the ones that are not empty. *)
Definition isNonEmpty (s : str) : bool := negb (str_eqb s empty).

Definition parsePathList (value : str) : list str :=
  List.filter isNonEmpty (List.map trim (splitRuns value)).

(** The text that a text area shows for a list of paths. *)
Definition showPathList (paths : list str) : str := join LF paths.

(** ** Line ends *)

Definition noLineFeed (s : str) : bool := forallb (fun c => negb (char_eqb c 10)) s.

(** The text with every carriage return that stands right before a line
    feed taken out. *)
Fixpoint dropCarriageReturns (s : str) : str :=
  match s with
  | [] => []
  | c :: s' =>
      if char_eqb c 13 && startsWith s' LF then dropCarriageReturns s'
      else c :: dropCarriageReturns s'
  end.

(** ** Glob patterns, in words

    A pattern is read left to right as a list of items: two stars in a
    row are one item, a single star is another, every other character
    stands for itself. *)

Inductive globItem :=
| GChar (c : char)
| GStar
| GStarStar.

Fixpoint globItems (p : str) : list globItem :=
  match p with
  | [] => []
  | c :: p' =>
      if char_eqb c (ch "*") then
        match p' with
        | d :: p'' =>
            if char_eqb d (ch "*") then GStarStar :: globItems p''
            else GStar :: globItems p'
        | [] => [GStar]
        end
      else GChar c :: globItems p'
  end.

Definition itemRe (i : globItem) : re :=
  match i with
  | GChar c => chr c
  | GStar => Star notSlash
  | GStarStar => Star dot
  end.

Definition globRe (items : list globItem) : re := seq (List.map itemRe items).

Definition noSlash (s : str) : bool :=
  forallb (fun c => negb (char_eqb c (ch "/"))) s.

(** The paths a list of items accepts: a single star stands for any text
    without a slash, a double star for any text without a line
    terminator. *)
Inductive GlobMatch : list globItem -> str -> Prop :=
| GlobNil : GlobMatch [] []
| GlobChar c items s :
    GlobMatch items s -> GlobMatch (GChar c :: items) (c :: s)
| GlobStar items seg s :
    noSlash seg = true -> GlobMatch items s ->
    GlobMatch (GStar :: items) (seg ++ s)
| GlobStarStar items seg s :
    noLineTerminator seg = true -> GlobMatch items s ->
    GlobMatch (GStarStar :: items) (seg ++ s).

(** A pattern without question mark and without the placeholder
    character. *)
Definition simpleGlob (p : str) : bool :=
  forallb (fun c => negb (char_eqb c (ch "?")) && negb (char_eqb c 167)) p.

(** A path without star, question mark and placeholder character. *)
Definition plainPath (p : str) : bool :=
  forallb (fun c => negb (char_eqb c (ch "*")) && negb (char_eqb c (ch "?"))
                    && negb (char_eqb c 167)) p.

(** What a path of the settings stands for: a folder, when it ends in a
    slash, holds every path below it; any other path stands for
    itself. *)
Definition coversPath (p path : str) : bool :=
  if endsWith p (lit "/")
  then startsWith path p && noLineTerminator (drop (length p) path)
  else str_eqb path p.

(** The text of an item after each of the replacements of
    [globToRegExp]: [stage] counts the replacements done. *)
Definition escapeOne (c : char) : str :=
  if char_in (lit ".+^${}()|[]\") c then [ch "\"; c] else [c].

Definition written (stage : nat) (i : globItem) : str :=
  match i with
  | GChar c => escapeOne c
  | GStar => if stage <? 2 then lit "*" else lit "[^/]*"
  | GStarStar =>
      match stage with
      | 0 => lit "**"
      | 1 | 2 => placeholder
      | _ => lit ".*"
      end
  end.

Definition writtenAll (stage : nat) (items : list globItem) : str :=
  flat_map (written stage) items.

Definition itemTokens (i : globItem) : list token :=
  match i with
  | GChar c => [TChar c]
  | GStar => [TNotSlash; TStar]
  | GStarStar => [TDot; TStar]
  end.

(** No star among the characters, and no star item right after a single
    star. *)
Fixpoint wellRead (items : list globItem) : bool :=
  match items with
  | [] => true
  | GChar c :: rest => negb (char_eqb c (ch "*")) && wellRead rest
  | GStar :: rest =>
      match rest with
      | GStar :: _ | GStarStar :: _ => false
      | _ => wellRead rest
      end
  | GStarStar :: rest => wellRead rest
  end.

Definition itemChar (i : globItem) : option char :=
  match i with
  | GChar c => Some c
  | _ => None
  end.

Definition quantifier (t : token) : bool :=
  match t with
  | TStar | TQuest => true
  | _ => false
  end.

(** No question mark and no placeholder character among the characters. *)
Definition simpleItems (items : list globItem) : bool :=
  forallb (fun i => match i with
                    | GChar c => negb (char_eqb c (ch "?")) && negb (char_eqb c 167)
                    | _ => true
                    end) items.

(** ** Text as the vault gives it *)

(** A text whose only line terminators are line feeds. *)
Definition plainText (raw : str) : bool :=
  forallb (fun c => char_eqb c 10 || negb (isLineTerminator c)) raw.

(** ** The deck template of the settings tab

    The text field stores [value.trim() || "[[anki..]]::[[filename]]"];
    the text after the bars is the one of [DEFAULT_SETTINGS]. *)
Definition storeTemplate (value : str) : str :=
  let t := trim value in
  if str_eqb t empty then targetDeckTemplate DEFAULT_SETTINGS else t.
(** * Properties *)

(** ** Strings *)

Section StringFacts.

Lemma char_eqb_eq (a b : char) : char_eqb a b = true <-> a = b.
Proof. unfold char_eqb. apply N.eqb_eq. Qed.

Lemma char_eqb_refl (a : char) : char_eqb a a = true.
Proof. apply char_eqb_eq. reflexivity. Qed.

Lemma char_eqb_neq (a b : char) : char_eqb a b = false <-> a <> b.
Proof. unfold char_eqb. apply N.eqb_neq. Qed.

Lemma str_eqb_eq (a b : str) : str_eqb a b = true <-> a = b.
Proof.
  revert b. induction a as [|x a IH]; intros [|y b]; simpl; split;
    try congruence; try reflexivity.
  - intros H. apply andb_true_iff in H as [Hx Ha].
    apply char_eqb_eq in Hx. apply IH in Ha. congruence.
  - intros H. injection H as -> ->.
    rewrite char_eqb_refl. simpl. apply IH. reflexivity.
Qed.

Lemma str_eqb_refl (a : str) : str_eqb a a = true.
Proof. apply str_eqb_eq. reflexivity. Qed.

Lemma str_eqb_neq (a b : str) : str_eqb a b = false <-> a <> b.
Proof.
  split.
  - intros H E. apply str_eqb_eq in E. congruence.
  - intros H. destruct (str_eqb a b) eqn:E; [|reflexivity].
    apply str_eqb_eq in E. contradiction.
Qed.

Lemma startsWith_iff (s p : str) :
  startsWith s p = true <-> exists t, s = p ++ t.
Proof.
  revert s. induction p as [|x p IH]; intros s; simpl.
  - split; [intros _; exists s; reflexivity | reflexivity].
  - destruct s as [|y s].
    + split; [discriminate | intros [t Ht]; discriminate].
    + rewrite andb_true_iff, char_eqb_eq, IH. split.
      * intros [-> [t ->]]. exists t. reflexivity.
      * intros [t Ht]. injection Ht as -> ->. split; [reflexivity | exists t; reflexivity].
Qed.

Lemma startsWith_app (p t : str) : startsWith (p ++ t) p = true.
Proof. apply startsWith_iff. exists t. reflexivity. Qed.

Lemma includes_iff (s p : str) :
  includes s p = true <-> exists a b, s = a ++ p ++ b.
Proof.
  induction s as [|c s IH]; simpl.
  - rewrite orb_false_r, startsWith_iff. split.
    + intros [t Ht]. exists [], t. exact Ht.
    + intros [a [b H]]. destruct a; simpl in H.
      * exists b. exact H.
      * discriminate.
  - rewrite orb_true_iff, startsWith_iff, IH. split.
    + intros [[t Ht] | [a [b H]]].
      * exists [], t. exact Ht.
      * exists (c :: a), b. rewrite H. reflexivity.
    + intros [a [b H]]. destruct a as [|x a]; simpl in H.
      * left. exists b. exact H.
      * right. injection H as -> H. exists a, b. exact H.
Qed.

End StringFacts.

(** ** Matching by derivatives agrees with the denotation *)

Section RegExpFacts.

Lemma Matches_Void_inv (s : str) : Matches Void s -> False.
Proof. inversion 1. Qed.

Lemma Matches_Eps_inv (s : str) : Matches Eps s -> s = [].
Proof. inversion 1. reflexivity. Qed.

Lemma Matches_Cls_inv (p : char -> bool) (s : str) :
  Matches (Cls p) s -> exists c, s = [c] /\ p c = true.
Proof. inversion 1; subst. eauto. Qed.

Lemma Matches_Cat_inv (r1 r2 : re) (s : str) :
  Matches (Cat r1 r2) s ->
  exists s1 s2, s = s1 ++ s2 /\ Matches r1 s1 /\ Matches r2 s2.
Proof. inversion 1; subst. eauto. Qed.

Lemma Matches_Alt_inv (r1 r2 : re) (s : str) :
  Matches (Alt r1 r2) s -> Matches r1 s \/ Matches r2 s.
Proof. inversion 1; subst; auto. Qed.

Lemma nullable_Matches (r : re) : nullable r = true <-> Matches r [].
Proof.
  induction r; simpl.
  - split; [discriminate | intros H; destruct (Matches_Void_inv _ H)].
  - split; [constructor | reflexivity].
  - split; [discriminate |].
    intros H. apply Matches_Cls_inv in H as [c [E _]]. discriminate.
  - rewrite andb_true_iff, IHr1, IHr2. split.
    + intros [H1 H2]. change (@nil char) with (@nil char ++ []).
      constructor; assumption.
    + intros H. apply Matches_Cat_inv in H as [s1 [s2 [E [H1 H2]]]].
      symmetry in E. apply app_eq_nil in E as [-> ->]. split; assumption.
  - rewrite orb_true_iff, IHr1, IHr2. split.
    + intros [H|H]; [apply MAltL | apply MAltR]; assumption.
    + apply Matches_Alt_inv.
  - split; [constructor | reflexivity].
Qed.

Lemma Matches_star_cons (r : re) (c : char) (s : str) :
  Matches (Star r) (c :: s) ->
  exists s1 s2, s = s1 ++ s2 /\ Matches r (c :: s1) /\ Matches (Star r) s2.
Proof.
  intros H. remember (Star r) as r' eqn:Er. remember (c :: s) as t eqn:Et.
  revert s Et. induction H as [| | | | | |r0 s1 s2 H1 _ H2 IH2]; intros u Et;
    try discriminate.
  injection Er as ->. destruct s1 as [|x s1].
  - simpl in Et. apply IH2; [reflexivity | assumption].
  - simpl in Et. injection Et as -> <-. exists s1, s2. auto.
Qed.

Lemma Matches_Cat_cons (r1 r2 : re) (c : char) (s1 s2 : str) :
  Matches r1 (c :: s1) -> Matches r2 s2 -> Matches (Cat r1 r2) (c :: s1 ++ s2).
Proof. intros. change (c :: s1 ++ s2) with ((c :: s1) ++ s2). constructor; assumption. Qed.

Lemma deriv_Matches (r : re) (c : char) (s : str) :
  Matches (deriv c r) s <-> Matches r (c :: s).
Proof.
  revert s. induction r; intros s; simpl.
  - split; intros H; destruct (Matches_Void_inv _ H).
  - split; intros H.
    + destruct (Matches_Void_inv _ H).
    + apply Matches_Eps_inv in H. discriminate.
  - destruct (p c) eqn:E; split; intros H.
    + apply Matches_Eps_inv in H as ->. constructor. assumption.
    + apply Matches_Cls_inv in H as [d [Ed _]]. injection Ed as <- ->. constructor.
    + destruct (Matches_Void_inv _ H).
    + apply Matches_Cls_inv in H as [d [Ed Hd]]. injection Ed as <- ->. congruence.
  - assert (Hl : forall t, Matches (Cat (deriv c r1) r2) t ->
                           Matches (Cat r1 r2) (c :: t)).
    { intros t H. apply Matches_Cat_inv in H as [s1 [s2 [-> [H1 H2]]]].
      apply Matches_Cat_cons; [apply IHr1|]; assumption. }
    destruct (nullable r1) eqn:N.
    + split.
      * intros H. apply Matches_Alt_inv in H as [H|H]; [apply Hl; assumption|].
        apply IHr2 in H. change (c :: s) with ([] ++ c :: s).
        constructor; [apply nullable_Matches; assumption | assumption].
      * intros H. apply Matches_Cat_inv in H as [s1 [s2 [E [H1 H2]]]].
        destruct s1 as [|x s1]; simpl in E.
        -- subst s2. apply MAltR. apply IHr2. assumption.
        -- injection E as -> ->. apply MAltL. constructor; [apply IHr1|]; assumption.
    + split; [apply Hl|].
      intros H. apply Matches_Cat_inv in H as [s1 [s2 [E [H1 H2]]]].
      destruct s1 as [|x s1]; simpl in E.
      * apply nullable_Matches in H1. congruence.
      * injection E as -> ->. constructor; [apply IHr1|]; assumption.
  - split; intros H; apply Matches_Alt_inv in H as [H|H].
    + apply MAltL, IHr1. assumption.
    + apply MAltR, IHr2. assumption.
    + apply MAltL, IHr1. assumption.
    + apply MAltR, IHr2. assumption.
  - split.
    + intros H. apply Matches_Cat_inv in H as [s1 [s2 [-> [H1 H2]]]].
      change (c :: s1 ++ s2) with ((c :: s1) ++ s2).
      constructor; [apply IHr|]; assumption.
    + intros H. apply Matches_star_cons in H as [s1 [s2 [-> [H1 H2]]]].
      constructor; [apply IHr|]; assumption.
Qed.

Lemma matchb_Matches (r : re) (s : str) : matchb r s = true <-> Matches r s.
Proof.
  revert r. induction s as [|c s IH]; intros r; simpl.
  - apply nullable_Matches.
  - rewrite IH. apply deriv_Matches.
Qed.

End RegExpFacts.

(** ** The front-matter locator *)

Section FrontMatter.

Lemma indexOf_from_Some (x : str) (i k : nat) (l : list str) :
  indexOf_from x i l = Some k ->
  i <= k /\ l !! (k - i) = Some x /\
  forall m, m < k - i -> l !! m <> Some x.
Proof.
  revert i. induction l as [|y l IH]; intros i; simpl; [discriminate|].
  destruct (str_eqb y x) eqn:E.
  - intros [= <-]. apply str_eqb_eq in E as ->.
    replace (i - i) with 0 by lia. repeat split; [lia | intros m Hm; lia].
  - intros H. apply IH in H as [Hle [Hk Hmin]].
    replace (k - i) with (S (k - S i)) by lia.
    repeat split; [lia | exact Hk |].
    intros [|m] Hm; simpl.
    + intros [= ->]. rewrite str_eqb_refl in E. discriminate.
    + apply Hmin. lia.
Qed.

Lemma indexOf_from_None (x : str) (i : nat) (l : list str) :
  indexOf_from x i l = None -> forall m, l !! m <> Some x.
Proof.
  revert i. induction l as [|y l IH]; intros i; simpl.
  - intros _ m. rewrite lookup_nil. discriminate.
  - destruct (str_eqb y x) eqn:E; [discriminate|].
    intros H [|m]; simpl.
    + intros [= ->]. rewrite str_eqb_refl in E. discriminate.
    + eapply IH. exact H.
Qed.

Lemma indexOf_from_first (x : str) (i k : nat) (l : list str) :
  l !! k = Some x -> (forall m, m < k -> l !! m <> Some x) ->
  indexOf_from x i l = Some (i + k).
Proof.
  revert i k. induction l as [|y l IH]; intros i k Hk Hmin.
  - rewrite lookup_nil in Hk. discriminate.
  - simpl. destruct k as [|k]; simpl in Hk.
    + injection Hk as ->. rewrite str_eqb_refl. f_equal. lia.
    + destruct (str_eqb y x) eqn:E.
      * apply str_eqb_eq in E as ->. exfalso. apply (Hmin 0); [lia | reflexivity].
      * rewrite (IH (S i) k Hk); [f_equal; lia|].
        intros m Hm. apply (Hmin (S m)). lia.
Qed.

Lemma line_is_true (lines : list str) (i : nat) (x : str) :
  line_is lines i x = true <-> lines !! i = Some x.
Proof.
  unfold line_is. destruct (lines !! i) as [y|].
  - rewrite str_eqb_eq. split; congruence.
  - split; discriminate.
Qed.

(** The closing delimiter is found at [k]: the result is [k + 1]. *)
Lemma findYamlEnd_closed (lines : list str) (k : nat) :
  lines !! 0 = Some (lit "---") -> 1 <= k -> lines !! k = Some (lit "---") ->
  (forall m, 1 <= m < k -> lines !! m <> Some (lit "---")) ->
  findYamlEnd lines = k + 1.
Proof.
  intros H0 Hk1 Hk Hmin. unfold findYamlEnd.
  apply line_is_true in H0 as ->. unfold indexOf.
  rewrite (indexOf_from_first _ 1 (k - 1)).
  - f_equal. lia.
  - rewrite lookup_drop. replace (1 + (k - 1)) with k by lia. exact Hk.
  - intros m Hm. rewrite lookup_drop. apply Hmin. lia.
Qed.

Lemma findYamlEnd_not_opened (lines : list str) :
  lines !! 0 <> Some (lit "---") -> findYamlEnd lines = 0.
Proof.
  intros H. unfold findYamlEnd.
  destruct (line_is lines 0 (lit "---")) eqn:E; [|reflexivity].
  apply line_is_true in E. contradiction.
Qed.

Lemma findYamlEnd_unterminated (lines : list str) :
  (forall m, 1 <= m -> lines !! m <> Some (lit "---")) -> findYamlEnd lines = 0.
Proof.
  intros H. unfold findYamlEnd.
  destruct (line_is lines 0 (lit "---")); [|reflexivity].
  unfold indexOf. destruct (indexOf_from (lit "---") 1 (drop 1 lines)) as [k|] eqn:E;
    [|reflexivity].
  apply indexOf_from_Some in E as [Hle [Hk _]]. rewrite lookup_drop in Hk.
  exfalso. apply (H (1 + (k - 1))); [lia | exact Hk].
Qed.

(** The result is [0], or the block is closed right before it. *)
Lemma findYamlEnd_cases (lines : list str) :
  findYamlEnd lines = 0 \/
  exists k, findYamlEnd lines = k + 1 /\ 1 <= k /\
            lines !! 0 = Some (lit "---") /\ lines !! k = Some (lit "---") /\
            forall m, 1 <= m < k -> lines !! m <> Some (lit "---").
Proof.
  unfold findYamlEnd. destruct (line_is lines 0 (lit "---")) eqn:E0; [|left; reflexivity].
  unfold indexOf. destruct (indexOf_from (lit "---") 1 (drop 1 lines)) as [k|] eqn:E;
    [|left; reflexivity].
  right. exists k. apply indexOf_from_Some in E as [Hle [Hk Hmin]].
  rewrite lookup_drop in Hk. replace (1 + (k - 1)) with k in Hk by lia.
  apply line_is_true in E0. repeat split; try assumption.
  intros m Hm. specialize (Hmin (m - 1)). rewrite lookup_drop in Hmin.
  replace (1 + (m - 1)) with m in Hmin by lia. apply Hmin. lia.
Qed.

Lemma findYamlEnd_le (lines : list str) : findYamlEnd lines <= length lines.
Proof.
  destruct (findYamlEnd_cases lines) as [->|[k [-> [_ [_ [Hk _]]]]]]; [lia|].
  apply lookup_lt_Some in Hk. lia.
Qed.

(** Lines from the result on do not matter to it. *)
Lemma findYamlEnd_frame (lines out : list str) :
  findYamlEnd lines <= findYamlEnd (take (findYamlEnd lines) lines ++ out).
Proof.
  destruct (findYamlEnd_cases lines) as [->|[k [E [Hk1 [H0 [Hk Hmin]]]]]]; [lia|].
  rewrite E. pose proof (lookup_lt_Some _ _ _ Hk) as Hlen.
  rewrite (findYamlEnd_closed _ k); [lia | | lia | |].
  - rewrite lookup_app_l by (rewrite length_take; lia).
    rewrite lookup_take_lt by lia. exact H0.
  - rewrite lookup_app_l by (rewrite length_take; lia).
    rewrite lookup_take_lt by lia. exact Hk.
  - intros m Hm. rewrite lookup_app_l by (rewrite length_take; lia).
    rewrite lookup_take_lt by lia. apply Hmin. lia.
Qed.

Lemma findYamlEnd_frame_pos (lines out : list str) :
  0 < findYamlEnd lines ->
  findYamlEnd (take (findYamlEnd lines) lines ++ out) = findYamlEnd lines.
Proof.
  intros Hpos.
  destruct (findYamlEnd_cases lines) as [E|[k [E [Hk1 [H0 [Hk Hmin]]]]]]; [lia|].
  rewrite E. pose proof (lookup_lt_Some _ _ _ Hk) as Hlen.
  apply findYamlEnd_closed; [| lia | |].
  - rewrite lookup_app_l by (rewrite length_take; lia).
    rewrite lookup_take_lt by lia. exact H0.
  - rewrite lookup_app_l by (rewrite length_take; lia).
    rewrite lookup_take_lt by lia. exact Hk.
  - intros m Hm. rewrite lookup_app_l by (rewrite length_take; lia).
    rewrite lookup_take_lt by lia. apply Hmin. lia.
Qed.

End FrontMatter.

(** ** The heading loop, round by round *)

Section HeadingLoop.

Variables hPrefix noteName : str.

Lemma countWhile_le (p : str -> bool) (l : list str) :
  countWhile p l <= length l.
Proof. induction l as [|x l IH]; simpl; [lia|]. destruct (p x); simpl; lia. Qed.

Lemma skipBlank_after (pre : list str) (l : str) (tl : list str) :
  skipBlank (pre ++ l :: tl) (length pre + 1)
  = length pre + 1 + countWhile isTrimEmpty tl.
Proof.
  unfold skipBlank. f_equal.
  replace (pre ++ l :: tl) with ((pre ++ [l]) ++ tl) by (rewrite <- app_assoc; reflexivity).
  rewrite drop_app_length'; [reflexivity|]. rewrite length_app. simpl. lia.
Qed.

Lemma lookup_after (pre : list str) (l : str) (tl : list str) (k : nat) :
  (pre ++ l :: tl) !! (length pre + 1 + k) = tl !! k.
Proof.
  replace (pre ++ l :: tl) with ((pre ++ [l]) ++ tl) by (rewrite <- app_assoc; reflexivity).
  rewrite lookup_app_r; rewrite length_app; simpl; [|lia].
  f_equal. lia.
Qed.

Lemma headingStep_round (pre : list str) (l : str) (tl : list str) (c : bool) :
  headingStep hPrefix noteName (pre ++ l :: tl) (length pre) c
  = let '(l', tl', c') := headingRound hPrefix noteName l tl c in
    (pre ++ l' :: tl', c').
Proof.
  unfold headingStep, headingRound. rewrite list_lookup_middle by reflexivity.
  destruct (startsWith l hPrefix); simpl; [|reflexivity].
  fold (cleanHeadingOf hPrefix l).
  set (clean := cleanHeadingOf hPrefix l).
  fold (backlinkFor noteName clean).
  set (bl := backlinkFor noteName clean).
  assert (Hplace : forall l1 c1,
    (let j := skipBlank (pre ++ l1 :: tl) (length pre + 1) in
     match (pre ++ l1 :: tl) !! j with
     | None => ((pre ++ l1 :: tl) ++ [bl], true)
     | Some lj =>
         if negb (test_whole wikiLinkRe (trim lj))
         then (splice_in j [bl] (pre ++ l1 :: tl), true)
         else if negb (str_eqb (trim lj) bl)
         then (<[j := bl]> (pre ++ l1 :: tl), true)
         else (pre ++ l1 :: tl, c1)
     end)
    = let '(tl', c2) := placeBacklink bl tl c1 in (pre ++ l1 :: tl', c2)).
  { intros l1 c1. cbv zeta. rewrite skipBlank_after, lookup_after.
    unfold placeBacklink. set (k := countWhile isTrimEmpty tl).
    destruct (tl !! k) as [x|] eqn:Hk.
    - destruct (negb (test_whole wikiLinkRe (trim x))).
      + unfold splice_in. f_equal.
        replace (pre ++ l1 :: tl) with ((pre ++ [l1]) ++ tl)
          by (rewrite <- app_assoc; reflexivity).
        rewrite take_app_add', drop_app_add' by (rewrite length_app; simpl; lia).
        rewrite <- !app_assoc. reflexivity.
      + destruct (negb (str_eqb (trim x) bl)); [|reflexivity].
        f_equal.
        replace (pre ++ l1 :: tl) with ((pre ++ [l1]) ++ tl)
          by (rewrite <- app_assoc; reflexivity).
        replace (length pre + 1 + k) with (length (pre ++ [l1]) + k)
          by (rewrite length_app; simpl; lia).
        rewrite insert_app_r. rewrite <- app_assoc. reflexivity.
    - f_equal. rewrite <- app_assoc. reflexivity. }
  destruct (negb (str_eqb (slice (length hPrefix) l) clean)).
  - replace (<[length pre := hPrefix ++ clean]> (pre ++ l :: tl))
      with (pre ++ (hPrefix ++ clean) :: tl).
    + rewrite Hplace. destruct (placeBacklink bl tl true). reflexivity.
    + replace (length pre) with (length pre + 0) by lia.
      rewrite insert_app_r. reflexivity.
  - rewrite Hplace. destruct (placeBacklink bl tl c). reflexivity.
Qed.

Lemma headingLoop_rounds (fuel : nat) (pre rest : list str) (c : bool) :
  headingLoop fuel hPrefix noteName (pre ++ rest) (length pre) c
  = match headingRounds fuel hPrefix noteName rest c with
    | Some (out, c') => Some (pre ++ out, c')
    | None => None
    end.
Proof.
  revert pre rest c. induction fuel as [|fuel IH]; intros pre rest c; simpl.
  - reflexivity.
  - destruct rest as [|l tl].
    + rewrite app_nil_r.
      destruct (Nat.ltb_spec (length pre) (length pre)); [lia | reflexivity].
    + destruct (Nat.ltb_spec (length pre) (length (pre ++ l :: tl))) as [_|H];
        [|rewrite length_app in H; simpl in H; lia].
      rewrite headingStep_round.
      destruct (headingRound hPrefix noteName l tl c) as [[l' tl'] c'].
      replace (pre ++ l' :: tl') with ((pre ++ [l']) ++ tl')
        by (rewrite <- app_assoc; reflexivity).
      replace (length pre + 1) with (length (pre ++ [l']))
        by (rewrite length_app; simpl; lia).
      rewrite IH.
      destruct (headingRounds fuel hPrefix noteName tl' c') as [[out c'']|];
        [|reflexivity].
      rewrite <- app_assoc. reflexivity.
Qed.

End HeadingLoop.

(** ** The heading loop ends *)

Section HeadingTotal.

Variables hPrefix noteName : str.

(** A backlink is no heading: it starts with a bracket. *)
Hypothesis prefix_no_bracket : forall t, startsWith (ch "[" :: t) hPrefix = false.

Lemma backlink_not_heading (clean : str) :
  startsWith (backlinkFor noteName clean) hPrefix = false.
Proof. apply prefix_no_bracket. Qed.

Lemma headingMeasure_cons (l : str) (tl : list str) :
  headingMeasure hPrefix (l :: tl)
  = headingMeasure hPrefix tl + (if startsWith l hPrefix then 2 else 1).
Proof.
  unfold headingMeasure. rewrite filter_cons. simpl.
  destruct (startsWith l hPrefix) eqn:E.
  - rewrite decide_True by reflexivity. simpl. lia.
  - rewrite decide_False by discriminate. lia.
Qed.

Lemma headingMeasure_app (a b : list str) :
  headingMeasure hPrefix (a ++ b) = headingMeasure hPrefix a + headingMeasure hPrefix b.
Proof.
  unfold headingMeasure. rewrite list.filter_app, !length_app. lia.
Qed.

Lemma headingMeasure_le (l : list str) : headingMeasure hPrefix l <= 2 * length l.
Proof.
  unfold headingMeasure.
  pose proof (length_filter (fun l => startsWith l hPrefix = true) l). lia.
Qed.

Lemma placeBacklink_measure (clean : str) (tl : list str) (c : bool) :
  headingMeasure hPrefix (fst (placeBacklink (backlinkFor noteName clean) tl c))
  <= headingMeasure hPrefix tl + 1.
Proof.
  unfold placeBacklink. set (k := countWhile isTrimEmpty tl).
  set (bl := backlinkFor noteName clean).
  assert (Hbl : headingMeasure hPrefix [bl] = 1).
  { rewrite headingMeasure_cons. unfold bl. rewrite backlink_not_heading. reflexivity. }
  destruct (tl !! k) as [x|] eqn:Hk; simpl.
  - destruct (negb (test_whole wikiLinkRe (trim x))); simpl.
    + rewrite <- (take_drop k tl) at 3.
      change (bl :: drop k tl) with ([bl] ++ drop k tl).
      rewrite !headingMeasure_app, Hbl. lia.
    + destruct (negb (str_eqb (trim x) bl)); simpl; [|lia].
      rewrite <- (take_drop_middle tl k x Hk) at 2.
      rewrite insert_take_drop by (apply lookup_lt_Some in Hk; exact Hk).
      change (bl :: drop (S k) tl) with ([bl] ++ drop (S k) tl).
      change (x :: drop (S k) tl) with ([x] ++ drop (S k) tl).
      rewrite !headingMeasure_app, Hbl.
      rewrite (headingMeasure_cons x []). destruct (startsWith x hPrefix); simpl; lia.
  - rewrite headingMeasure_app, Hbl. lia.
Qed.

Lemma headingRound_measure (l : str) (tl : list str) (c : bool) :
  headingMeasure hPrefix (snd (fst (headingRound hPrefix noteName l tl c)))
  < headingMeasure hPrefix (l :: tl).
Proof.
  rewrite headingMeasure_cons. unfold headingRound.
  destruct (startsWith l hPrefix); simpl; [|lia].
  set (clean := cleanHeadingOf hPrefix l).
  destruct (negb (str_eqb (slice (length hPrefix) l) clean)).
  - pose proof (placeBacklink_measure clean tl true) as H.
    destruct (placeBacklink (backlinkFor noteName clean) tl true); simpl in *. lia.
  - pose proof (placeBacklink_measure clean tl c) as H.
    destruct (placeBacklink (backlinkFor noteName clean) tl c); simpl in *. lia.
Qed.

Lemma headingRounds_total (fuel : nat) (rest : list str) (c : bool) :
  headingMeasure hPrefix rest < fuel ->
  exists out c', headingRounds fuel hPrefix noteName rest c = Some (out, c').
Proof.
  revert rest c. induction fuel as [|fuel IH]; intros rest c Hm; [lia|].
  simpl. destruct rest as [|l tl]; [eauto|].
  pose proof (headingRound_measure l tl c) as Hr.
  destruct (headingRound hPrefix noteName l tl c) as [[l' tl'] c']. simpl in Hr.
  destruct (IH tl' c') as [out [c'' E]]; [lia|].
  rewrite E. eauto.
Qed.

(** More fuel gives the same result. *)
Lemma headingRounds_more (fuel fuel' : nat) (rest : list str) (c : bool) r :
  headingRounds fuel hPrefix noteName rest c = Some r -> fuel <= fuel' ->
  headingRounds fuel' hPrefix noteName rest c = Some r.
Proof.
  revert fuel' rest c r. induction fuel as [|fuel IH]; intros fuel' rest c r H Hle;
    [discriminate|].
  destruct fuel' as [|fuel']; [lia|]. simpl in *.
  destruct rest as [|l tl]; [exact H|].
  destruct (headingRound hPrefix noteName l tl c) as [[l' tl'] c'].
  destruct (headingRounds fuel hPrefix noteName tl' c') as [[out c'']|] eqn:E;
    [|discriminate].
  rewrite (IH fuel' _ _ _ E) by lia. exact H.
Qed.

End HeadingTotal.

Lemma hPrefixOf_no_bracket (level : nat) (t : str) :
  startsWith (ch "[" :: t) (hPrefixOf level) = false.
Proof. destruct level; reflexivity. Qed.

(** [rewriteHeadingsAndCollectLists] in rounds over the lines after the
    front matter. *)
Lemma rewriteHeadings_rounds (this : AnkiHelperPlugin) (lines : list str) (file : TFile) :
  rewriteHeadingsAndCollectLists this lines file
  = match headingRounds (2 * length lines + 1)
            (hPrefixOf (headingLevel (settings this))) (basename file)
            (drop (findYamlEnd lines) lines) false with
    | Some (out, c) => Some (take (findYamlEnd lines) lines ++ out, c)
    | None => None
    end.
Proof.
  unfold rewriteHeadingsAndCollectLists.
  fold (hPrefixOf (headingLevel (settings this))).
  rewrite <- (take_drop (findYamlEnd lines) lines) at 2.
  rewrite <- (length_take_le lines (findYamlEnd lines)) at 3
    by apply findYamlEnd_le.
  apply headingLoop_rounds.
Qed.

Lemma rewriteHeadings_total (this : AnkiHelperPlugin) (lines : list str) (file : TFile) :
  exists out c,
    headingRounds (2 * length lines + 1)
      (hPrefixOf (headingLevel (settings this))) (basename file)
      (drop (findYamlEnd lines) lines) false = Some (out, c) /\
    rewriteHeadingsAndCollectLists this lines file
    = Some (take (findYamlEnd lines) lines ++ out, c).
Proof.
  destruct (headingRounds_total (hPrefixOf (headingLevel (settings this)))
              (basename file) (hPrefixOf_no_bracket _)
              (2 * length lines + 1) (drop (findYamlEnd lines) lines) false)
    as [out [c E]].
  { pose proof (headingMeasure_le (hPrefixOf (headingLevel (settings this)))
                  (drop (findYamlEnd lines) lines)) as H.
    rewrite length_drop in H. lia. }
  exists out, c. split; [exact E|]. rewrite rewriteHeadings_rounds, E. reflexivity.
Qed.

(** ** The list loop, round by round *)

Section TidyLoop.

Lemma countWhile_take (p : str -> bool) (l : list str) :
  Forall (fun x => p x = true) (take (countWhile p l) l).
Proof.
  induction l as [|x l IH]; simpl; [constructor|].
  destruct (p x) eqn:E; simpl; [constructor; assumption | constructor].
Qed.

Lemma countWhile_drop (p : str -> bool) (l : list str) (x : str) (r : list str) :
  drop (countWhile p l) l = x :: r -> p x = false.
Proof.
  induction l as [|y l IH]; simpl; [discriminate|].
  destruct (p y) eqn:E; simpl; [exact IH | intros [= <- _]; exact E].
Qed.

Lemma countWhile_lookup (p : str -> bool) (l : list str) (x : str) :
  l !! countWhile p l = Some x -> p x = false.
Proof.
  induction l as [|y l IH]; simpl; [discriminate|].
  destruct (p y) eqn:E; simpl; [exact IH | intros [= <-]; exact E].
Qed.

Lemma countWhile_app (p : str -> bool) (a b : list str) :
  Forall (fun x => p x = true) a ->
  countWhile p (a ++ b) = length a + countWhile p b.
Proof.
  induction 1 as [|x a Hx _ IH]; simpl; [reflexivity|]. rewrite Hx, IH. reflexivity.
Qed.

Lemma removeEmptyItems_block (b1 : list str) :
  forall (pre b2 : list str) (e : Z) (c : bool),
    removeEmptyItems (length pre) (length b1) (pre ++ b1 ++ b2) e c
    = (pre ++ filter (fun x => keepItem x = true) b1 ++ b2,
       (e - Z.of_nat (length b1 - length (filter (fun x => keepItem x = true) b1)))%Z,
       c || negb (length (filter (fun x => keepItem x = true) b1) =? length b1)).
Proof.
  induction b1 as [|x b1 IH] using rev_ind; intros pre b2 e c.
  - simpl. rewrite orb_false_r. f_equal. f_equal. lia.
  - rewrite length_app. simpl. replace (length b1 + 1) with (S (length b1)) by lia.
    simpl. rewrite <- app_assoc. simpl.
    replace (pre ++ b1 ++ x :: b2) with ((pre ++ b1) ++ x :: b2)
      by (rewrite <- app_assoc; reflexivity).
    rewrite <- length_app. rewrite list_lookup_middle by reflexivity.
    rewrite list.filter_app, filter_cons, filter_nil.
    pose proof (length_filter (fun x => keepItem x = true) b1) as Hle.
    destruct (isEmptyItem x) eqn:E; simpl.
    + unfold splice_out. rewrite delete_middle. rewrite <- app_assoc.
      rewrite IH.
      rewrite decide_False by (unfold keepItem; rewrite E; discriminate).
      rewrite app_nil_r.
      f_equal; [f_equal; lia|].
      destruct (Nat.eqb_spec (length (filter (fun x0 => keepItem x0 = true) b1))
                  (S (length b1))); [lia|].
      rewrite orb_true_r. reflexivity.
    + rewrite <- app_assoc. rewrite IH.
      rewrite decide_True by (unfold keepItem; rewrite E; reflexivity).
      rewrite length_app. simpl. rewrite <- app_assoc. simpl.
      f_equal; [f_equal; lia|].
      f_equal. f_equal.
      destruct (Nat.eqb_spec (length (filter (fun x0 => keepItem x0 = true) b1))
                  (length b1));
      destruct (Nat.eqb_spec (length (filter (fun x0 => keepItem x0 = true) b1) + 1)
                  (S (length b1))); try reflexivity; lia.
Qed.

Lemma tidyStep_round (pre : list str) (l : str) (tl : list str) (c : bool) :
  tidyStep (pre ++ l :: tl) (length pre) c
  = let '(kept, rest', c') := tidyRound l tl c in
    (pre ++ kept ++ rest', length pre + length kept, c').
Proof.
  unfold tidyStep, tidyRound. rewrite list_lookup_middle by reflexivity.
  destruct (isList l) eqn:El; simpl; [|reflexivity].
  replace (drop (length pre + 1) (pre ++ l :: tl)) with tl.
  2:{ replace (pre ++ l :: tl) with ((pre ++ [l]) ++ tl)
        by (rewrite <- app_assoc; reflexivity).
      rewrite drop_app_length'; [reflexivity | rewrite length_app; simpl; lia]. }
  set (n := countWhile isList tl).
  pose proof (countWhile_le isList tl) as Hn. fold n in Hn.
  set (block := l :: take n tl).
  assert (Hblock : length block = n + 1).
  { unfold block. simpl. rewrite length_take_le by lia. lia. }
  replace (length pre + n - length pre + 1) with (length block) by lia.
  replace (pre ++ l :: tl) with (pre ++ block ++ drop n tl).
  2:{ unfold block. simpl. rewrite take_drop. reflexivity. }
  rewrite removeEmptyItems_block.
  set (kept := filter (fun x => keepItem x = true) block).
  pose proof (length_filter (fun x => keepItem x = true) block) as Hk. fold kept in Hk.
  replace (Z.to_nat (Z.of_nat (length pre + n)
                     - Z.of_nat (length block - length kept) + 1))
    with (length pre + length kept) by lia.
  replace (pre ++ kept ++ drop n tl) with ((pre ++ kept) ++ drop n tl)
    by (rewrite <- app_assoc; reflexivity).
  rewrite <- length_app.
  replace (length (pre ++ kept)) with (length (pre ++ kept) + 0) at 1 by lia.
  rewrite lookup_app_r by lia.
  replace (length (pre ++ kept) + 0 - length (pre ++ kept)) with 0 by lia.
  unfold separatorFor. fold (needSpace).
  destruct (drop n tl) as [|nx after] eqn:Ea; simpl.
  - rewrite orb_false_r, !app_nil_r. reflexivity.
  - fold (needSpace nx). destruct (needSpace nx); simpl.
    + unfold splice_in. rewrite take_app_length, drop_app_length.
      rewrite orb_true_r. rewrite <- !app_assoc. reflexivity.
    + rewrite orb_false_r. rewrite <- app_assoc. reflexivity.
Qed.

Lemma tidyLoop_rounds (fuel : nat) (pre rest : list str) (c : bool) :
  tidyLoop fuel (pre ++ rest) (length pre) c
  = match tidyRounds fuel rest c with
    | Some (out, c') => Some (pre ++ out, c')
    | None => None
    end.
Proof.
  revert pre rest c. induction fuel as [|fuel IH]; intros pre rest c; simpl.
  - reflexivity.
  - destruct rest as [|l tl].
    + rewrite app_nil_r.
      destruct (Nat.ltb_spec (length pre) (length pre)); [lia | reflexivity].
    + destruct (Nat.ltb_spec (length pre) (length (pre ++ l :: tl))) as [_|H];
        [|rewrite length_app in H; simpl in H; lia].
      rewrite tidyStep_round.
      destruct (tidyRound l tl c) as [[kept rest'] c'].
      replace (pre ++ kept ++ rest') with ((pre ++ kept) ++ rest')
        by (rewrite <- app_assoc; reflexivity).
      rewrite <- length_app. rewrite IH.
      destruct (tidyRounds fuel rest' c') as [[out c'']|]; [|reflexivity].
      rewrite <- app_assoc. reflexivity.
Qed.

End TidyLoop.

(** ** The list loop ends *)

Section TidyTotal.

Lemma separator_not_list : isList (lit " ") = false.
Proof. reflexivity. Qed.

Lemma tidyRound_measure (l : str) (tl : list str) (c : bool) :
  tidyMeasure (snd (fst (tidyRound l tl c))) < tidyMeasure (l :: tl).
Proof.
  unfold tidyRound. destruct (isList l) eqn:El; simpl.
  - unfold tidyMeasure at 2. rewrite El. set (n := countWhile isList tl).
    pose proof (countWhile_le isList tl) as Hn. fold n in Hn.
    pose proof (length_drop tl n) as Hd.
    destruct (drop n tl) as [|nx after] eqn:Ea; unfold separatorFor, tidyMeasure.
    + simpl. lia.
    + apply countWhile_drop in Ea as Hnx.
      destruct (needSpace nx).
      * change ([lit " "] ++ nx :: after) with (lit " " :: nx :: after).
        cbv beta iota. rewrite separator_not_list. simpl length in *. lia.
      * simpl app. cbv beta iota. rewrite Hnx. simpl length in *. lia.
  - unfold tidyMeasure. rewrite El. destruct tl as [|x tl]; simpl length; [lia|].
    destruct (isList x); lia.
Qed.

Lemma tidyRounds_total (fuel : nat) (rest : list str) (c : bool) :
  tidyMeasure rest < fuel ->
  exists out c', tidyRounds fuel rest c = Some (out, c').
Proof.
  revert rest c. induction fuel as [|fuel IH]; intros rest c Hm; [lia|].
  simpl. destruct rest as [|l tl]; [eauto|].
  pose proof (tidyRound_measure l tl c) as Hr.
  destruct (tidyRound l tl c) as [[kept rest'] c']. simpl in Hr.
  destruct (IH rest' c') as [out [c'' E]]; [lia|].
  rewrite E. eauto.
Qed.

Lemma tidyRounds_more (fuel fuel' : nat) (rest : list str) (c : bool) r :
  tidyRounds fuel rest c = Some r -> fuel <= fuel' ->
  tidyRounds fuel' rest c = Some r.
Proof.
  revert fuel' rest c r. induction fuel as [|fuel IH]; intros fuel' rest c r H Hle;
    [discriminate|].
  destruct fuel' as [|fuel']; [lia|]. simpl in *.
  destruct rest as [|l tl]; [exact H|].
  destruct (tidyRound l tl c) as [[kept rest'] c'].
  destruct (tidyRounds fuel rest' c') as [[out c'']|] eqn:E; [|discriminate].
  rewrite (IH fuel' _ _ _ E) by lia. exact H.
Qed.

Lemma tidyMeasure_le (l : list str) : tidyMeasure l <= 2 * length l + 1.
Proof. unfold tidyMeasure. destruct l as [|x l]; [lia|]. destruct (isList x); lia. Qed.

End TidyTotal.

(** [tidyLists] in rounds over the lines after the front matter. *)
Lemma tidyLists_rounds (lines : list str) :
  tidyLists lines
  = match tidyRounds (2 * length lines + 2) (drop (findYamlEnd lines) lines) false with
    | Some (out, c) => Some (take (findYamlEnd lines) lines ++ out, c)
    | None => None
    end.
Proof.
  unfold tidyLists.
  rewrite <- (take_drop (findYamlEnd lines) lines) at 2.
  rewrite <- (length_take_le lines (findYamlEnd lines)) at 3
    by apply findYamlEnd_le.
  apply tidyLoop_rounds.
Qed.

Lemma tidyLists_total (lines : list str) :
  exists out c,
    tidyRounds (2 * length lines + 2) (drop (findYamlEnd lines) lines) false
    = Some (out, c) /\
    tidyLists lines = Some (take (findYamlEnd lines) lines ++ out, c).
Proof.
  destruct (tidyRounds_total (2 * length lines + 2)
              (drop (findYamlEnd lines) lines) false) as [out [c E]].
  { pose proof (tidyMeasure_le (drop (findYamlEnd lines) lines)) as H.
    rewrite length_drop in H. lia. }
  exists out, c. split; [exact E|]. rewrite tidyLists_rounds, E. reflexivity.
Qed.

(** ** What the patterns of the source accept *)

Section Patterns.

Lemma Matches_star_cls (p : char -> bool) (s : str) :
  Matches (Star (Cls p)) s <-> forallb p s = true.
Proof.
  split.
  - intros H. remember (Star (Cls p)) as r eqn:Er.
    induction H as [| | | | | |r0 s1 s2 H1 _ H2 IH2]; try discriminate.
    + reflexivity.
    + injection Er as ->. apply Matches_Cls_inv in H1 as [c [-> Hc]].
      simpl. rewrite Hc. apply IH2. reflexivity.
  - induction s as [|c s IH]; simpl; intros H.
    + constructor.
    + apply andb_true_iff in H as [Hc Hs].
      change (c :: s) with ([c] ++ s). constructor; [constructor; exact Hc | auto].
Qed.

Lemma Matches_text (t s : str) : Matches (text t) s <-> s = t.
Proof.
  revert s. induction t as [|c t IH]; intros s; simpl.
  - split; [apply Matches_Eps_inv | intros ->; constructor].
  - split.
    + intros H. apply Matches_Cat_inv in H as [s1 [s2 [-> [H1 H2]]]].
      apply Matches_Cls_inv in H1 as [d [-> Hd]]. apply char_eqb_eq in Hd as <-.
      apply IH in H2 as ->. reflexivity.
    + intros ->. change (c :: t) with ([c] ++ t).
      constructor; [constructor; apply char_eqb_refl | apply IH; reflexivity].
Qed.

Lemma Matches_star_any (s : str) : Matches (Star any) s.
Proof.
  apply Matches_star_cls. induction s; simpl; auto.
Qed.

Lemma test_whole_iff (r : re) (s : str) : test_whole r s = true <-> Matches r s.
Proof. apply matchb_Matches. Qed.

Lemma test_prefix_iff (r : re) (s : str) :
  test_prefix r s = true <-> exists s1 s2, s = s1 ++ s2 /\ Matches r s1.
Proof.
  unfold test_prefix. rewrite matchb_Matches. split.
  - intros H. apply Matches_Cat_inv in H as [s1 [s2 [-> [H1 _]]]]. eauto.
  - intros [s1 [s2 [-> H1]]]. constructor; [exact H1 | apply Matches_star_any].
Qed.

Lemma Matches_listMarker (m : str) : Matches listMarker m <-> IsMarker m.
Proof.
  unfold listMarker, IsMarker. split.
  - intros H. apply Matches_Alt_inv in H as [H|H].
    + left. apply Matches_Cls_inv in H as [c [-> Hc]]. eauto.
    + right. apply Matches_Cat_inv in H as [s1 [s2 [-> [H1 H2]]]].
      apply Matches_Cls_inv in H2 as [d [-> Hd]]. apply char_eqb_eq in Hd as <-.
      unfold plus in H1. apply Matches_Cat_inv in H1 as [a [b [-> [Ha Hb]]]].
      apply Matches_Cls_inv in Ha as [c [-> Hc]].
      apply Matches_star_cls in Hb.
      exists ([c] ++ b). split; [reflexivity|]. split; [discriminate|].
      simpl. unfold digit in *. rewrite Hc. exact Hb.
  - intros [[c [-> Hc]] | [ds [-> [Hne Hds]]]].
    + apply MAltL. constructor. exact Hc.
    + apply MAltR. constructor; [|constructor; apply char_eqb_refl].
      destruct ds as [|d ds]; [contradiction|]. simpl in Hds.
      apply andb_true_iff in Hds as [Hd Hds].
      change (d :: ds) with ([d] ++ ds). constructor.
      * constructor. exact Hd.
      * apply Matches_star_cls. exact Hds.
Qed.

Lemma Matches_item (s : str) :
  Matches (seq [Star space; listMarker; Star space]) s <->
  exists ws m ws', s = ws ++ m ++ ws' /\
    forallb isSpace ws = true /\ IsMarker m /\ forallb isSpace ws' = true.
Proof.
  simpl. split.
  - intros H. apply Matches_Cat_inv in H as [ws [s2 [-> [H1 H]]]].
    apply Matches_Cat_inv in H as [m [s3 [-> [H2 H]]]].
    apply Matches_Cat_inv in H as [ws' [e [-> [H3 H4]]]].
    apply Matches_Eps_inv in H4 as ->. rewrite app_nil_r.
    exists ws, m, ws'. split; [reflexivity|].
    apply Matches_star_cls in H1. apply Matches_star_cls in H3.
    apply Matches_listMarker in H2. auto.
  - intros [ws [m [ws' [-> [H1 [H2 H3]]]]]].
    constructor; [apply Matches_star_cls; exact H1|].
    constructor; [apply Matches_listMarker; exact H2|].
    rewrite <- (app_nil_r ws'). constructor; [apply Matches_star_cls; exact H3|].
    constructor.
Qed.

(** A list line starts with white space and a marker. *)
Lemma isList_iff (l : str) :
  isList l = true <->
  exists ws m rest, l = ws ++ m ++ rest /\ forallb isSpace ws = true /\ IsMarker m.
Proof.
  unfold isList. rewrite test_prefix_iff. split.
  - intros [s1 [s2 [-> H]]]. apply Matches_item in H as [ws [m [ws' [-> [H1 [H2 _]]]]]].
    exists ws, m, (ws' ++ s2). rewrite <- !app_assoc. auto.
  - intros [ws [m [rest [-> [H1 H2]]]]]. exists (ws ++ m ++ []), rest.
    split; [rewrite app_nil_r, <- app_assoc; reflexivity|].
    apply Matches_item. exists ws, m, []. auto.
Qed.

Lemma isEmptyItem_iff (l : str) :
  isEmptyItem l = true <->
  exists ws m ws', l = ws ++ m ++ ws' /\
    forallb isSpace ws = true /\ IsMarker m /\ forallb isSpace ws' = true.
Proof. unfold isEmptyItem. rewrite test_whole_iff. apply Matches_item. Qed.

Lemma isEmptyItem_isList (l : str) : isEmptyItem l = true -> isList l = true.
Proof.
  rewrite isEmptyItem_iff, isList_iff.
  intros [ws [m [ws' [-> [H1 [H2 _]]]]]]. exists ws, m, ws'. auto.
Qed.

Lemma isBlankLine_forallb (l : str) : isBlankLine l = forallb isSpace l.
Proof.
  unfold isBlankLine. destruct (forallb isSpace l) eqn:E.
  - apply test_whole_iff, Matches_star_cls. exact E.
  - destruct (test_whole (Star space) l) eqn:E'; [|reflexivity].
    apply test_whole_iff, Matches_star_cls in E'. congruence.
Qed.

End Patterns.

(** ** The deck header *)

Section DeckHeader.

Lemma findIndex_from_lt (p : str -> bool) (i k : nat) (l : list str) :
  findIndex_from p i l = Some k -> i <= k < i + length l.
Proof.
  revert i. induction l as [|y l IH]; intros i; simpl; [discriminate|].
  destruct (p y).
  - intros [= <-]. lia.
  - intros H. apply IH in H. lia.
Qed.

Lemma deckIndex_le (lines : list str) : deckIndex lines <= length lines.
Proof.
  unfold deckIndex. destruct (Nat.eqb_spec (findYamlEnd lines) 0) as [E|E].
  - unfold findIndex.
    destruct (findIndex_from _ 0 lines) as [k|] eqn:F; [|lia].
    apply findIndex_from_lt in F. lia.
  - apply findYamlEnd_le.
Qed.

Lemma char_in_cons (d : char) (t : str) (c : char) :
  char_in (d :: t) c = char_eqb c d || char_in t c.
Proof. reflexivity. Qed.

Lemma char_eqb_sym (a b : char) : char_eqb a b = char_eqb b a.
Proof. apply N.eqb_sym. Qed.

Lemma getSubstitution_plain (matched before after repl : str) :
  char_in repl (ch "$") = false ->
  getSubstitution matched before after repl = repl.
Proof.
  induction repl as [|d t IH]; [reflexivity|].
  rewrite char_in_cons. intros H. apply orb_false_iff in H as [Hd Ht].
  rewrite char_eqb_sym in Hd.
  cbn [getSubstitution]. rewrite Hd. rewrite IH by exact Ht. reflexivity.
Qed.

Lemma replaceAll_from_plain (needle repl : str) (skip : nat) (before s : str) :
  char_in repl (ch "$") = false ->
  replaceAll_from needle repl skip before s
  = substituteAll_from needle repl skip s.
Proof.
  intros H. revert skip before. induction s as [|c s IH]; intros skip before; simpl.
  - reflexivity.
  - destruct skip as [|k]; [|apply IH].
    destruct (startsWith (c :: s) needle).
    + rewrite getSubstitution_plain by exact H. rewrite IH. reflexivity.
    + rewrite IH. reflexivity.
Qed.

Lemma replaceAll_plain (needle repl s : str) :
  char_in repl (ch "$") = false ->
  replaceAll needle repl s = substituteAll needle repl s.
Proof. apply replaceAll_from_plain. Qed.

Lemma no_marker_count (l : list str) :
  existsb (fun x => includes x marker) l = false ->
  filter (fun x => hasMarker x = true) l = [].
Proof.
  induction l as [|x l IH]; simpl; [reflexivity|].
  intros H. apply orb_false_iff in H as [Hx Hl].
  rewrite filter_cons.
  rewrite decide_False by (unfold hasMarker; rewrite Hx; discriminate).
  apply IH. exact Hl.
Qed.

Lemma ensureTargetDeck_inserts (this : AnkiHelperPlugin) (lines : list str)
    (file : TFile) :
  existsb (fun l => includes l marker) lines = false ->
  ensureTargetDeck this lines file
  = (take (deckIndex lines) lines
     ++ (if (0 <? deckIndex lines) && line_is lines (deckIndex lines - 1) (lit "---")
         then [empty] else [])
     ++ [marker;
         replaceAll (lit "filename") (basename file)
           (targetDeckTemplate (settings this));
         empty]
     ++ drop (deckIndex lines) lines,
     true).
Proof.
  intros H. unfold ensureTargetDeck. rewrite H.
  assert (Hidx :
    (if findYamlEnd lines =? 0 then
       match findIndex (fun l => startsWith (trim l) (lit "#")) lines with
       | Some fh => fh
       | None => findYamlEnd lines
       end
     else findYamlEnd lines) = deckIndex lines).
  { unfold deckIndex. destruct (Nat.eqb_spec (findYamlEnd lines) 0) as [E|E];
      [|reflexivity].
    destruct (findIndex _ lines); [reflexivity | exact E]. }
  rewrite Hidx. pose proof (deckIndex_le lines) as Hle.
  set (idx := deckIndex lines) in *.
  destruct ((0 <? idx) && line_is lines (idx - 1) (lit "---")).
  - f_equal. unfold splice_in.
    replace (take idx lines ++ [empty] ++ drop idx lines)
      with ((take idx lines ++ [empty]) ++ drop idx lines)
      by (rewrite <- app_assoc; reflexivity).
    rewrite take_app_length', drop_app_length'
      by (rewrite length_app, length_take_le by lia; simpl; lia).
    rewrite <- app_assoc. reflexivity.
  - reflexivity.
Qed.

End DeckHeader.

(** ** The backlink slot *)

Section BacklinkSlot.

Lemma Matches_wikiLink (s : str) : Matches wikiLinkRe s <-> WikiShape s.
Proof.
  unfold wikiLinkRe, WikiShape, noLineTerminator. cbn [seq]. split.
  - intros H. apply Matches_Cat_inv in H as [s1 [r1 [-> [H1 H]]]].
    apply Matches_Cat_inv in H as [a [r2 [-> [H2 H]]]].
    apply Matches_Cat_inv in H as [s3 [r3 [-> [H3 H]]]].
    apply Matches_Cat_inv in H as [b [r4 [-> [H4 H]]]].
    apply Matches_Cat_inv in H as [s5 [r5 [-> [H5 H]]]].
    apply Matches_Eps_inv in H as ->.
    apply Matches_text in H1 as ->. apply Matches_text in H5 as ->.
    apply Matches_Cls_inv in H3 as [d [-> Hd]]. apply char_eqb_eq in Hd as <-.
    apply Matches_star_cls in H2. apply Matches_star_cls in H4.
    exists a, b. rewrite app_nil_r. auto.
  - intros [a [b [-> [Ha Hb]]]].
    constructor; [apply Matches_text; reflexivity|].
    constructor; [apply Matches_star_cls; exact Ha|].
    constructor; [constructor; apply char_eqb_refl|].
    constructor; [apply Matches_star_cls; exact Hb|].
    rewrite <- (app_nil_r (lit "]]")).
    constructor; [apply Matches_text; reflexivity | constructor].
Qed.

Lemma wikiLink_test (s : str) : test_whole wikiLinkRe s = true <-> WikiShape s.
Proof. rewrite test_whole_iff. apply Matches_wikiLink. Qed.

Lemma startsWith_slice (l p : str) :
  startsWith l p = true -> l = p ++ slice (length p) l.
Proof.
  intros H. apply startsWith_iff in H as [t ->].
  unfold slice. rewrite drop_app_length. reflexivity.
Qed.

Lemma countWhile_first (p : str -> bool) (l : list str) (k : nat) :
  (forall m, m < k -> exists x, l !! m = Some x /\ p x = true) ->
  (forall x, l !! k = Some x -> p x = false) ->
  countWhile p l = k.
Proof.
  revert k. induction l as [|y l IH]; intros k Hlt Hk.
  - destruct k as [|k]; [reflexivity|].
    destruct (Hlt 0) as [x [Hx _]]; [lia | discriminate].
  - simpl. destruct k as [|k].
    + rewrite (Hk y) by reflexivity. reflexivity.
    + destruct (Hlt 0) as [x [Hx Hp]]; [lia|]. injection Hx as ->. rewrite Hp.
      f_equal. apply IH.
      * intros m Hm. apply (Hlt (S m)). lia.
      * intros z Hz. apply (Hk z). exact Hz.
Qed.

Lemma headingStep_at (hPrefix noteName : str) (lines : list str) (i : nat)
    (l : str) (c : bool) :
  lines !! i = Some l ->
  headingStep hPrefix noteName lines i c
  = let '(l', tl', c') :=
      headingRound hPrefix noteName l (drop (S i) lines) c in
    (take i lines ++ l' :: tl', c').
Proof.
  intros H. pose proof (lookup_lt_Some _ _ _ H) as Hlt.
  pose proof (headingStep_round hPrefix noteName (take i lines) l
                (drop (S i) lines) c) as E.
  rewrite (take_drop_middle lines i l H) in E.
  rewrite length_take_le in E by lia. exact E.
Qed.

Lemma isTrimEmpty_true (x : str) : isTrimEmpty x = true <-> trim x = empty.
Proof. unfold isTrimEmpty. apply str_eqb_eq. Qed.

Lemma firstNonBlankAfter_count (lines : list str) (i j : nat) :
  firstNonBlankAfter lines i j ->
  countWhile isTrimEmpty (drop (S i) lines) = j - i - 1.
Proof.
  intros [Hij [Hblank Hj]]. apply countWhile_first.
  - intros m Hm. rewrite lookup_drop.
    destruct (Hblank (S i + m)) as [x [Hx Ht]]; [lia|].
    exists x. split; [exact Hx | apply isTrimEmpty_true; exact Ht].
  - intros x. rewrite lookup_drop. replace (S i + (j - i - 1)) with j by lia.
    intros Hx. rewrite Hx in Hj.
    destruct (isTrimEmpty x) eqn:E; [|reflexivity].
    apply isTrimEmpty_true in E. contradiction.
Qed.

End BacklinkSlot.

(** ** Blank lines, list lines, heading lines and backlinks do not mix *)

Section LineClasses.

Lemma trimStart_split (s : str) :
  exists ws, s = ws ++ trimStart s /\ forallb isSpace ws = true.
Proof.
  induction s as [|c s [ws [E Hws]]]; simpl.
  - exists []. auto.
  - destruct (isSpace c) eqn:Ec.
    + exists (c :: ws). simpl. rewrite Ec, Hws. split; [congruence | reflexivity].
    + exists []. auto.
Qed.

Lemma trimStart_head (s : str) (c : char) (t : str) :
  trimStart s = c :: t -> isSpace c = false.
Proof.
  induction s as [|d s IH]; simpl; [discriminate|].
  destruct (isSpace d) eqn:Ed; [exact IH | intros [= <- _]; exact Ed].
Qed.

Lemma trimStart_spaces (ws s : str) :
  forallb isSpace ws = true -> trimStart (ws ++ s) = trimStart s.
Proof.
  induction ws as [|c ws IH]; simpl; [reflexivity|].
  intros H. apply andb_true_iff in H as [Hc Hws]. rewrite Hc. auto.
Qed.

Lemma trimStart_id (c : char) (t : str) :
  isSpace c = false -> trimStart (c :: t) = c :: t.
Proof. intros H. simpl. rewrite H. reflexivity. Qed.

Lemma trimStart_nil (s : str) : trimStart s = [] <-> forallb isSpace s = true.
Proof.
  induction s as [|c s IH]; simpl; [tauto|].
  destruct (isSpace c); simpl; [exact IH | split; discriminate].
Qed.

Lemma trimEnd_split (s : str) :
  exists ws, s = trimEnd s ++ ws /\ forallb isSpace ws = true.
Proof.
  unfold trimEnd. destruct (trimStart_split (rev s)) as [ws [E Hws]].
  exists (rev ws). split.
  - rewrite <- rev_app_distr, <- E, rev_involutive. reflexivity.
  - rewrite forallb_forall in *. intros x Hx. apply Hws. apply in_rev. exact Hx.
Qed.

Lemma trim_split (s : str) :
  exists ws1 ws2, s = ws1 ++ trim s ++ ws2 /\
                  forallb isSpace ws1 = true /\ forallb isSpace ws2 = true.
Proof.
  destruct (trimStart_split s) as [ws1 [E1 H1]].
  destruct (trimEnd_split (trimStart s)) as [ws2 [E2 H2]].
  exists ws1, ws2. unfold trim. rewrite <- E2. auto.
Qed.

Lemma forallb_rev (p : char -> bool) (s : str) : forallb p (rev s) = forallb p s.
Proof.
  induction s as [|c s IH]; simpl; [reflexivity|].
  rewrite forallb_app, IH. simpl. rewrite andb_true_r. apply andb_comm.
Qed.

Lemma trim_nil (s : str) : trim s = [] <-> forallb isSpace s = true.
Proof.
  split.
  - intros H. destruct (trim_split s) as [ws1 [ws2 [E [H1 H2]]]].
    rewrite H in E. simpl in E. rewrite E. rewrite forallb_app, H1, H2. reflexivity.
  - intros H. unfold trim. apply trimStart_nil in H. rewrite H. reflexivity.
Qed.

Lemma isTrimEmpty_spaces (s : str) : isTrimEmpty s = forallb isSpace s.
Proof.
  destruct (forallb isSpace s) eqn:E.
  - apply isTrimEmpty_true, trim_nil. exact E.
  - destruct (isTrimEmpty s) eqn:E'; [|reflexivity].
    apply isTrimEmpty_true, trim_nil in E'. congruence.
Qed.

Lemma trim_head (s : str) (c : char) (t : str) :
  trim s = c :: t -> exists t', trimStart s = c :: t'.
Proof.
  intros H. unfold trim in H.
  destruct (trimEnd_split (trimStart s)) as [ws [E _]].
  rewrite H in E. rewrite E. simpl. eauto.
Qed.

(** The first character after the leading white space. *)
Lemma isList_head (l : str) :
  isList l = true ->
  exists c t, trimStart l = c :: t /\
              (char_in (lit "-+*") c = true \/ isDigit c = true).
Proof.
  intros H. apply isList_iff in H as [ws [m [rest [-> [Hws Hm]]]]].
  rewrite trimStart_spaces by exact Hws.
  assert (Hd : forall c, isDigit c = true -> isSpace c = false).
  { intros c Hc. unfold isDigit in Hc. apply andb_true_iff in Hc as [H1 H2].
    apply N.leb_le in H1, H2. unfold isSpace, char_in. simpl.
    repeat (apply orb_false_iff; split); try reflexivity;
      apply char_eqb_neq; lia. }
  assert (Hb : forall c, char_in (lit "-+*") c = true -> isSpace c = false).
  { intros c Hc. unfold char_in in Hc. simpl in Hc.
    repeat (apply orb_true_iff in Hc as [Hc|Hc]);
      try (apply char_eqb_eq in Hc; subst c; reflexivity); discriminate. }
  destruct Hm as [[c [-> Hc]] | [ds [-> [Hne Hds]]]].
  - simpl app. rewrite trimStart_id by (apply Hb; exact Hc). eauto.
  - destruct ds as [|d ds]; [contradiction|]. simpl in Hds.
    apply andb_true_iff in Hds as [Hd' _]. simpl app.
    rewrite trimStart_id by (apply Hd; exact Hd'). eauto.
Qed.

Lemma blank_not_list (l : str) : isTrimEmpty l = true -> isList l = false.
Proof.
  intros H. destruct (isList l) eqn:E; [|reflexivity].
  apply isList_head in E as [c [t [E _]]].
  rewrite isTrimEmpty_spaces in H. apply trimStart_nil in H. congruence.
Qed.

Lemma link_not_list (l : str) (t : str) :
  trim l = ch "[" :: t -> isList l = false.
Proof.
  intros H. destruct (isList l) eqn:E; [|reflexivity].
  apply isList_head in E as [c [t' [E Hc]]].
  apply trim_head in H as [t'' H]. rewrite H in E. injection E as <- _.
  destruct Hc as [Hc|Hc]; vm_compute in Hc; discriminate.
Qed.

Lemma link_not_blank (l : str) (t : str) :
  trim l = ch "[" :: t -> isTrimEmpty l = false.
Proof.
  intros H. destruct (isTrimEmpty l) eqn:E; [|reflexivity].
  apply isTrimEmpty_true in E. rewrite E in H. discriminate.
Qed.

(** Headings of level one and more start with [#]. *)
Lemma heading_hash (n : nat) (l : str) :
  startsWith l (hPrefixOf (S n)) = true -> exists t, l = ch "#" :: t.
Proof.
  intros H. apply startsWith_iff in H as [t ->]. simpl. eauto.
Qed.

Lemma blank_not_heading (n : nat) (l : str) :
  isTrimEmpty l = true -> startsWith l (hPrefixOf (S n)) = false.
Proof.
  intros H. destruct (startsWith l (hPrefixOf (S n))) eqn:E; [|reflexivity].
  apply heading_hash in E as [t ->]. rewrite isTrimEmpty_spaces in H.
  simpl in H. discriminate.
Qed.

Lemma link_not_heading (n : nat) (l : str) (t : str) :
  trim l = ch "[" :: t -> startsWith l (hPrefixOf (S n)) = false.
Proof.
  intros H. destruct (startsWith l (hPrefixOf (S n))) eqn:E; [|reflexivity].
  apply heading_hash in E as [t' ->].
  apply trim_head in H as [t'' H]. simpl in H. discriminate.
Qed.

Lemma list_not_heading (n : nat) (l : str) :
  isList l = true -> startsWith l (hPrefixOf (S n)) = false.
Proof.
  intros H. destruct (startsWith l (hPrefixOf (S n))) eqn:E; [|reflexivity].
  apply heading_hash in E as [t ->].
  apply isList_head in H as [c [t' [H Hc]]]. simpl in H. injection H as <- _.
  destruct Hc as [Hc|Hc]; vm_compute in Hc; discriminate.
Qed.

Lemma separator_not_heading (n : nat) :
  startsWith (lit " ") (hPrefixOf (S n)) = false.
Proof. reflexivity. Qed.

Lemma separator_blank : needSpace (lit " ") = false.
Proof. reflexivity. Qed.

End LineClasses.

(** ** Cleaning a heading twice changes nothing more *)

Section Cleaning.

Lemma trimStart_snoc (a : str) (c : char) :
  isSpace c = false -> trimStart (a ++ [c]) = trimStart a ++ [c].
Proof.
  intros Hc. induction a as [|d a IH]; simpl.
  - rewrite Hc. reflexivity.
  - destruct (isSpace d); [exact IH | reflexivity].
Qed.

Lemma trimEnd_cons (c : char) (t : str) :
  isSpace c = false -> trimEnd (c :: t) = c :: trimEnd t.
Proof.
  intros Hc. unfold trimEnd. simpl rev. rewrite trimStart_snoc by exact Hc.
  rewrite rev_app_distr. reflexivity.
Qed.

Lemma trimStart_idem (s : str) : trimStart (trimStart s) = trimStart s.
Proof.
  destruct (trimStart s) as [|c t] eqn:E; [reflexivity|].
  apply trimStart_id. eapply trimStart_head. exact E.
Qed.

Lemma trimEnd_idem (s : str) : trimEnd (trimEnd s) = trimEnd s.
Proof.
  unfold trimEnd. rewrite rev_involutive, trimStart_idem. reflexivity.
Qed.

Lemma trim_idem (s : str) : trim (trim s) = trim s.
Proof.
  unfold trim. destruct (trimStart s) as [|c t] eqn:E; [reflexivity|].
  pose proof (trimStart_head _ _ _ E) as Hc.
  rewrite (trimEnd_cons c t Hc). rewrite trimStart_id by exact Hc.
  rewrite <- (trimEnd_cons c t Hc). apply trimEnd_idem.
Qed.

Lemma trim_fixed (c d : char) (m : str) :
  isSpace c = false -> isSpace d = false ->
  trim (c :: m ++ [d]) = c :: m ++ [d].
Proof.
  intros Hc Hd. unfold trim. rewrite trimStart_id by exact Hc.
  unfold trimEnd. change (c :: m ++ [d]) with ((c :: m) ++ [d]).
  rewrite rev_app_distr. simpl. rewrite Hd. simpl.
  rewrite rev_app_distr, rev_involutive. reflexivity.
Qed.

Lemma trim_backlink (noteName clean : str) :
  trim (backlinkFor noteName clean) = backlinkFor noteName clean.
Proof.
  unfold backlinkFor.
  replace (lit "[[" ++ noteName ++ lit "#" ++ clean ++ lit "]]")
    with (ch "[" :: ([ch "["] ++ noteName ++ lit "#" ++ clean ++ [ch "]"]) ++ [ch "]"]).
  - apply trim_fixed; reflexivity.
  - change (lit "[[") with ([ch "["] ++ [ch "["]).
    change (lit "]]") with ([ch "]"] ++ [ch "]"]).
    rewrite <- !app_assoc. reflexivity.
Qed.

Lemma backlink_head (noteName clean : str) :
  exists t, backlinkFor noteName clean = ch "[" :: t.
Proof. unfold backlinkFor. simpl. eauto. Qed.

Lemma forallb_trimStart (p : char -> bool) (s : str) :
  forallb p s = true -> forallb p (trimStart s) = true.
Proof.
  induction s as [|c s IH]; simpl; [reflexivity|].
  intros H. destruct (isSpace c); [|exact H].
  apply andb_true_iff in H as [_ H]. auto.
Qed.

Lemma forallb_trim (p : char -> bool) (s : str) :
  forallb p s = true -> forallb p (trim s) = true.
Proof.
  intros H. unfold trim, trimEnd. rewrite forallb_rev.
  apply forallb_trimStart. rewrite forallb_rev.
  apply forallb_trimStart. exact H.
Qed.

Lemma forallb_drop (p : char -> bool) (n : nat) (s : str) :
  forallb p s = true -> forallb p (drop n s) = true.
Proof.
  revert n. induction s as [|c s IH]; intros [|n]; simpl; auto.
  intros H. apply andb_true_iff in H as [_ H]. auto.
Qed.

Lemma forallb_removeRuns (p cls : char -> bool) (s : str) :
  forallb p s = true -> forallb p (removeRuns cls s) = true.
Proof.
  induction s as [|c s IH]; simpl; [reflexivity|].
  intros H. apply andb_true_iff in H as [Hc H].
  destruct (cls c); simpl; [auto | rewrite Hc; auto].
Qed.

Lemma removeRuns_clear (cls : char -> bool) (s : str) :
  forallb (fun c => negb (cls c)) (removeRuns cls s) = true.
Proof.
  induction s as [|c s IH]; simpl; [reflexivity|].
  destruct (cls c) eqn:E; simpl; [exact IH | rewrite E; exact IH].
Qed.

Lemma removeRuns_id (cls : char -> bool) (s : str) :
  forallb (fun c => negb (cls c)) s = true -> removeRuns cls s = s.
Proof.
  induction s as [|c s IH]; simpl; [reflexivity|].
  intros H. apply andb_true_iff in H as [Hc H].
  apply negb_true_iff in Hc. rewrite Hc, IH by exact H. reflexivity.
Qed.

Lemma cleanHeading_idem (hPrefix l : str) :
  cleanHeadingOf hPrefix (hPrefix ++ cleanHeadingOf hPrefix l)
  = cleanHeadingOf hPrefix l.
Proof.
  unfold cleanHeadingOf at 1. unfold slice. rewrite drop_app_length.
  unfold cleanHeadingOf.
  rewrite removeRuns_id by (apply forallb_trim, removeRuns_clear).
  apply trim_idem.
Qed.

Lemma cleanHeading_noLineTerminator (hPrefix l : str) :
  noLineTerminator l = true -> noLineTerminator (cleanHeadingOf hPrefix l) = true.
Proof.
  intros H. unfold cleanHeadingOf, noLineTerminator, slice.
  apply forallb_trim, forallb_removeRuns, forallb_drop. exact H.
Qed.

Lemma backlink_shape (noteName clean : str) :
  noLineTerminator noteName = true -> noLineTerminator clean = true ->
  test_whole wikiLinkRe (backlinkFor noteName clean) = true.
Proof.
  intros Hn Hc. apply wikiLink_test. exists noteName, clean. auto.
Qed.

Lemma backlink_noLineTerminator (noteName clean : str) :
  noLineTerminator noteName = true -> noLineTerminator clean = true ->
  noLineTerminator (backlinkFor noteName clean) = true.
Proof.
  intros Hn Hc. unfold backlinkFor, noLineTerminator in *.
  rewrite !forallb_app, Hn, Hc. reflexivity.
Qed.

End Cleaning.

(** ** The heading rounds settle every heading, and settled headings stay *)

Arguments lit : simpl never.
Arguments ch : simpl never.
Arguments slice : simpl never.
Arguments hPrefixOf : simpl never.
Arguments cleanHeadingOf : simpl never.
Arguments backlinkFor : simpl never.

Section HeadingsSettle.

Variable n : nat.
Variable noteName : str.
Hypothesis noteName_plain : noLineTerminator noteName = true.

Local Abbreviation hPrefix := (hPrefixOf (S n)).

Lemma headingRounds_skip (pre : list str) :
  Forall (fun x => startsWith x hPrefix = false) pre ->
  forall fuel rest c out c',
    headingRounds fuel hPrefix noteName (pre ++ rest) c = Some (out, c') ->
    exists out2, out = pre ++ out2 /\
                 headingRounds fuel hPrefix noteName rest c = Some (out2, c').
Proof.
  induction 1 as [|x pre Hx _ IH]; intros fuel rest c out c' H.
  - exists out. auto.
  - destruct fuel as [|fuel]; [discriminate|]. simpl in H.
    unfold headingRound in H. rewrite Hx in H. simpl in H.
    destruct (headingRounds fuel hPrefix noteName (pre ++ rest) c)
      as [[o c'']|] eqn:E; [|discriminate].
    injection H as <- <-. apply IH in E as [out2 [-> E]].
    exists out2. split; [reflexivity|].
    eapply headingRounds_more; [exact E | lia].
Qed.

Lemma placeBacklink_shape (bl : str) (tl : list str) (c : bool) :
  trim bl = bl ->
  exists blanks y r,
    fst (placeBacklink bl tl c) = blanks ++ y :: r /\
    Forall (fun x => isTrimEmpty x = true) blanks /\
    trim y = bl.
Proof.
  intros Hbl. unfold placeBacklink. set (k := countWhile isTrimEmpty tl).
  pose proof (countWhile_take isTrimEmpty tl) as Hb. fold k in Hb.
  destruct (tl !! k) as [x|] eqn:Hk.
  - destruct (negb (test_whole wikiLinkRe (trim x))).
    + exists (take k tl), bl, (drop k tl). auto.
    + destruct (str_eqb (trim x) bl) eqn:E; simpl negb; cbv iota.
      * apply str_eqb_eq in E. exists (take k tl), x, (drop (S k) tl).
        simpl fst. rewrite take_drop_middle by exact Hk. auto.
      * exists (take k tl), bl, (drop (S k) tl). simpl fst.
        rewrite insert_take_drop by (apply lookup_lt_Some in Hk; exact Hk). auto.
  - exists tl, bl, []. simpl fst. split; [reflexivity|]. split; [|exact Hbl].
    apply lookup_ge_None in Hk. rewrite take_ge in Hb by exact Hk. exact Hb.
Qed.

Lemma placeBacklink_Forall (P : str -> Prop) (bl : str) (tl : list str) (c : bool) :
  P bl -> Forall P tl -> Forall P (fst (placeBacklink bl tl c)).
Proof.
  intros Hbl Htl. unfold placeBacklink. set (k := countWhile isTrimEmpty tl).
  destruct (tl !! k) as [x|] eqn:Hk.
  - destruct (negb (test_whole wikiLinkRe (trim x))); simpl fst.
    + apply Forall_app. split; [apply Forall_take; exact Htl|].
      constructor; [exact Hbl | apply Forall_drop; exact Htl].
    + destruct (negb (str_eqb (trim x) bl)); simpl fst; [|exact Htl].
      apply Forall_insert; assumption.
  - simpl fst. apply Forall_app. split; [exact Htl|]. constructor; [exact Hbl | constructor].
Qed.

Lemma headingsSettled_suffix (a b : list str) :
  headingsSettled hPrefix noteName (a ++ b) -> headingsSettled hPrefix noteName b.
Proof. induction a as [|x a IH]; simpl; [auto | intros [_ H]; auto]. Qed.

Lemma headingsSettled_drop (k : nat) (l : list str) :
  headingsSettled hPrefix noteName l -> headingsSettled hPrefix noteName (drop k l).
Proof.
  intros H. rewrite <- (take_drop k l) in H.
  eapply headingsSettled_suffix. exact H.
Qed.

Lemma headingsSettled_prepend (pre rest : list str) :
  Forall (fun x => startsWith x hPrefix = false) pre ->
  headingsSettled hPrefix noteName rest ->
  headingsSettled hPrefix noteName (pre ++ rest).
Proof.
  induction 1 as [|x pre Hx _ IH]; intros H; simpl; [exact H|].
  split; [|auto]. intros Hh. congruence.
Qed.

(** The slot of a settled heading, seen in the following lines. *)
Lemma slot_found (blanks : list str) (y : str) (r : list str) :
  Forall (fun x => isTrimEmpty x = true) blanks ->
  isTrimEmpty y = false ->
  (blanks ++ y :: r) !! countWhile isTrimEmpty (blanks ++ y :: r) = Some y.
Proof.
  intros Hb Hy. rewrite countWhile_app by exact Hb. simpl. rewrite Hy.
  replace (length blanks + 0) with (length blanks) by lia.
  apply list_lookup_middle. reflexivity.
Qed.

Lemma headingRounds_settle (fuel : nat) :
  forall rest c out c',
    Forall (fun x => noLineTerminator x = true) rest ->
    headingRounds fuel hPrefix noteName rest c = Some (out, c') ->
    headingsSettled hPrefix noteName out.
Proof.
  induction fuel as [|fuel IH]; intros rest c out c' Hplain H; [discriminate|].
  cbn [headingRounds] in H. destruct rest as [|l tl]; [injection H as <- _; exact I|].
  pose proof (Forall_inv Hplain) as Hl. pose proof (Forall_inv_tail Hplain) as Htl.
  unfold headingRound in H. destruct (startsWith l hPrefix) eqn:Eh;
    [change (negb true) with false in H | change (negb false) with true in H];
    cbv iota in H.
  - set (clean := cleanHeadingOf hPrefix l) in *.
    set (bl := backlinkFor noteName clean) in *.
    assert (Hclean : noLineTerminator clean = true)
      by (apply cleanHeading_noLineTerminator; exact Hl).
    assert (Hout : exists c1 tl' c2 o,
               placeBacklink bl tl c1 = (tl', c2) /\
               headingRounds fuel hPrefix noteName tl' c2 = Some (o, c') /\
               out = (hPrefix ++ clean) :: o).
    { destruct (negb (str_eqb (slice (length hPrefix) l) clean)) eqn:Et.
      - destruct (placeBacklink bl tl true) as [tl' c2] eqn:Ep.
        cbv beta iota zeta in H.
        destruct (headingRounds fuel hPrefix noteName tl' c2) as [[o c'']|] eqn:Er;
          [|discriminate].
        injection H as <- <-. exists true, tl', c2, o. auto.
      - destruct (placeBacklink bl tl c) as [tl' c2] eqn:Ep.
        cbv beta iota zeta in H.
        destruct (headingRounds fuel hPrefix noteName tl' c2) as [[o c'']|] eqn:Er;
          [|discriminate].
        injection H as <- <-. exists c, tl', c2, o. split; [exact Ep|].
        split; [exact Er|]. f_equal.
        apply negb_false_iff, str_eqb_eq in Et. rewrite <- Et.
        apply startsWith_slice. exact Eh. }
    destruct Hout as [c1 [tl' [c2 [o [Ep [Er ->]]]]]].
    assert (Htl' : Forall (fun x => noLineTerminator x = true) tl').
    { replace tl' with (fst (placeBacklink bl tl c1)) by (rewrite Ep; reflexivity).
      apply placeBacklink_Forall; [|exact Htl].
      apply backlink_noLineTerminator; assumption. }
    split; [|eapply IH; eassumption].
    assert (Hidem : cleanHeadingOf hPrefix (hPrefix ++ clean) = clean)
      by apply cleanHeading_idem.
    unfold headingSettled. intros _. rewrite Hidem. split.
    + unfold slice. rewrite drop_app_length. reflexivity.
    + destruct (placeBacklink_shape bl tl c1 (trim_backlink _ _))
        as [blanks [y [r [Es [Hb Hy]]]]].
      rewrite Ep in Es. simpl in Es. subst tl'.
      destruct (backlink_head noteName clean) as [t Ht]. fold bl in Ht.
      assert (Hyb : isTrimEmpty y = false)
        by (apply (link_not_blank y t); congruence).
      replace (blanks ++ y :: r) with ((blanks ++ [y]) ++ r) in Er
        by (rewrite <- app_assoc; reflexivity).
      apply headingRounds_skip in Er as [out2 [-> _]].
      * exists y. rewrite <- app_assoc. split; [apply slot_found; assumption|].
        rewrite Hy. split; [apply backlink_shape; assumption | reflexivity].
      * apply Forall_app. split.
        -- eapply Forall_impl; [|exact Hb]. intros x Hx. apply blank_not_heading. exact Hx.
        -- constructor; [|constructor].
           apply (link_not_heading n y t). congruence.
  - cbv beta iota zeta in H.
    destruct (headingRounds fuel hPrefix noteName tl c) as [[o c'']|] eqn:Er;
      [|discriminate].
    injection H as <- <-. split; [|eapply IH; eassumption].
    intros Hh. congruence.
Qed.

End HeadingsSettle.

(** Settled headings are a fixed point of the rounds, at any level. *)
Lemma headingRounds_settled (hPrefix noteName : str) (rest : list str) :
  headingsSettled hPrefix noteName rest ->
  forall fuel c, length rest < fuel ->
    headingRounds fuel hPrefix noteName rest c = Some (rest, c).
Proof.
  induction rest as [|l tl IH]; intros H fuel c Hf.
  - destruct fuel; [lia | reflexivity].
  - destruct fuel as [|fuel]; [lia|]. simpl in *. destruct H as [Hl Htl].
    assert (E : headingRound hPrefix noteName l tl c = (l, tl, c)).
    { unfold headingRound. destruct (startsWith l hPrefix) eqn:Eh; [|reflexivity].
      destruct (Hl Eh) as [Hc [x [Hx [Hw Ht]]]].
      simpl negb. cbv iota. rewrite Hc, str_eqb_refl. simpl negb. cbv iota.
      unfold placeBacklink. rewrite Hx, Hw, Ht, str_eqb_refl. reflexivity. }
    rewrite E, IH by (assumption || lia). reflexivity.
Qed.

(** ** The list rounds tidy every block, and tidy lines stay *)

Section ListsTidy.

Lemma tidyRounds_skip (pre : list str) :
  Forall (fun x => isList x = false) pre ->
  forall fuel rest c out c',
    tidyRounds fuel (pre ++ rest) c = Some (out, c') ->
    exists out2, out = pre ++ out2 /\ tidyRounds fuel rest c = Some (out2, c').
Proof.
  induction 1 as [|x pre Hx _ IH]; intros fuel rest c out c' H.
  - exists out. auto.
  - destruct fuel as [|fuel]; [discriminate|]. cbn [tidyRounds app] in H.
    unfold tidyRound in H. rewrite Hx in H.
    change (negb false) with true in H. cbv beta iota zeta in H.
    destruct (tidyRounds fuel (pre ++ rest) c) as [[o c'']|] eqn:E; [|discriminate].
    injection H as <- <-. apply IH in E as [out2 [-> E]].
    exists out2. split; [reflexivity|].
    eapply tidyRounds_more; [exact E | lia].
Qed.

Lemma filter_keep_Forall (P : str -> Prop) (l : list str) :
  Forall P l ->
  Forall (fun x => P x /\ isEmptyItem x = false)
         (filter (fun x => keepItem x = true) l).
Proof.
  induction 1 as [|x l Hx _ IH]; [constructor|].
  rewrite filter_cons. destruct (decide (keepItem x = true)) as [Hk|Hk]; [|exact IH].
  constructor; [|exact IH]. split; [exact Hx|].
  unfold keepItem in Hk. apply negb_true_iff in Hk. exact Hk.
Qed.

Lemma filter_keep_all (l : list str) :
  Forall (fun x => isEmptyItem x = false) l ->
  filter (fun x => keepItem x = true) l = l.
Proof.
  induction 1 as [|x l Hx _ IH]; [reflexivity|].
  rewrite filter_cons, decide_True by (unfold keepItem; rewrite Hx; reflexivity).
  rewrite IH. reflexivity.
Qed.

Lemma listsTidy_items (l : list str) :
  listsTidy l -> Forall (fun x => isEmptyItem x = false) l.
Proof.
  induction l as [|x l IH]; simpl; [constructor|].
  intros [Hx [_ Hl]]. constructor; auto.
Qed.

Lemma listsTidy_suffix (a b : list str) : listsTidy (a ++ b) -> listsTidy b.
Proof. induction a as [|x a IH]; simpl; [auto | intros [_ [_ H]]; auto]. Qed.

Lemma listsTidy_drop (k : nat) (l : list str) : listsTidy l -> listsTidy (drop k l).
Proof.
  intros H. rewrite <- (take_drop k l) in H. eapply listsTidy_suffix. exact H.
Qed.

Lemma separatorFor_list (x : str) (l : list str) :
  isList x = true -> separatorFor (x :: l) = [].
Proof.
  intros H. unfold separatorFor, needSpace. rewrite H.
  rewrite andb_false_r. reflexivity.
Qed.

Lemma listsTidy_block (kept o : list str) :
  Forall (fun x => isList x = true /\ isEmptyItem x = false) kept ->
  listsTidy o -> separatorFor o = [] -> listsTidy (kept ++ o).
Proof.
  induction 1 as [|x kept [Hx He] Hk IH]; intros Ho Hs; [exact Ho|].
  cbn [app listsTidy]. split; [exact He|]. split; [|auto].
  intros _. destruct Hk as [|y kept [Hy _] _]; [exact Hs|].
  apply separatorFor_list. exact Hy.
Qed.

Lemma listsTidy_after_block (tl : list str) :
  forall l, listsTidy (l :: tl) -> isList l = true ->
            separatorFor (drop (countWhile isList tl) tl) = [].
Proof.
  induction tl as [|x tl IH]; intros l H Hl; [reflexivity|].
  cbn [listsTidy] in H. destruct H as [_ [Hs H]].
  cbn [countWhile]. destruct (isList x) eqn:Ex.
  - cbn [drop]. apply (IH x); [|exact Ex]. cbn [listsTidy]. rewrite Ex. exact H.
  - apply Hs. exact Hl.
Qed.

Lemma tidyRounds_tidy (fuel : nat) :
  forall rest c out c',
    tidyRounds fuel rest c = Some (out, c') -> listsTidy out.
Proof.
  induction fuel as [|fuel IH]; intros rest c out c' H; [discriminate|].
  cbn [tidyRounds] in H. destruct rest as [|l tl]; [injection H as <- _; exact I|].
  unfold tidyRound in H. destruct (isList l) eqn:El;
    [change (negb true) with false in H | change (negb false) with true in H];
    cbv beta iota zeta in H.
  - set (k := countWhile isList tl) in *.
    set (kept := filter (fun x => keepItem x = true) (l :: take k tl)) in *.
    set (c1 := c || _ || _) in H.
    destruct (tidyRounds fuel (separatorFor (drop k tl) ++ drop k tl) c1)
      as [[o c'']|] eqn:E; [|discriminate].
    injection H as <- <-. apply listsTidy_block.
    + apply filter_keep_Forall. constructor; [exact El | apply countWhile_take].
    + eapply IH. exact E.
    + destruct (drop k tl) as [|nx r] eqn:Ed.
      * cbn [separatorFor app] in E. destruct fuel; [discriminate|].
        injection E as <- _. reflexivity.
      * pose proof (countWhile_drop _ _ _ _ Ed) as Hnx.
        cbn [separatorFor] in E. destruct (needSpace nx) eqn:En.
        -- apply (tidyRounds_skip [lit " "]) in E as [o2 [-> _]];
             [|constructor; [apply separator_not_list | constructor]].
           cbn [app separatorFor]. rewrite separator_blank. reflexivity.
        -- apply (tidyRounds_skip [nx]) in E as [o2 [-> _]];
             [|constructor; [exact Hnx | constructor]].
           cbn [app separatorFor]. rewrite En. reflexivity.
  - destruct (tidyRounds fuel tl c) as [[o c'']|] eqn:E; [|discriminate].
    injection H as <- <-. cbn [app listsTidy]. split; [|split].
    + destruct (isEmptyItem l) eqn:Ee; [|reflexivity].
      apply isEmptyItem_isList in Ee. congruence.
    + intros Hl. congruence.
    + eapply IH. exact E.
Qed.

Lemma tidyRounds_tidied (fuel : nat) :
  forall rest c, listsTidy rest -> length rest < fuel ->
                 tidyRounds fuel rest c = Some (rest, c).
Proof.
  induction fuel as [|fuel IH]; intros rest c H Hf; [lia|].
  cbn [tidyRounds]. destruct rest as [|l tl]; [reflexivity|].
  cbn [length] in Hf.
  assert (E : tidyRound l tl c
              = (if isList l then l :: take (countWhile isList tl) tl else [l],
                 if isList l then drop (countWhile isList tl) tl else tl, c)).
  { unfold tidyRound. destruct (isList l) eqn:El; [|reflexivity].
    change (negb true) with false. cbv iota.
    rewrite (listsTidy_after_block tl l H El).
    rewrite filter_keep_all.
    - rewrite Nat.eqb_refl. cbn [negb length Nat.eqb app]. rewrite !orb_false_r.
      reflexivity.
    - apply listsTidy_items in H.
      constructor; [exact (Forall_inv H)|].
      apply Forall_take. exact (Forall_inv_tail H). }
  rewrite E. destruct (isList l).
  - rewrite IH.
    + cbn [app]. rewrite take_drop. reflexivity.
    + apply listsTidy_drop. cbn [listsTidy] in H. apply H.
    + rewrite length_drop. lia.
  - rewrite IH; [reflexivity | cbn [listsTidy] in H; apply H | lia].
Qed.

End ListsTidy.

(** The list rounds leave settled headings settled. *)
Section TidyKeepsHeadings.

Variable n : nat.
Variable noteName : str.

Local Abbreviation hPrefix := (hPrefixOf (S n)).

Lemma tidyRounds_keeps_settled (fuel : nat) :
  forall rest c out c',
    headingsSettled hPrefix noteName rest ->
    tidyRounds fuel rest c = Some (out, c') ->
    headingsSettled hPrefix noteName out.
Proof.
  induction fuel as [|fuel IH]; intros rest c out c' Hs H; [discriminate|].
  cbn [tidyRounds] in H. destruct rest as [|l tl]; [injection H as <- _; exact I|].
  cbn [headingsSettled] in Hs. destruct Hs as [Hl Htl].
  unfold tidyRound in H. destruct (isList l) eqn:El;
    [change (negb true) with false in H | change (negb false) with true in H];
    cbv beta iota zeta in H.
  - set (k := countWhile isList tl) in *.
    set (c1 := c || _ || _) in H.
    destruct (tidyRounds fuel (separatorFor (drop k tl) ++ drop k tl) c1)
      as [[o c'']|] eqn:E; [|discriminate].
    injection H as <- <-. apply headingsSettled_prepend.
    + assert (Hb : Forall (fun x => isList x = true) (l :: take k tl))
        by (constructor; [exact El | apply countWhile_take]).
      apply filter_keep_Forall in Hb.
      eapply Forall_impl; [|exact Hb]. intros x [Hx _].
      apply list_not_heading. exact Hx.
    + eapply IH; [|exact E]. apply headingsSettled_prepend.
      * unfold separatorFor. destruct (drop k tl) as [|nx r]; [constructor|].
        destruct (needSpace nx); [|constructor].
        constructor; [apply separator_not_heading | constructor].
      * apply headingsSettled_drop. exact Htl.
  - destruct (tidyRounds fuel tl c) as [[o c'']|] eqn:E; [|discriminate].
    injection H as <- <-. cbn [app headingsSettled]. split; [|eapply IH; eassumption].
    intros Hh. destruct (Hl Hh) as [Hc [x [Hx [Hw Ht]]]]. split; [exact Hc|].
    destruct (backlink_head noteName (cleanHeadingOf hPrefix l)) as [t Hbl].
    rewrite Hbl in Ht.
    pose proof (countWhile_take isTrimEmpty tl) as Hb.
    rewrite <- (take_drop_middle tl _ x Hx) in E.
    set (blanks := take (countWhile isTrimEmpty tl) tl) in *.
    replace (blanks ++ x :: drop (S (countWhile isTrimEmpty tl)) tl)
      with ((blanks ++ [x]) ++ drop (S (countWhile isTrimEmpty tl)) tl) in E
      by (rewrite <- app_assoc; reflexivity).
    apply tidyRounds_skip in E as [o2 [-> _]].
    + exists x. rewrite <- app_assoc. split.
      * apply slot_found; [exact Hb | apply (link_not_blank x t); exact Ht].
      * split; [exact Hw | rewrite Ht, Hbl; reflexivity].
    + apply Forall_app. split.
      * eapply Forall_impl; [|exact Hb]. intros y Hy. apply blank_not_list. exact Hy.
      * constructor; [apply (link_not_list x t); exact Ht | constructor].
Qed.

End TidyKeepsHeadings.

(** ** The stages of the pipeline and their fixed points *)

Section Stages.

Lemma drop_after_frame (lines out : list str) (k : nat) :
  findYamlEnd lines <= k ->
  drop k (take (findYamlEnd lines) lines ++ out) = drop (k - findYamlEnd lines) out.
Proof.
  intros Hk. rewrite drop_app_ge; rewrite length_take_le by apply findYamlEnd_le;
    [reflexivity | exact Hk].
Qed.

(** *** Headings *)

Lemma rewriteHeadings_settles (this : AnkiHelperPlugin) (file : TFile)
    (d h : list str) (c : bool) :
  1 <= headingLevel (settings this) ->
  noLineTerminator (basename file) = true ->
  Forall (fun l => noLineTerminator l = true) d ->
  rewriteHeadingsAndCollectLists this d file = Some (h, c) ->
  headingsSettled (hPrefixOf (headingLevel (settings this))) (basename file)
    (drop (findYamlEnd h) h).
Proof.
  intros Hlevel Hname Hd H.
  destruct (rewriteHeadings_total this d file) as [out [c0 [E E']]].
  rewrite E' in H. injection H as <- <-.
  destruct (headingLevel (settings this)) as [|n]; [lia|].
  rewrite drop_after_frame by apply findYamlEnd_frame.
  apply headingsSettled_drop.
  eapply headingRounds_settle; [exact Hname | | exact E].
  apply Forall_drop. exact Hd.
Qed.

Lemma rewriteHeadings_settled (this : AnkiHelperPlugin) (file : TFile)
    (x : list str) :
  headingsSettled (hPrefixOf (headingLevel (settings this))) (basename file)
    (drop (findYamlEnd x) x) ->
  rewriteHeadingsAndCollectLists this x file = Some (x, false).
Proof.
  intros H. rewrite rewriteHeadings_rounds.
  rewrite (headingRounds_settled _ _ _ H) by (rewrite length_drop; lia).
  rewrite take_drop. reflexivity.
Qed.

(** *** Lists *)

Lemma tidyLists_tidies (d t : list str) (c : bool) :
  tidyLists d = Some (t, c) -> listsTidy (drop (findYamlEnd t) t).
Proof.
  intros H. destruct (tidyLists_total d) as [out [c0 [E E']]].
  rewrite E' in H. injection H as <- <-.
  rewrite drop_after_frame by apply findYamlEnd_frame.
  apply listsTidy_drop. eapply tidyRounds_tidy. exact E.
Qed.

Lemma tidyLists_tidied (x : list str) :
  listsTidy (drop (findYamlEnd x) x) -> tidyLists x = Some (x, false).
Proof.
  intros H. rewrite tidyLists_rounds.
  rewrite (tidyRounds_tidied _ _ _ H) by (rewrite length_drop; lia).
  rewrite take_drop. reflexivity.
Qed.

Lemma tidyLists_keeps_settled (this : AnkiHelperPlugin) (file : TFile)
    (d t : list str) (c : bool) :
  1 <= headingLevel (settings this) ->
  headingsSettled (hPrefixOf (headingLevel (settings this))) (basename file)
    (drop (findYamlEnd d) d) ->
  tidyLists d = Some (t, c) ->
  headingsSettled (hPrefixOf (headingLevel (settings this))) (basename file)
    (drop (findYamlEnd t) t).
Proof.
  intros Hlevel Hs H. destruct (tidyLists_total d) as [out [c0 [E E']]].
  rewrite E' in H. injection H as <- <-.
  destruct (headingLevel (settings this)) as [|n]; [lia|].
  rewrite drop_after_frame by apply findYamlEnd_frame.
  apply headingsSettled_drop.
  eapply tidyRounds_keeps_settled; [exact Hs | exact E].
Qed.

(** *** The deck header *)

Lemma ensureTargetDeck_present (this : AnkiHelperPlugin) (file : TFile)
    (x : list str) :
  existsb hasMarker x = true -> ensureTargetDeck this x file = (x, false).
Proof.
  intros H. unfold ensureTargetDeck.
  change (existsb (fun l => includes l marker) x) with (existsb hasMarker x).
  rewrite H. reflexivity.
Qed.

Lemma noLineTerminator_app (a b : str) :
  noLineTerminator (a ++ b) = noLineTerminator a && noLineTerminator b.
Proof. apply forallb_app. Qed.

Lemma getSubstitution_plain_text (matched before after : str) :
  noLineTerminator matched = true -> noLineTerminator before = true ->
  noLineTerminator after = true ->
  forall k repl, length repl <= k -> noLineTerminator repl = true ->
    noLineTerminator (getSubstitution matched before after repl) = true.
Proof.
  intros Hm Hb Ha. induction k as [|k IH]; intros repl Hk Hr.
  - destruct repl; [reflexivity | simpl in Hk; lia].
  - destruct repl as [|d t]; [reflexivity|].
    cbn [getSubstitution]. cbn [length] in Hk.
    change (noLineTerminator (d :: t)) with
      (negb (isLineTerminator d) && noLineTerminator t) in Hr.
    apply andb_true_iff in Hr as [Hd Ht].
    assert (Hcons : forall r, noLineTerminator r = true ->
                              noLineTerminator (d :: r) = true).
    { intros r Hr. change (noLineTerminator (d :: r)) with
        (negb (isLineTerminator d) && noLineTerminator r).
      rewrite Hd, Hr. reflexivity. }
    destruct (char_eqb d (ch "$")).
    + destruct t as [|c r]; [apply Hcons; reflexivity|].
      cbn [length] in Hk.
      change (noLineTerminator (c :: r)) with
        (negb (isLineTerminator c) && noLineTerminator r) in Ht.
      apply andb_true_iff in Ht as [Hc Hr].
      assert (IHr : noLineTerminator (getSubstitution matched before after r) = true)
        by (apply IH; [lia | exact Hr]).
      destruct (char_eqb c (ch "$")).
      * change (ch "$" :: getSubstitution matched before after r)
          with ([ch "$"] ++ getSubstitution matched before after r).
        rewrite noLineTerminator_app, IHr. reflexivity.
      * destruct (char_eqb c (ch "&"));
          [rewrite noLineTerminator_app, Hm, IHr; reflexivity|].
        destruct (char_eqb c (ch "`"));
          [rewrite noLineTerminator_app, Hb, IHr; reflexivity|].
        destruct (char_eqb c (ch "'"));
          [rewrite noLineTerminator_app, Ha, IHr; reflexivity|].
        apply Hcons. apply IH; [cbn [length]; lia|].
        change (noLineTerminator (c :: r)) with
          (negb (isLineTerminator c) && noLineTerminator r).
        rewrite Hc, Hr. reflexivity.
    + apply Hcons. apply IH; [lia | exact Ht].
Qed.

Lemma replaceAll_from_plain_text (needle repl : str) :
  noLineTerminator needle = true -> noLineTerminator repl = true ->
  forall s skip before,
    noLineTerminator before = true -> noLineTerminator s = true ->
    noLineTerminator (replaceAll_from needle repl skip before s) = true.
Proof.
  intros Hn Hr. induction s as [|c s IH]; intros skip before Hb Hs; [reflexivity|].
  change (noLineTerminator (c :: s)) with
    (negb (isLineTerminator c) && noLineTerminator s) in Hs.
  apply andb_true_iff in Hs as [Hc Hs'].
  assert (Hb' : noLineTerminator (c :: before) = true).
  { change (noLineTerminator (c :: before)) with
      (negb (isLineTerminator c) && noLineTerminator before).
    rewrite Hc, Hb. reflexivity. }
  cbn [replaceAll_from]. destruct skip as [|k]; [|apply IH; assumption].
  destruct (startsWith (c :: s) needle).
  - rewrite noLineTerminator_app. rewrite IH by assumption. rewrite andb_true_r.
    apply (getSubstitution_plain_text _ _ _ Hn) with (k := length repl);
      [| | lia | exact Hr].
    + unfold noLineTerminator. rewrite forallb_rev. exact Hb.
    + apply forallb_drop.
      change (forallb (fun c0 => negb (isLineTerminator c0)) (c :: s))
        with (negb (isLineTerminator c) && noLineTerminator s).
      rewrite Hc, Hs'. reflexivity.
  - change (noLineTerminator (c :: replaceAll_from needle repl 0 (c :: before) s))
      with (negb (isLineTerminator c)
            && noLineTerminator (replaceAll_from needle repl 0 (c :: before) s)).
    rewrite Hc, IH by assumption. reflexivity.
Qed.

Lemma ensureTargetDeck_plain (this : AnkiHelperPlugin) (file : TFile)
    (d : list str) :
  noLineTerminator (basename file) = true ->
  noLineTerminator (targetDeckTemplate (settings this)) = true ->
  Forall (fun l => noLineTerminator l = true) d ->
  Forall (fun l => noLineTerminator l = true) (fst (ensureTargetDeck this d file)).
Proof.
  intros Hb Ht Hd.
  destruct (existsb (fun l => includes l marker) d) eqn:E.
  - unfold ensureTargetDeck. rewrite E. exact Hd.
  - rewrite ensureTargetDeck_inserts by exact E. cbn [fst].
    apply Forall_app. split; [apply Forall_take; exact Hd|].
    apply Forall_app. split.
    + destruct (_ && _); repeat constructor.
    + apply Forall_app. split; [|apply Forall_drop; exact Hd].
      repeat constructor.
      apply replaceAll_from_plain_text; [reflexivity | exact Hb | reflexivity | exact Ht].
Qed.

End Stages.

(** A document on which no enabled stage has anything to do. *)
Lemma pipeline_fixed (this : AnkiHelperPlugin) (file : TFile) (x : list str) :
  (enableTargetDeck (settings this) = true -> existsb hasMarker x = true) ->
  (enableHeadingOps (settings this) = true ->
   headingsSettled (hPrefixOf (headingLevel (settings this))) (basename file)
     (drop (findYamlEnd x) x)) ->
  (enableListTidy (settings this) = true -> listsTidy (drop (findYamlEnd x) x)) ->
  pipeline this file x = Some (x, false).
Proof.
  intros Hd Hh Hl. unfold pipeline.
  destruct (enableTargetDeck (settings this)).
  - rewrite ensureTargetDeck_present by (apply Hd; reflexivity).
    destruct (enableHeadingOps (settings this)).
    + rewrite rewriteHeadings_settled by (apply Hh; reflexivity).
      destruct (enableListTidy (settings this)); [|reflexivity].
      rewrite tidyLists_tidied by (apply Hl; reflexivity). reflexivity.
    + destruct (enableListTidy (settings this)); [|reflexivity].
      rewrite tidyLists_tidied by (apply Hl; reflexivity). reflexivity.
  - destruct (enableHeadingOps (settings this)).
    + rewrite rewriteHeadings_settled by (apply Hh; reflexivity).
      destruct (enableListTidy (settings this)); [|reflexivity].
      rewrite tidyLists_tidied by (apply Hl; reflexivity). reflexivity.
    + destruct (enableListTidy (settings this)); [|reflexivity].
      rewrite tidyLists_tidied by (apply Hl; reflexivity). reflexivity.
Qed.

Local Ltac stages_done :=
  repeat split;
  try (do 2 f_equal;
       repeat match goal with c : bool |- _ => destruct c end; reflexivity).

(** The three guarded calls always return. *)
Lemma pipeline_stages (this : AnkiHelperPlugin) (file : TFile) (l0 : list str) :
  exists l1 c1 l2 c2 l3 c3,
    (if enableTargetDeck (settings this)
     then ensureTargetDeck this l0 file = (l1, c1)
     else (l1, c1) = (l0, false)) /\
    (if enableHeadingOps (settings this)
     then rewriteHeadingsAndCollectLists this l1 file = Some (l2, c2)
     else (l2, c2) = (l1, false)) /\
    (if enableListTidy (settings this)
     then tidyLists l2 = Some (l3, c3)
     else (l3, c3) = (l2, false)) /\
    pipeline this file l0 = Some (l3, c1 || c2 || c3).
Proof.
  unfold pipeline.
  destruct (enableTargetDeck (settings this)).
  - destruct (ensureTargetDeck this l0 file) as [l1 c1] eqn:E1.
    exists l1, c1.
    destruct (enableHeadingOps (settings this)).
    + destruct (rewriteHeadings_total this l1 file) as [o2 [c2 [_ E2]]].
      rewrite E2. exists (take (findYamlEnd l1) l1 ++ o2), c2.
      destruct (enableListTidy (settings this)).
      * destruct (tidyLists_total (take (findYamlEnd l1) l1 ++ o2)) as [o3 [c3 [_ E3]]].
        rewrite E3. eexists _, c3. stages_done.
      * eexists _, false. stages_done.
    + exists l1, false.
      destruct (enableListTidy (settings this)).
      * destruct (tidyLists_total l1) as [o3 [c3 [_ E3]]].
        rewrite E3. eexists _, c3. stages_done.
      * eexists _, false. stages_done.
  - exists l0, false.
    destruct (enableHeadingOps (settings this)).
    + destruct (rewriteHeadings_total this l0 file) as [o2 [c2 [_ E2]]].
      rewrite E2. exists (take (findYamlEnd l0) l0 ++ o2), c2.
      destruct (enableListTidy (settings this)).
      * destruct (tidyLists_total (take (findYamlEnd l0) l0 ++ o2)) as [o3 [c3 [_ E3]]].
        rewrite E3. eexists _, c3. stages_done.
      * eexists _, false. stages_done.
    + exists l0, false.
      destruct (enableListTidy (settings this)).
      * destruct (tidyLists_total l0) as [o3 [c3 [_ E3]]].
        rewrite E3. eexists _, c3. stages_done.
      * eexists _, false. stages_done.
Qed.

(** ** A marker line of a first run stays *)

Section MarkerStays.

Lemma placeBacklink_keeps (bl x : str) (tl : list str) (c : bool) :
  In x tl -> test_whole wikiLinkRe (trim x) = false ->
  In x (fst (placeBacklink bl tl c)).
Proof.
  intros Hx Hw. unfold placeBacklink. set (k := countWhile isTrimEmpty tl).
  destruct (tl !! k) as [y|] eqn:Hk.
  - destruct (test_whole wikiLinkRe (trim y)) eqn:Ey; cbn [negb fst].
    + destruct (negb (str_eqb (trim y) bl)); cbn [fst]; [|exact Hx].
      rewrite insert_take_drop by (apply lookup_lt_Some in Hk; exact Hk).
      rewrite <- (take_drop_middle tl k y Hk) in Hx.
      apply in_app_or in Hx as [Hx|Hx]; apply in_or_app; [left; exact Hx|].
      right. destruct Hx as [Hx|Hx]; [congruence | right; exact Hx].
    + rewrite <- (take_drop k tl) in Hx.
      apply in_app_or in Hx as [Hx|Hx]; apply in_or_app; [left | right; right];
        exact Hx.
  - cbn [fst]. apply in_or_app. left. exact Hx.
Qed.

Lemma headingRounds_keeps (hPrefix noteName x : str) (fuel : nat) :
  startsWith x hPrefix = false -> test_whole wikiLinkRe (trim x) = false ->
  forall rest c out c',
    In x rest ->
    headingRounds fuel hPrefix noteName rest c = Some (out, c') -> In x out.
Proof.
  intros Hh Hw. induction fuel as [|fuel IH]; intros rest c out c' Hx H;
    [discriminate|].
  cbn [headingRounds] in H. destruct rest as [|l tl]; [destruct Hx|].
  destruct (headingRound hPrefix noteName l tl c) as [[l' tl'] c1] eqn:Er.
  destruct (headingRounds fuel hPrefix noteName tl' c1) as [[o c'']|] eqn:E;
    [|discriminate].
  injection H as <- <-. unfold headingRound in Er.
  destruct Hx as [->|Hx].
  - rewrite Hh in Er. injection Er as <- _ _. left. reflexivity.
  - right. eapply IH; [|exact E].
    destruct (startsWith l hPrefix); [|injection Er as _ <- _; exact Hx].
    change (negb true) with false in Er. cbv iota in Er.
    destruct (negb (str_eqb _ _)).
    + destruct (placeBacklink _ tl true) as [t1 c2] eqn:Ep.
      injection Er as _ <- _.
      replace t1 with (fst (placeBacklink
        (backlinkFor noteName (cleanHeadingOf hPrefix l)) tl true))
        by (rewrite Ep; reflexivity).
      apply placeBacklink_keeps; assumption.
    + destruct (placeBacklink _ tl c) as [t1 c2] eqn:Ep.
      injection Er as _ <- _.
      replace t1 with (fst (placeBacklink
        (backlinkFor noteName (cleanHeadingOf hPrefix l)) tl c))
        by (rewrite Ep; reflexivity).
      apply placeBacklink_keeps; assumption.
Qed.

Lemma filter_keep_In (x : str) (l : list str) :
  In x l -> isEmptyItem x = false -> In x (filter (fun y => keepItem y = true) l).
Proof.
  intros Hx He. induction l as [|y l IH]; [destruct Hx|].
  rewrite filter_cons. destruct Hx as [->|Hx].
  - rewrite decide_True by (unfold keepItem; rewrite He; reflexivity).
    left. reflexivity.
  - destruct (decide (keepItem y = true)); [right|]; auto.
Qed.

Lemma tidyRounds_keeps (x : str) (fuel : nat) :
  isEmptyItem x = false ->
  forall rest c out c',
    In x rest -> tidyRounds fuel rest c = Some (out, c') -> In x out.
Proof.
  intros He. induction fuel as [|fuel IH]; intros rest c out c' Hx H;
    [discriminate|].
  cbn [tidyRounds] in H. destruct rest as [|l tl]; [destruct Hx|].
  unfold tidyRound in H. destruct (isList l) eqn:El;
    [change (negb true) with false in H | change (negb false) with true in H];
    cbv beta iota zeta in H.
  - set (k := countWhile isList tl) in *.
    set (c1 := c || _ || _) in H.
    destruct (tidyRounds fuel (separatorFor (drop k tl) ++ drop k tl) c1)
      as [[o c'']|] eqn:E; [|discriminate].
    injection H as <- <-.
    assert (Hx' : In x ((l :: take k tl) ++ drop k tl))
      by (cbn [app]; rewrite take_drop; exact Hx).
    apply in_app_or in Hx' as [Hx'|Hx']; apply in_or_app.
    + left. apply filter_keep_In; assumption.
    + right. eapply IH; [|exact E]. apply in_or_app. right. exact Hx'.
  - destruct (tidyRounds fuel tl c) as [[o c'']|] eqn:E; [|discriminate].
    injection H as <- <-. destruct Hx as [->|Hx]; [left; reflexivity|].
    right. eapply IH; eassumption.
Qed.

Lemma marker_line_found (l : list str) : In marker l -> existsb hasMarker l = true.
Proof.
  intros H. apply existsb_exists. exists marker. split; [exact H | reflexivity].
Qed.

Lemma rewriteHeadings_keeps_marker (this : AnkiHelperPlugin) (file : TFile)
    (d h : list str) (c : bool) :
  In marker d -> rewriteHeadingsAndCollectLists this d file = Some (h, c) ->
  In marker h.
Proof.
  intros Hm H. destruct (rewriteHeadings_total this d file) as [out [c0 [E E']]].
  rewrite E' in H. injection H as <- <-.
  rewrite <- (take_drop (findYamlEnd d) d) in Hm.
  apply in_app_or in Hm as [Hm|Hm]; apply in_or_app; [left; exact Hm|].
  right. eapply headingRounds_keeps; [| | exact Hm | exact E].
  - destruct (headingLevel (settings this)); reflexivity.
  - reflexivity.
Qed.

Lemma tidyLists_keeps_marker (d t : list str) (c : bool) :
  In marker d -> tidyLists d = Some (t, c) -> In marker t.
Proof.
  intros Hm H. destruct (tidyLists_total d) as [out [c0 [E E']]].
  rewrite E' in H. injection H as <- <-.
  rewrite <- (take_drop (findYamlEnd d) d) in Hm.
  apply in_app_or in Hm as [Hm|Hm]; apply in_or_app; [left; exact Hm|].
  right. eapply tidyRounds_keeps; [reflexivity | exact Hm | exact E].
Qed.

Lemma ensureTargetDeck_adds_marker (this : AnkiHelperPlugin) (file : TFile)
    (d : list str) :
  existsb hasMarker d = false -> In marker (fst (ensureTargetDeck this d file)).
Proof.
  intros H. rewrite ensureTargetDeck_inserts by exact H. cbn [fst].
  apply in_or_app. right. apply in_or_app. right. left. reflexivity.
Qed.

End MarkerStays.

(** ** More on the heading rounds: lengths and what the flag says *)

Section HeadingMore.

Variables hPrefix noteName : str.

Lemma placeBacklink_length (bl : str) (tl : list str) (c : bool) :
  length tl <= length (fst (placeBacklink bl tl c)).
Proof.
  unfold placeBacklink. set (k := countWhile isTrimEmpty tl).
  destruct (tl !! k) as [x|] eqn:Hk.
  - destruct (negb (test_whole wikiLinkRe (trim x))); cbn [fst].
    + rewrite length_app. cbn [length]. rewrite length_take, length_drop. lia.
    + destruct (negb (str_eqb (trim x) bl)); cbn [fst]; [rewrite length_insert|]; lia.
  - cbn [fst]. rewrite length_app. cbn [length]. lia.
Qed.

Lemma placeBacklink_unflagged (bl : str) (tl tl' : list str) (c : bool) :
  placeBacklink bl tl c = (tl', false) -> tl' = tl /\ c = false.
Proof.
  unfold placeBacklink. destruct (tl !! _) as [x|]; [|discriminate].
  destruct (negb (test_whole wikiLinkRe (trim x))); [discriminate|].
  destruct (negb (str_eqb (trim x) bl)); [discriminate|].
  intros [= <- <-]. auto.
Qed.

Lemma placeBacklink_flag_stays (bl : str) (tl : list str) :
  snd (placeBacklink bl tl true) = true.
Proof.
  unfold placeBacklink. destruct (tl !! _) as [x|]; [|reflexivity].
  destruct (negb (test_whole wikiLinkRe (trim x))); [reflexivity|].
  destruct (negb (str_eqb (trim x) bl)); reflexivity.
Qed.

Lemma headingRound_flag_stays (l : str) (tl : list str) :
  snd (headingRound hPrefix noteName l tl true) = true.
Proof.
  unfold headingRound. destruct (negb (startsWith l hPrefix)); [reflexivity|].
  destruct (negb (str_eqb _ _)).
  - pose proof (placeBacklink_flag_stays
                  (backlinkFor noteName (cleanHeadingOf hPrefix l)) tl) as H.
    destruct (placeBacklink _ tl true). exact H.
  - pose proof (placeBacklink_flag_stays
                  (backlinkFor noteName (cleanHeadingOf hPrefix l)) tl) as H.
    destruct (placeBacklink _ tl true). exact H.
Qed.

Lemma headingRound_unflagged (l l' : str) (tl tl' : list str) (c : bool) :
  headingRound hPrefix noteName l tl c = (l', tl', false) ->
  l' = l /\ tl' = tl /\ c = false.
Proof.
  unfold headingRound. destruct (negb (startsWith l hPrefix)).
  - intros [= <- <- <-]. auto.
  - destruct (negb (str_eqb _ _)).
    + pose proof (placeBacklink_flag_stays
                    (backlinkFor noteName (cleanHeadingOf hPrefix l)) tl) as H.
      destruct (placeBacklink _ tl true) as [t c2]. cbn [snd] in H. subst c2.
      discriminate.
    + destruct (placeBacklink _ tl c) as [t c2] eqn:Ep.
      intros [= <- <- ->]. apply placeBacklink_unflagged in Ep as [-> ->]. auto.
Qed.

Lemma headingRounds_flag_stays (fuel : nat) :
  forall rest out c',
    headingRounds fuel hPrefix noteName rest true = Some (out, c') -> c' = true.
Proof.
  induction fuel as [|fuel IH]; intros rest out c' H; [discriminate|].
  cbn [headingRounds] in H. destruct rest as [|l tl]; [injection H as _ <-; reflexivity|].
  pose proof (headingRound_flag_stays l tl) as Hs.
  destruct (headingRound hPrefix noteName l tl true) as [[l' tl'] c1].
  cbn [snd] in Hs. subst c1.
  destruct (headingRounds fuel hPrefix noteName tl' true) as [[o c'']|] eqn:E;
    [|discriminate].
  injection H as _ <-. eapply IH. exact E.
Qed.

Lemma headingRounds_unflagged (fuel : nat) :
  forall rest c out,
    headingRounds fuel hPrefix noteName rest c = Some (out, false) ->
    out = rest /\ c = false.
Proof.
  induction fuel as [|fuel IH]; intros rest c out H; [discriminate|].
  cbn [headingRounds] in H. destruct rest as [|l tl]; [injection H as <- ->; auto|].
  destruct (headingRound hPrefix noteName l tl c) as [[l' tl'] c1] eqn:Er.
  destruct (headingRounds fuel hPrefix noteName tl' c1) as [[o c'']|] eqn:E;
    [|discriminate].
  injection H as <- ->. apply IH in E as [-> ->].
  apply headingRound_unflagged in Er as [-> [-> ->]]. auto.
Qed.

Lemma headingRound_length (l : str) (tl : list str) (c : bool) :
  length tl <= length (snd (fst (headingRound hPrefix noteName l tl c))).
Proof.
  unfold headingRound. destruct (negb (startsWith l hPrefix)); cbn [fst snd]; [lia|].
  destruct (negb (str_eqb _ _)).
  - pose proof (placeBacklink_length
                  (backlinkFor noteName (cleanHeadingOf hPrefix l)) tl true) as H.
    destruct (placeBacklink _ tl true). exact H.
  - pose proof (placeBacklink_length
                  (backlinkFor noteName (cleanHeadingOf hPrefix l)) tl c) as H.
    destruct (placeBacklink _ tl c). exact H.
Qed.

Lemma headingRounds_grows (fuel : nat) :
  forall rest c out c',
    headingRounds fuel hPrefix noteName rest c = Some (out, c') ->
    length rest <= length out.
Proof.
  induction fuel as [|fuel IH]; intros rest c out c' H; [discriminate|].
  cbn [headingRounds] in H. destruct rest as [|l tl]; [injection H as <- _; lia|].
  pose proof (headingRound_length l tl c) as Hl.
  destruct (headingRound hPrefix noteName l tl c) as [[l' tl'] c1]. cbn [fst snd] in Hl.
  destruct (headingRounds fuel hPrefix noteName tl' c1) as [[o c'']|] eqn:E;
    [|discriminate].
  injection H as <- _. apply IH in E. cbn [length]. lia.
Qed.

Hypothesis prefix_no_bracket : forall t, startsWith (ch "[" :: t) hPrefix = false.

Lemma headingRounds_bounded (fuel : nat) :
  forall rest c out c',
    headingRounds fuel hPrefix noteName rest c = Some (out, c') ->
    length out <= headingMeasure hPrefix rest.
Proof.
  induction fuel as [|fuel IH]; intros rest c out c' H; [discriminate|].
  cbn [headingRounds] in H.
  destruct rest as [|l tl]; [injection H as <- _; cbn; lia|].
  pose proof (headingRound_measure hPrefix noteName prefix_no_bracket l tl c) as Hm.
  destruct (headingRound hPrefix noteName l tl c) as [[l' tl'] c1]. cbn [fst snd] in Hm.
  destruct (headingRounds fuel hPrefix noteName tl' c1) as [[o c'']|] eqn:E;
    [|discriminate].
  injection H as <- _. apply IH in E. cbn [length]. lia.
Qed.

Lemma no_headings_settled (rest : list str) :
  Forall (fun x => startsWith x hPrefix = false) rest ->
  headingsSettled hPrefix noteName rest.
Proof.
  induction 1 as [|x rest Hx _ IH]; [exact I|].
  cbn [headingsSettled]. split; [|exact IH]. intros Hh. congruence.
Qed.

End HeadingMore.

(** ** The loop reaches every heading after the front matter *)

Section HeadingReached.

Variable n : nat.
Variable noteName : str.

Local Abbreviation hPrefix := (hPrefixOf (S n)).

Lemma heading_not_blank (l : str) :
  startsWith l hPrefix = true -> isTrimEmpty l = false.
Proof.
  intros H. destruct (isTrimEmpty l) eqn:E; [|reflexivity].
  apply (blank_not_heading n) in E. congruence.
Qed.

Lemma heading_not_link (l : str) :
  startsWith l hPrefix = true -> test_whole wikiLinkRe (trim l) = false.
Proof.
  intros H. destruct (test_whole wikiLinkRe (trim l)) eqn:E; [|reflexivity].
  apply wikiLink_test in E as [a [b [E _]]].
  apply (link_not_heading n) in E. congruence.
Qed.

Lemma link_line_not_heading (x : str) :
  test_whole wikiLinkRe (trim x) = true -> startsWith x hPrefix = false.
Proof.
  intros E. apply wikiLink_test in E as [a [b [E _]]].
  apply (link_not_heading n) in E. exact E.
Qed.

Lemma placeBacklink_blank_cons (bl y : str) (r : list str) (c : bool) :
  isTrimEmpty y = true ->
  placeBacklink bl (y :: r) c
  = (y :: fst (placeBacklink bl r c), snd (placeBacklink bl r c)).
Proof.
  intros Hy. unfold placeBacklink. cbn [countWhile]. rewrite Hy.
  set (k := countWhile isTrimEmpty r). cbn [lookup list_lookup].
  change ((y :: r) !! S k) with (r !! k).
  destruct (r !! k) as [x|]; [|reflexivity].
  destruct (negb (test_whole wikiLinkRe (trim x))); [reflexivity|].
  destruct (negb (str_eqb (trim x) bl)); reflexivity.
Qed.

(** The backlink of an earlier heading is placed before a later line that
    is neither blank nor a link, and that line and the lines after it
    stay. *)
Lemma placeBacklink_before (bl l : str) (tl : list str) (c : bool) :
  isTrimEmpty l = false -> test_whole wikiLinkRe (trim l) = false ->
  forall pre, exists pre',
    fst (placeBacklink bl (pre ++ l :: tl) c) = pre' ++ l :: tl /\
    length pre <= length pre'.
Proof.
  intros Hb Hw. induction pre as [|y pre [pre' [E Hlen]]].
  - exists [bl]. split; [|cbn; lia].
    unfold placeBacklink. cbn [app countWhile]. rewrite Hb.
    cbn [lookup list_lookup]. change ((l :: tl) !! 0) with (Some l).
    cbv iota. rewrite Hw. reflexivity.
  - destruct (isTrimEmpty y) eqn:Ey.
    + exists (y :: pre'). cbn [app]. rewrite placeBacklink_blank_cons by exact Ey.
      cbn [fst]. rewrite E. split; [reflexivity | cbn; lia].
    + unfold placeBacklink. cbn [app countWhile]. rewrite Ey.
      change ((y :: pre ++ l :: tl) !! 0) with (Some y). cbv iota.
      destruct (negb (test_whole wikiLinkRe (trim y))).
      * exists (bl :: y :: pre). split; [reflexivity | cbn; lia].
      * destruct (negb (str_eqb (trim y) bl)).
        -- exists (bl :: pre). split; [reflexivity | cbn; lia].
        -- exists (y :: pre). split; [reflexivity | cbn; lia].
Qed.

Lemma headingRounds_reach (l : str) (tl : list str) :
  startsWith l hPrefix = true ->
  forall fuel pre c out c',
    headingRounds fuel hPrefix noteName (pre ++ l :: tl) c = Some (out, c') ->
    exists P out' c1 fuel',
      length pre <= length P /\ out = P ++ out' /\
      headingRounds fuel' hPrefix noteName (l :: tl) c1 = Some (out', c').
Proof.
  intros Hh. pose proof (heading_not_blank l Hh) as Hb.
  pose proof (heading_not_link l Hh) as Hw.
  induction fuel as [|fuel IH]; intros pre c out c' H; [discriminate|].
  destruct pre as [|y pre].
  - exists [], out, c, (S fuel). split; [reflexivity|]. split; [reflexivity | exact H].
  - cbn [app headingRounds] in H.
    destruct (headingRound hPrefix noteName y (pre ++ l :: tl) c)
      as [[y' tl'] c1] eqn:Er.
    destruct (headingRounds fuel hPrefix noteName tl' c1) as [[o c2]|] eqn:Eo;
      [|discriminate].
    injection H as <- <-.
    assert (Htl : exists pre', tl' = pre' ++ l :: tl /\ length pre <= length pre').
    { unfold headingRound in Er. destruct (negb (startsWith y hPrefix)).
      - injection Er as _ <- _. exists pre. split; [reflexivity | lia].
      - set (bl := backlinkFor noteName (cleanHeadingOf hPrefix y)) in *.
        destruct (negb (str_eqb (slice (length hPrefix) y) (cleanHeadingOf hPrefix y))).
        + destruct (placeBacklink_before bl l tl true Hb Hw pre) as [pre' [E Hlen]].
          destruct (placeBacklink bl (pre ++ l :: tl) true) as [t2 c3].
          cbn [fst] in E. injection Er as _ <- _. exists pre'. auto.
        + destruct (placeBacklink_before bl l tl c Hb Hw pre) as [pre' [E Hlen]].
          destruct (placeBacklink bl (pre ++ l :: tl) c) as [t2 c3].
          cbn [fst] in E. injection Er as _ <- _. exists pre'. auto. }
    destruct Htl as [pre' [-> Hlen]].
    destruct (IH pre' c1 o c2 Eo) as [P [out' [c3 [fuel' [HP [-> E]]]]]].
    exists (y' :: P), out', c3, fuel'. split; [cbn; lia|]. split; [reflexivity | exact E].
Qed.

(** The round at a heading: the cleaned heading, then the lines after it
    with the backlink placed, visited next. *)
Lemma headingRounds_at_heading (l : str) (tl : list str) (fuel : nat)
    (c : bool) (out : list str) (c' : bool) :
  startsWith l hPrefix = true ->
  headingRounds fuel hPrefix noteName (l :: tl) c = Some (out, c') ->
  exists c1 tl' c2 o fuel',
    placeBacklink (backlinkFor noteName (cleanHeadingOf hPrefix l)) tl c1 = (tl', c2) /\
    headingRounds fuel' hPrefix noteName tl' c2 = Some (o, c') /\
    out = (hPrefix ++ cleanHeadingOf hPrefix l) :: o.
Proof.
  intros Hh H. destruct fuel as [|fuel]; [discriminate|].
  cbn [headingRounds] in H. unfold headingRound in H. rewrite Hh in H.
  change (negb true) with false in H. cbv iota in H.
  set (clean := cleanHeadingOf hPrefix l) in *.
  set (bl := backlinkFor noteName clean) in *.
  destruct (negb (str_eqb (slice (length hPrefix) l) clean)) eqn:Et.
  - destruct (placeBacklink bl tl true) as [tl' c2] eqn:Ep.
    cbv beta iota zeta in H.
    destruct (headingRounds fuel hPrefix noteName tl' c2) as [[o c'']|] eqn:Er;
      [|discriminate].
    injection H as <- <-. exists true, tl', c2, o, fuel. auto.
  - destruct (placeBacklink bl tl c) as [tl' c2] eqn:Ep.
    cbv beta iota zeta in H.
    destruct (headingRounds fuel hPrefix noteName tl' c2) as [[o c'']|] eqn:Er;
      [|discriminate].
    injection H as <- <-. exists c, tl', c2, o, fuel. split; [exact Ep|].
    split; [exact Er|]. f_equal.
    apply negb_false_iff, str_eqb_eq in Et. rewrite <- Et.
    apply startsWith_slice. exact Hh.
Qed.

Lemma goesOn_rounds (s : list str) (c0 : bool) (out : list str) (c : bool)
    (fuel : nat) :
  headingRounds fuel hPrefix noteName s c0 = Some (out, c) ->
  goesOn hPrefix noteName s c0 out c.
Proof.
  intros H. exists fuel.
  pose proof (headingLoop_rounds hPrefix noteName fuel [] s c0) as E.
  cbn [app length] in E. rewrite E, H. reflexivity.
Qed.

End HeadingReached.

(** * The properties of the design document *)

(** ** C1: running the pipeline twice *)

(** C1, as written, fails: with the three stages enabled, on the lines
    [#### Q] and [[[TARGET DECK#x]]] the first run writes the backlink
    over the only line that holds the marker, so the second run inserts
    the deck header and reports a change. *)
Lemma pipeline_idempotence_counterexample :
  exists out1 c1 out2 c2,
    pipeline freshPlugin (fileAt "n.md" "n")
      [lit "#### Q"; lit "[[TARGET DECK#x]]"] = Some (out1, c1) /\
    pipeline freshPlugin (fileAt "n.md" "n") out1 = Some (out2, c2) /\
    out1 = [lit "#### Q"; lit "[[n#Q]]"] /\
    out2 <> out1 /\ c2 = true.
Proof.
  eexists _, _, _, _. split; [vm_compute; reflexivity|].
  split; [vm_compute; reflexivity|].
  split; [reflexivity|]. split; [discriminate | reflexivity].
Qed.

(** Without the condition on line terminators the second run need not be
    silent: a carriage return inside a heading goes into the backlink, the
    dot of the link pattern does not accept it, and every run adds the
    backlink once more. *)
Lemma pipeline_line_terminator_case :
  exists out1 c1 out2 c2,
    pipeline freshPlugin (fileAt "n.md" "n") [lit "#### a" ++ [13%N] ++ lit "b"]
    = Some (out1, c1) /\
    pipeline freshPlugin (fileAt "n.md" "n") out1 = Some (out2, c2) /\
    length out1 = 5 /\ length out2 = 6 /\ c2 = true.
Proof.
  eexists _, _, _, _. split; [vm_compute; reflexivity|].
  split; [vm_compute; reflexivity|]. repeat split.
Qed.

(** C1, amended: for every line sequence, base name and configuration,
    with any of the three stages enabled, the pipeline returns; and a
    second run on its result gives the same lines and reports no change,
    provided that, when the heading stage is enabled, the heading level is
    at least 1 and the base name, the deck template and the lines hold no
    line terminator, and that, when the deck stage is enabled, a line with
    the marker is still there after the first run. Such a line is there
    whenever the document had no line with the marker before the run. *)
Theorem pipeline_idempotent (this : AnkiHelperPlugin) (file : TFile)
    (D : list str) :
  (enableHeadingOps (settings this) = true ->
   1 <= headingLevel (settings this) /\
   noLineTerminator (basename file) = true /\
   noLineTerminator (targetDeckTemplate (settings this)) = true /\
   Forall (fun l => noLineTerminator l = true) D) ->
  exists out c,
    pipeline this file D = Some (out, c) /\
    ((enableTargetDeck (settings this) = true -> existsb hasMarker out = true) ->
     pipeline this file out = Some (out, false)) /\
    (enableTargetDeck (settings this) = true -> existsb hasMarker D = false ->
     existsb hasMarker out = true).
Proof.
  intros Hyp.
  destruct (pipeline_stages this file D)
    as [l1 [c1 [l2 [c2 [l3 [c3 [H1 [H2 [H3 E]]]]]]]]].
  exists l3, (c1 || c2 || c3). split; [exact E|]. split.
  - intros Hmark. apply pipeline_fixed; [exact Hmark | |].
    + intros Eh. destruct (Hyp Eh) as [Hlevel [Hname [Htpl HD]]].
      rewrite Eh in H2.
      assert (Hl1 : Forall (fun l => noLineTerminator l = true) l1).
      { destruct (enableTargetDeck (settings this)).
        - replace l1 with (fst (ensureTargetDeck this D file))
            by (rewrite H1; reflexivity).
          apply ensureTargetDeck_plain; assumption.
        - injection H1 as -> _. exact HD. }
      pose proof (rewriteHeadings_settles this file l1 l2 c2 Hlevel Hname Hl1 H2)
        as Hs.
      destruct (enableListTidy (settings this)).
      * eapply tidyLists_keeps_settled; eassumption.
      * injection H3 as -> _. exact Hs.
    + intros El. rewrite El in H3. eapply tidyLists_tidies. exact H3.
  - intros Ed Hfresh. rewrite Ed in H1. apply marker_line_found.
    assert (Hm1 : In marker l1).
    { replace l1 with (fst (ensureTargetDeck this D file))
        by (rewrite H1; reflexivity).
      apply ensureTargetDeck_adds_marker. exact Hfresh. }
    assert (Hm2 : In marker l2).
    { destruct (enableHeadingOps (settings this)).
      - eapply rewriteHeadings_keeps_marker; eassumption.
      - injection H2 as -> _. exact Hm1. }
    destruct (enableListTidy (settings this)).
    + eapply tidyLists_keeps_marker; eassumption.
    + injection H3 as -> _. exact Hm2.
Qed.

Lemma pipeline_idempotent_witness :
  exists out c,
    pipeline freshPlugin (fileAt "Card1.md" "Card1")
      [lit "#### What is <X>"; lit "- answer"; lit "- "; lit "More text"]
    = Some (out, c) /\
    pipeline freshPlugin (fileAt "Card1.md" "Card1") out = Some (out, false).
Proof.
  destruct (pipeline_idempotent freshPlugin (fileAt "Card1.md" "Card1")
              [lit "#### What is <X>"; lit "- answer"; lit "- "; lit "More text"])
    as [out [c [E H]]].
  - intros _. split; [simpl; lia|]. split; [reflexivity|]. split; [reflexivity|].
    repeat constructor.
  - exists out, c. split; [exact E|]. destruct H as [H Hfresh].
    apply H. intros Ed. apply Hfresh; [exact Ed | reflexivity].
Defined.

(** ** C2: heading cleanup on the example line *)

(** C2, as written, fails: the cleaned line of the example is not
    [#### Question with  and]; the text between the removed characters
    stays. *)
Lemma heading_cleanup_example_counterexample :
  exists out c,
    rewriteHeadingsAndCollectLists freshPlugin
      [lit "#### Question with `code` and <tag>"] (fileAt "Card1.md" "Card1")
    = Some (out, c) /\
    out !! 0 <> Some (lit "#### Question with  and").
Proof.
  eexists _, _. split; [vm_compute; reflexivity|]. vm_compute. discriminate.
Qed.

(** C2, amended: at heading level 4 the line
    [#### Question with `code` and <tag>] becomes
    [#### Question with code and tag]: only the backticks and angle
    brackets go, the text between them stays, and the backlink to the
    cleaned heading is appended. *)
Theorem heading_cleanup_example (this : AnkiHelperPlugin) (file : TFile) :
  headingLevel (settings this) = 4 ->
  rewriteHeadingsAndCollectLists this
    [lit "#### Question with `code` and <tag>"] file
  = Some ([lit "#### Question with code and tag";
           backlinkFor (basename file) (lit "Question with code and tag")],
          true).
Proof.
  intros H. unfold rewriteHeadingsAndCollectLists. rewrite H.
  vm_compute. reflexivity.
Qed.

Lemma heading_cleanup_example_witness :
  headingLevel (settings freshPlugin) = 4 /\
  rewriteHeadingsAndCollectLists freshPlugin
    [lit "#### Question with `code` and <tag>"] (fileAt "Card1.md" "Card1")
  = Some ([lit "#### Question with code and tag";
           backlinkFor (lit "Card1") (lit "Question with code and tag")],
          true).
Proof.
  split; [reflexivity|].
  apply (heading_cleanup_example freshPlugin (fileAt "Card1.md" "Card1")).
  reflexivity.
Defined.

(** ** C3: a block of empty items only *)

(** C3: on the two lines [- ] and [text] the tidier deletes the empty item
    and then puts the separator before [text], where no list is left. *)
Theorem tidyLists_emptied_block :
  tidyLists [lit "- "; lit "text"] = Some ([lit " "; lit "text"], true).
Proof. vm_compute. reflexivity. Qed.

(** ** C4: the deck header *)

(** C4, as written, fails: for a note called [TARGET DECK] the rendered
    template holds the marker too, and two lines of the result contain
    it. *)
Lemma deck_header_counterexample :
  existsb (fun l => includes l marker) [lit "text"] = false /\
  length (filter (fun l => hasMarker l = true)
            (fst (ensureTargetDeck freshPlugin [lit "text"]
                    (fileAt "TARGET DECK.md" "TARGET DECK")))) = 2.
Proof. split; vm_compute; reflexivity. Qed.

(** A dollar sign in the base name is read by [replace] as the start of a
    replacement pattern: for the base name [a$&b] the matched text
    [filename] comes back between [a] and [b]. *)
Lemma deck_template_dollar_case :
  replaceAll (lit "filename") (lit "a$&b") (lit "[[Deck]]::[[filename]]")
  = lit "[[Deck]]::[[afilenameb]]".
Proof. vm_compute. reflexivity. Qed.

(** A line [---] that is not the end of a front matter counts as well:
    in a note without front matter whose first heading comes right after
    such a line, four lines are put in. *)
Lemma deck_header_rule_line_case :
  findYamlEnd [lit "intro"; lit "---"; lit "# h"] = 0 /\
  ensureTargetDeck freshPlugin [lit "intro"; lit "---"; lit "# h"]
    (fileAt "Card1.md" "Card1")
  = ([lit "intro"; lit "---"; empty; marker;
      lit "[[anki" ++ [32972; 35829]%N ++ lit "]]::[[Card1]]"; empty; lit "# h"],
     true).
Proof. split; vm_compute; reflexivity. Qed.

(** C4, amended: when a line contains [TARGET DECK] the lines stay as they
    are and the result is [false]. Otherwise the result is [true] and the
    marker line, the rendered template and an empty line stand, in this
    order, at the computed index, after one more empty line exactly when
    that index is not 0 and the line right before it is exactly [---];
    nothing else changes. After a closed front matter the line before the
    index always is [---], so the empty line is always put in there. The
    rendered template is the template with every [filename] replaced by
    the base name, read as plain text, when the base name holds no
    dollar sign. Exactly one line of the result contains the marker when
    the rendered template does not contain it. *)
Theorem deck_header_insertion (this : AnkiHelperPlugin) (lines : list str)
    (file : TFile) :
  let tpl := replaceAll (lit "filename") (basename file)
               (targetDeckTemplate (settings this)) in
  if existsb (fun l => includes l marker) lines then
    ensureTargetDeck this lines file = (lines, false)
  else
    let idx := deckIndex lines in
    let gap := if (0 <? idx) && line_is lines (idx - 1) (lit "---")
               then [empty] else [] in
    ensureTargetDeck this lines file
    = (take idx lines ++ gap ++ [marker; tpl; empty] ++ drop idx lines, true) /\
    (char_in (basename file) (ch "$") = false ->
     tpl = substituteAll (lit "filename") (basename file)
             (targetDeckTemplate (settings this))) /\
    (hasMarker tpl = false ->
     length (filter (fun l => hasMarker l = true)
               (fst (ensureTargetDeck this lines file))) = 1) /\
    (0 < findYamlEnd lines -> gap = [empty]).
Proof.
  intros tpl. destruct (existsb (fun l => includes l marker) lines) eqn:E.
  - unfold ensureTargetDeck. rewrite E. reflexivity.
  - intros idx gap. split; [apply ensureTargetDeck_inserts; exact E|].
    split; [apply replaceAll_plain|].
    split; [|intros Hy; unfold gap, idx, deckIndex;
             destruct (findYamlEnd_cases lines) as [E0|[k [Ek [Hk1 [_ [Hk _]]]]]];
             [lia|];
             rewrite Ek; replace (k + 1 =? 0) with false
               by (symmetry; apply Nat.eqb_neq; lia);
             replace (k + 1 - 1) with k by lia;
             apply line_is_true in Hk; rewrite Hk;
             replace (0 <? k + 1) with true by (symmetry; apply Nat.ltb_lt; lia);
             reflexivity].
    intros Ht. rewrite ensureTargetDeck_inserts by exact E. simpl fst.
    fold tpl idx gap.
    assert (Hno : forall l, existsb (fun x => includes x marker) l = false ->
                            length (filter (fun x => hasMarker x = true) l) = 0).
    { intros l Hl. rewrite no_marker_count by exact Hl. reflexivity. }
    rewrite !list.filter_app, !length_app.
    rewrite !filter_cons.
    rewrite (Hno (take idx lines)), (Hno gap).
    + rewrite decide_True by reflexivity.
      rewrite decide_False by (rewrite Ht; discriminate).
      rewrite decide_False by discriminate.
      simpl length. rewrite (Hno (drop idx lines)); [reflexivity|].
      rewrite <- (take_drop idx lines) in E. rewrite existsb_app in E.
      apply orb_false_iff in E as [_ E]. exact E.
    + unfold gap. destruct (_ && _); reflexivity.
    + rewrite <- (take_drop idx lines) in E. rewrite existsb_app in E.
      apply orb_false_iff in E as [E _]. exact E.
Qed.

Lemma deck_header_insertion_witness :
  ensureTargetDeck freshPlugin
    [lit "---"; lit "title: x"; lit "---"; lit "#### Q"] (fileAt "Card1.md" "Card1")
  = ([lit "---"; lit "title: x"; lit "---"; empty; marker;
      lit "[[anki" ++ [32972; 35829]%N ++ lit "]]::[[Card1]]"; empty; lit "#### Q"],
     true) /\
  length (filter (fun l => hasMarker l = true)
            (fst (ensureTargetDeck freshPlugin
                    [lit "---"; lit "title: x"; lit "---"; lit "#### Q"]
                    (fileAt "Card1.md" "Card1")))) = 1.
Proof.
  pose proof (deck_header_insertion freshPlugin
                [lit "---"; lit "title: x"; lit "---"; lit "#### Q"]
                (fileAt "Card1.md" "Card1")) as H.
  cbv zeta in H.
  change (existsb (fun l => includes l marker)
            [lit "---"; lit "title: x"; lit "---"; lit "#### Q"]) with false in H.
  cbv iota in H. destruct H as [H1 [_ [H3 _]]].
  split; [exact H1 | apply H3; reflexivity].
Defined.

(** ** C5: the backlink and its place *)




(** ** C6: the scope check *)

(** C6: [isInScope] is true in mode [all]; in mode [include] it is true
    exactly when some compiled include pattern matches the path, so never
    with an empty list; in mode [exclude] exactly when no compiled exclude
    pattern matches; with the exclude list [Archive/] the path
    [Archive/x.md] is out of scope and [Notes/x.md] is in scope. *)
Theorem scope_truth_table (this : AnkiHelperPlugin) (file : TFile) :
  match runScope (settings this) with
  | ScopeAll => isInScope this file = true
  | ScopeInclude =>
      (isInScope this file = true <->
       exists r, In r (includePatterns this) /\ test r (path file) = true) /\
      (includePatterns this = [] -> isInScope this file = false)
  | ScopeExclude =>
      isInScope this file = true <->
      forall r, In r (excludePatterns this) -> test r (path file) = false
  end /\
  (includePaths (settings this) = [] ->
   match updateScopePatterns this with
   | Returned this' | Threw this' => includePatterns this' = []
   end) /\
  match updateScopePatterns (withScope ScopeExclude [] [lit "Archive/"]) with
  | Returned this' =>
      isInScope this' (fileAt "Archive/x.md" "x") = false /\
      isInScope this' (fileAt "Notes/x.md" "x") = true
  | Threw _ => False
  end.
Proof.
  split; [|split].
  - unfold isInScope. destruct (runScope (settings this)).
    + reflexivity.
    + split.
      * rewrite existsb_exists. reflexivity.
      * intros ->. reflexivity.
    + rewrite negb_true_iff. split.
      * intros H r Hr. destruct (test r (path file)) eqn:E; [|reflexivity].
        assert (existsb (fun r => test r (path file)) (excludePatterns this) = true)
          by (apply existsb_exists; eauto).
        congruence.
      * intros H. destruct (existsb _ _) eqn:E; [|reflexivity].
        apply existsb_exists in E as [r [Hr Ht]]. rewrite (H r Hr) in Ht. discriminate.
  - intros H. unfold updateScopePatterns. rewrite H. simpl.
    destruct (compileAll (excludePaths (settings this))); reflexivity.
  - vm_compute. split; reflexivity.
Qed.

Lemma scope_truth_table_witness :
  isInScope (withScope ScopeInclude [] []) (fileAt "Notes/x.md" "x") = false.
Proof.
  pose proof (scope_truth_table (withScope ScopeInclude [] [])
                (fileAt "Notes/x.md" "x")) as [H _].
  cbn [withScope settings runScope] in H. apply (proj2 H). reflexivity.
Defined.

(** ** C7: glob compilation *)

(** C7: the question mark is not quoted. The pattern [notes?.md] compiles
    to a matcher that accepts [notes.md] and [note.md] and rejects the
    path [notes?.md] itself; the pattern made of the two placeholder
    characters accepts every path; the pattern [?] alone does not
    compile. *)
Theorem globToRegExp_question_mark :
  (exists r, globToRegExp (lit "notes?.md") = Ok r /\
             test r (lit "notes.md") = true /\
             test r (lit "note.md") = true /\
             test r (lit "notes?.md") = false) /\
  (exists r, globToRegExp placeholder = Ok r /\
             test r (lit "Archive/x.md") = true) /\
  globToRegExp (lit "?") = SyntaxError.
Proof.
  split; [|split].
  - eexists. split; [vm_compute; reflexivity|]. vm_compute. auto.
  - eexists. split; [vm_compute; reflexivity|]. vm_compute. auto.
  - vm_compute. reflexivity.
Qed.

(** ** C8: the document is written exactly when something changed *)

(** C8: out of scope, [processFile] only shows the notice that the file
    was skipped: nothing is read, no component runs, nothing is written.
    In scope it reads the file, runs the enabled components on its lines,
    and writes the lines joined with line feeds exactly when one of the
    enabled components reports a change; otherwise it writes nothing and
    shows no notice. *)
Theorem processFile_writes_iff_changed (this : AnkiHelperPlugin)
    (vault : str -> str) (file : TFile) :
  if isInScope this file then
    exists l1 c1 l2 c2 l3 c3,
      (if enableTargetDeck (settings this)
       then ensureTargetDeck this (split_lines (vault (path file))) file = (l1, c1)
       else (l1, c1) = (split_lines (vault (path file)), false)) /\
      (if enableHeadingOps (settings this)
       then rewriteHeadingsAndCollectLists this l1 file = Some (l2, c2)
       else (l2, c2) = (l1, false)) /\
      (if enableListTidy (settings this)
       then tidyLists l2 = Some (l3, c3)
       else (l3, c3) = (l2, false)) /\
      processFile this vault file
      = Some (VaultRead (path file) ::
              if c1 || c2 || c3
              then [VaultModify (path file) (join LF l3)]
              else [])
  else
    processFile this vault file
    = Some [Notice (lit "Anki Helper: skipped (out of scope)")].
Proof.
  unfold processFile. destruct (isInScope this file); simpl; [|reflexivity].
  destruct (pipeline_stages this file (split_lines (vault (path file))))
    as [l1 [c1 [l2 [c2 [l3 [c3 [H1 [H2 [H3 E]]]]]]]]].
  exists l1, c1, l2, c2, l3, c3. rewrite E. auto.
Qed.

(** ** C9: the front matter is found and left alone *)

(** Neither loop touches the lines before the index that [findYamlEnd]
    gives. *)
Lemma rewriteHeadings_frame (this : AnkiHelperPlugin) (lines : list str) (file : TFile) :
  exists out c,
    rewriteHeadingsAndCollectLists this lines file
    = Some (take (findYamlEnd lines) lines ++ out, c).
Proof.
  destruct (rewriteHeadings_total this lines file) as [out [c [_ E]]]. eauto.
Qed.

Lemma tidyLists_frame (lines : list str) :
  exists out c, tidyLists lines = Some (take (findYamlEnd lines) lines ++ out, c).
Proof.
  destruct (tidyLists_total lines) as [out [c [_ E]]]. eauto.
Qed.

(** C9: [findYamlEnd] gives [k + 1] when line 0 is [---] and the next line
    equal to [---] is at index [k]; it gives [0] when line 0 is not [---]
    or no later line is [---]. For a document that starts with the lines
    [---], [title: x], [---] both loops start at index 3, and their result
    starts with these three lines, unchanged. *)
Theorem front_matter_untouched :
  (forall lines k,
     lines !! 0 = Some (lit "---") -> 1 <= k -> lines !! k = Some (lit "---") ->
     (forall m, 1 <= m < k -> lines !! m <> Some (lit "---")) ->
     findYamlEnd lines = k + 1) /\
  (forall lines, lines !! 0 <> Some (lit "---") -> findYamlEnd lines = 0) /\
  (forall lines, (forall m, 1 <= m -> lines !! m <> Some (lit "---")) ->
     findYamlEnd lines = 0) /\
  (forall this file rest,
     let front := [lit "---"; lit "title: x"; lit "---"] in
     findYamlEnd (front ++ rest) = 3 /\
     rewriteHeadingsAndCollectLists this (front ++ rest) file
     = headingLoop (2 * length (front ++ rest) + 1)
         (hPrefixOf (headingLevel (settings this))) (basename file)
         (front ++ rest) 3 false /\
     tidyLists (front ++ rest)
     = tidyLoop (2 * length (front ++ rest) + 2) (front ++ rest) 3 false /\
     (exists out c,
        rewriteHeadingsAndCollectLists this (front ++ rest) file
        = Some (front ++ out, c)) /\
     (exists out c, tidyLists (front ++ rest) = Some (front ++ out, c))).
Proof.
  split; [exact findYamlEnd_closed|].
  split; [exact findYamlEnd_not_opened|].
  split; [exact findYamlEnd_unterminated|].
  intros this file rest front.
  assert (E : findYamlEnd (front ++ rest) = 3) by reflexivity.
  split; [exact E|]. split; [reflexivity|]. split; [reflexivity|]. split.
  - destruct (rewriteHeadings_frame this (front ++ rest) file) as [out [c H]].
    rewrite E in H. exists out, c. exact H.
  - destruct (tidyLists_frame (front ++ rest)) as [out [c H]].
    rewrite E in H. exists out, c. exact H.
Qed.

Lemma front_matter_untouched_witness :
  findYamlEnd [lit "---"; lit "a: b"; lit "c: d"; lit "---"; lit "text"] = 3 + 1 /\
  findYamlEnd [lit "text"; lit "---"] = 0 /\
  findYamlEnd [lit "---"; lit "a: b"] = 0.
Proof.
  split; [|split].
  - apply (proj1 front_matter_untouched
             [lit "---"; lit "a: b"; lit "c: d"; lit "---"; lit "text"] 3).
    + reflexivity.
    + lia.
    + reflexivity.
    + intros m Hm. assert (m = 1 \/ m = 2) as [-> | ->] by lia; discriminate.
  - apply (proj1 (proj2 front_matter_untouched) [lit "text"; lit "---"]).
    discriminate.
  - apply (proj1 (proj2 (proj2 front_matter_untouched)) [lit "---"; lit "a: b"]).
    intros m Hm. destruct m as [|[|m]]; [lia | discriminate | discriminate].
Defined.

(** ** C10: the list-line classifier *)

(** C10: a line is a list line exactly when it starts with white space and
    a marker, whatever follows, also with no space after the marker; so
    [---] and [**bold] are list lines, [---] joins the blocks around it,
    and the separator is put after it. *)
Theorem isList_marker_prefix :
  (forall l, isList l = true <->
     exists ws m rest, l = ws ++ m ++ rest /\
       forallb isSpace ws = true /\ IsMarker m) /\
  isList (lit "---") = true /\
  isList (lit "**bold") = true /\
  isList (lit "1.x") = true /\
  tidyLists [lit "text"; lit "---"; lit "para"]
    = Some ([lit "text"; lit "---"; lit " "; lit "para"], true) /\
  tidyLists [lit "- a"; lit "---"; lit "- "; lit "para"]
    = Some ([lit "- a"; lit "---"; lit " "; lit "para"], true).
Proof.
  split; [exact isList_iff|]. repeat split; vm_compute; reflexivity.
Qed.

(** ** More on the list rounds: what they keep and what the flag says *)

Section TidyMore.

Lemma keepItem_not_list (l : str) : isList l = false -> keepItem l = true.
Proof.
  intros H. unfold keepItem. destruct (isEmptyItem l) eqn:E; [|reflexivity].
  apply isEmptyItem_isList in E. congruence.
Qed.

Lemma withoutEmptyItems_app (a b : list str) :
  withoutEmptyItems (a ++ b) = withoutEmptyItems a ++ withoutEmptyItems b.
Proof. apply list.filter_app. Qed.

Lemma withoutSeparators_app (a b : list str) :
  withoutSeparators (a ++ b) = withoutSeparators a ++ withoutSeparators b.
Proof. apply list.filter_app. Qed.

Lemma separatorFor_dissolves (after : list str) :
  withoutSeparators (withoutEmptyItems (separatorFor after)) = [].
Proof.
  unfold separatorFor. destruct after as [|x after]; [reflexivity|].
  destruct (needSpace x); reflexivity.
Qed.

Lemma tidyRounds_content (fuel : nat) :
  forall rest c out c',
    tidyRounds fuel rest c = Some (out, c') ->
    withoutSeparators out = withoutSeparators (withoutEmptyItems rest).
Proof.
  induction fuel as [|fuel IH]; intros rest c out c' H; [discriminate|].
  cbn [tidyRounds] in H. destruct rest as [|l tl]; [injection H as <- _; reflexivity|].
  unfold tidyRound in H. destruct (isList l) eqn:El;
    [change (negb true) with false in H | change (negb false) with true in H];
    cbv beta iota zeta in H.
  - set (k := countWhile isList tl) in *.
    set (c1 := c || _ || _) in H.
    destruct (tidyRounds fuel (separatorFor (drop k tl) ++ drop k tl) c1)
      as [[o c'']|] eqn:E; [|discriminate].
    injection H as <- <-. apply IH in E.
    rewrite withoutSeparators_app, E.
    rewrite withoutEmptyItems_app, withoutSeparators_app, separatorFor_dissolves.
    cbn [app]. rewrite <- withoutSeparators_app.
    fold (withoutEmptyItems (l :: take k tl)).
    rewrite <- withoutEmptyItems_app. cbn [app]. rewrite take_drop. reflexivity.
  - destruct (tidyRounds fuel tl c) as [[o c'']|] eqn:E; [|discriminate].
    injection H as <- <-. apply IH in E. cbn [app].
    unfold withoutEmptyItems. rewrite (filter_cons _ l tl).
    rewrite decide_True by (apply keepItem_not_list; exact El).
    fold (withoutEmptyItems tl). unfold withoutSeparators in *.
    rewrite !filter_cons. rewrite E. reflexivity.
Qed.

Lemma tidyRounds_flag_stays (fuel : nat) :
  forall rest out c', tidyRounds fuel rest true = Some (out, c') -> c' = true.
Proof.
  induction fuel as [|fuel IH]; intros rest out c' H; [discriminate|].
  cbn [tidyRounds] in H. destruct rest as [|l tl]; [injection H as _ <-; reflexivity|].
  destruct (tidyRound l tl true) as [[kept rest'] c1] eqn:Er.
  assert (c1 = true) as ->.
  { unfold tidyRound in Er. destruct (negb (isList l)); injection Er as _ _ <-;
      reflexivity. }
  destruct (tidyRounds fuel rest' true) as [[o c'']|] eqn:E; [|discriminate].
  injection H as _ <-. eapply IH. exact E.
Qed.

Lemma filter_same_length (P : str -> Prop) `{forall x, Decision (P x)} (l : list str) :
  length (filter P l) = length l -> filter P l = l.
Proof.
  induction l as [|x l IH]; [reflexivity|].
  rewrite filter_cons. destruct (decide (P x)); cbn [length]; intros Hl.
  - f_equal. apply IH. lia.
  - pose proof (length_filter P l). lia.
Qed.

Lemma tidyRounds_unflagged (fuel : nat) :
  forall rest c out,
    tidyRounds fuel rest c = Some (out, false) -> out = rest /\ c = false.
Proof.
  induction fuel as [|fuel IH]; intros rest c out H; [discriminate|].
  cbn [tidyRounds] in H. destruct rest as [|l tl]; [injection H as <- ->; auto|].
  destruct (tidyRound l tl c) as [[kept rest'] c1] eqn:Er.
  destruct (tidyRounds fuel rest' c1) as [[o c'']|] eqn:E; [|discriminate].
  injection H as <- ->. apply IH in E as [-> ->].
  unfold tidyRound in Er. destruct (isList l) eqn:El;
    [change (negb true) with false in Er | change (negb false) with true in Er];
    cbv iota in Er.
  - injection Er as <- <- Hc.
    apply orb_false_iff in Hc as [Hc Hs]. apply orb_false_iff in Hc as [Hc Hk].
    apply negb_false_iff, Nat.eqb_eq in Hk. apply negb_false_iff, Nat.eqb_eq in Hs.
    split; [|exact Hc].
    rewrite (filter_same_length _ _ Hk).
    destruct (separatorFor _); [|discriminate].
    cbn [app]. rewrite take_drop. reflexivity.
  - injection Er as <- <- ->. auto.
Qed.

Lemma tidyRounds_flagged (fuel : nat) (rest out : list str) :
  tidyRounds fuel rest false = Some (out, true) -> out <> rest.
Proof.
  intros H Heq. subst out.
  pose proof (tidyRounds_tidy _ _ _ _ _ H) as Ht.
  pose proof (tidyRounds_tidied (S (length rest) + fuel) rest false Ht) as H'.
  rewrite (tidyRounds_more fuel (S (length rest) + fuel) rest false _ H) in H' by lia.
  specialize (H' ltac:(lia)). discriminate.
Qed.

Lemma no_list_lines_tidy (rest : list str) :
  Forall (fun x => isList x = false) rest -> listsTidy rest.
Proof.
  induction 1 as [|x rest Hx _ IH]; [exact I|].
  cbn [listsTidy]. split; [|split; [|exact IH]].
  - destruct (isEmptyItem x) eqn:E; [|reflexivity].
    apply isEmptyItem_isList in E. congruence.
  - intros Hl. congruence.
Qed.

End TidyMore.

(** ** The settled and the tidy state, line by line *)

Section LineByLine.

Lemma listsTidy_pairs (o : list str) :
  listsTidy o ->
  forall i x y, o !! i = Some x -> o !! (S i) = Some y -> isList x = true ->
                needSpace y = false.
Proof.
  induction o as [|a o IH]; intros H i x y Hx Hy Hl; [discriminate|].
  cbn [listsTidy] in H. destruct H as [_ [Hs H]].
  destruct i as [|i].
  - injection Hx as ->. specialize (Hs Hl).
    destruct o as [|b o]; [discriminate|]. injection Hy as ->.
    unfold separatorFor in Hs. destruct (needSpace y); [discriminate | reflexivity].
  - exact (IH H i x y Hx Hy Hl).
Qed.

Lemma headingsSettled_at (hPrefix noteName : str) (o : list str) :
  headingsSettled hPrefix noteName o ->
  forall i l, o !! i = Some l ->
              headingSettled hPrefix noteName l (drop (S i) o).
Proof.
  induction o as [|a o IH]; intros H i l Hl; [discriminate|].
  cbn [headingsSettled] in H. destruct H as [Ha H].
  destruct i as [|i].
  - injection Hl as ->. exact Ha.
  - cbn [drop]. exact (IH H i l Hl).
Qed.

Lemma countWhile_firstNonBlank (o : list str) (i : nat) (x : str) :
  i < length o ->
  drop (S i) o !! countWhile isTrimEmpty (drop (S i) o) = Some x ->
  firstNonBlankAfter o i (S i + countWhile isTrimEmpty (drop (S i) o)).
Proof.
  intros Hi Hx. set (k := countWhile isTrimEmpty (drop (S i) o)) in *.
  split; [lia|]. split.
  - intros m Hm.
    pose proof (countWhile_take isTrimEmpty (drop (S i) o)) as Hb. fold k in Hb.
    assert (Hlt : m - S i < k) by lia.
    assert (Hk : k <= length (drop (S i) o)) by apply countWhile_le.
    destruct (lookup_lt_is_Some_2 (take k (drop (S i) o)) (m - S i)) as [y Hy].
    { rewrite length_take. lia. }
    exists y. split.
    + rewrite lookup_take_lt in Hy by lia. rewrite lookup_drop in Hy.
      replace (S i + (m - S i)) with m in Hy by lia. exact Hy.
    + apply isTrimEmpty_true.
      rewrite Forall_lookup in Hb. eapply Hb. exact Hy.
  - rewrite lookup_drop in Hx. rewrite Hx.
    rewrite <- lookup_drop in Hx. apply countWhile_lookup in Hx.
    intros E. apply isTrimEmpty_true in E. congruence.
Qed.

Lemma deckIndex_ge (lines : list str) : findYamlEnd lines <= deckIndex lines.
Proof.
  unfold deckIndex. destruct (Nat.eqb_spec (findYamlEnd lines) 0) as [E|E]; lia.
Qed.

End LineByLine.

(** ** Splitting a text into lines and joining the lines *)

Section LineEnds.

Lemma split_lines_from_nonempty (cur s : str) : split_lines_from cur s <> [].
Proof.
  revert cur. induction s as [|c s IH]; intros cur; cbn [split_lines_from].
  - discriminate.
  - destruct (char_eqb c 10); [discriminate | apply IH].
Qed.

Lemma join_cons (sep x : str) (l : list str) :
  l <> [] -> join sep (x :: l) = x ++ sep ++ join sep l.
Proof. destruct l; [contradiction | reflexivity]. Qed.

Lemma noLineFeed_app (a b : str) :
  noLineFeed (a ++ b) = noLineFeed a && noLineFeed b.
Proof. apply forallb_app. Qed.

Lemma noLineFeed_rev (a : str) : noLineFeed (rev a) = noLineFeed a.
Proof. apply forallb_rev. Qed.

Lemma noLineFeed_cons (c : char) (a : str) :
  noLineFeed (c :: a) = negb (char_eqb c 10) && noLineFeed a.
Proof. reflexivity. Qed.

Lemma dropCR_noLineFeed (cur : str) :
  noLineFeed cur = true -> noLineFeed (dropCR cur) = true.
Proof.
  destruct cur as [|c cur]; [reflexivity|]. rewrite noLineFeed_cons. intros H.
  apply andb_true_iff in H as [Hc H]. cbn [dropCR].
  destruct (char_eqb c 13); [exact H|]. rewrite noLineFeed_cons, Hc, H. reflexivity.
Qed.

Lemma split_lines_from_noLineFeed (s cur : str) :
  noLineFeed cur = true ->
  Forall (fun l => noLineFeed l = true) (split_lines_from cur s).
Proof.
  revert cur. induction s as [|c s IH]; intros cur Hc; cbn [split_lines_from].
  - constructor; [|constructor]. rewrite noLineFeed_rev. exact Hc.
  - destruct (char_eqb c 10) eqn:E.
    + constructor; [|apply IH; reflexivity].
      rewrite noLineFeed_rev. apply dropCR_noLineFeed. exact Hc.
    + apply IH. rewrite noLineFeed_cons, E, Hc. reflexivity.
Qed.

Lemma dropCarriageReturns_plain (t : str) :
  noLineFeed t = true -> dropCarriageReturns t = t.
Proof.
  induction t as [|c t IH]; [reflexivity|]. rewrite noLineFeed_cons. intros H.
  apply andb_true_iff in H as [_ H]. cbn [dropCarriageReturns].
  destruct t as [|d t].
  - rewrite andb_false_r. reflexivity.
  - rewrite noLineFeed_cons in H. apply andb_true_iff in H as [Hd Ht].
    assert (Hs : startsWith (d :: t) LF = false).
    { unfold LF. cbn [startsWith]. rewrite char_eqb_sym.
      apply negb_true_iff in Hd. rewrite Hd. reflexivity. }
    rewrite Hs, andb_false_r. f_equal. apply IH.
    rewrite noLineFeed_cons, Hd, Ht. reflexivity.
Qed.

Lemma startsWith_one_app (a b : str) (x : char) :
  a <> [] -> startsWith (a ++ b) [x] = startsWith a [x].
Proof. destruct a; [contradiction | reflexivity]. Qed.

(** A piece without line feed passes unchanged when the text after it
    starts with a character other than the line feed, or when the piece
    does not end in a carriage return. *)
Lemma dropCarriageReturns_app (t u : str) :
  noLineFeed t = true ->
  startsWith (rev t) [13%N] = false \/ startsWith u LF = false ->
  dropCarriageReturns (t ++ u) = t ++ dropCarriageReturns u.
Proof.
  induction t as [|c t IH]; intros Ht Hend; [reflexivity|].
  rewrite noLineFeed_cons in Ht. apply andb_true_iff in Ht as [Hc Ht].
  cbn [app dropCarriageReturns].
  assert (Hstep : (char_eqb c 13 && startsWith (t ++ u) LF) = false).
  { destruct t as [|d t].
    - cbn [app]. destruct Hend as [Hend|Hend].
      + cbn [rev app startsWith] in Hend. rewrite andb_true_r in Hend.
        rewrite char_eqb_sym in Hend. rewrite Hend. reflexivity.
      + rewrite Hend. apply andb_false_r.
    - rewrite noLineFeed_cons in Ht. apply andb_true_iff in Ht as [Hd _].
      unfold LF. cbn [app startsWith]. rewrite (char_eqb_sym 10%N d).
      apply negb_true_iff in Hd. rewrite Hd. apply andb_false_r. }
  rewrite Hstep. f_equal. apply IH; [exact Ht|].
  destruct Hend as [Hend|Hend]; [left | right; exact Hend].
  destruct t as [|d t]; [reflexivity|].
  change (rev (c :: d :: t)) with (rev (d :: t) ++ [c]) in Hend.
  rewrite startsWith_one_app in Hend; [exact Hend|].
  cbn [rev]. destruct (rev t); discriminate.
Qed.

Lemma join_split_lines_from (s cur : str) :
  noLineFeed cur = true ->
  join LF (split_lines_from cur s) = dropCarriageReturns (rev cur ++ s).
Proof.
  revert cur. induction s as [|c s IH]; intros cur Hc; cbn [split_lines_from].
  - cbn [join]. rewrite app_nil_r. symmetry. apply dropCarriageReturns_plain.
    rewrite noLineFeed_rev. exact Hc.
  - destruct (char_eqb c 10) eqn:E.
    + apply char_eqb_eq in E. subst c.
      rewrite join_cons by apply split_lines_from_nonempty.
      rewrite IH by reflexivity. cbn [rev app].
      destruct cur as [|d cur]; [reflexivity|].
      rewrite noLineFeed_cons in Hc. apply andb_true_iff in Hc as [Hd Hc].
      cbn [dropCR rev]. destruct (char_eqb d 13) eqn:Ed.
      * apply char_eqb_eq in Ed. subst d. rewrite <- app_assoc.
        rewrite dropCarriageReturns_app;
          [|rewrite noLineFeed_rev; exact Hc | right; reflexivity].
        reflexivity.
      * rewrite dropCarriageReturns_app.
        -- reflexivity.
        -- rewrite noLineFeed_app, noLineFeed_rev, Hc, noLineFeed_cons, Hd.
           reflexivity.
        -- left. rewrite rev_app_distr, rev_involutive. cbn [rev app startsWith].
           rewrite char_eqb_sym, Ed. reflexivity.
    + rewrite IH by (rewrite noLineFeed_cons, E, Hc; reflexivity).
      cbn [rev]. rewrite <- app_assoc. reflexivity.
Qed.

Lemma split_lines_from_piece (x s cur : str) :
  noLineFeed x = true ->
  split_lines_from cur (x ++ s) = split_lines_from (rev x ++ cur) s.
Proof.
  revert cur. induction x as [|c x IH]; intros cur Hx; [reflexivity|].
  rewrite noLineFeed_cons in Hx. apply andb_true_iff in Hx as [Hc Hx].
  cbn [app split_lines_from]. apply negb_true_iff in Hc. rewrite Hc.
  rewrite IH by exact Hx. cbn [rev]. rewrite <- app_assoc. reflexivity.
Qed.

Lemma split_lines_from_join (lines : list str) :
  lines <> [] ->
  Forall (fun l => noLineFeed l = true /\ endsWith l [13%N] = false) lines ->
  split_lines_from [] (join LF lines) = lines.
Proof.
  intros Hne H. induction H as [|x lines [Hx He] _ IH]; [contradiction|].
  destruct lines as [|y lines].
  - cbn [join]. rewrite <- (app_nil_r x) at 1.
    rewrite split_lines_from_piece by exact Hx.
    cbn [split_lines_from]. rewrite app_nil_r, rev_involutive. reflexivity.
  - rewrite join_cons by discriminate.
    rewrite split_lines_from_piece by exact Hx. rewrite app_nil_r.
    unfold LF at 1. cbn [app split_lines_from]. rewrite char_eqb_refl.
    rewrite IH by discriminate. f_equal.
    unfold endsWith in He. cbn [rev app] in He.
    rewrite <- (rev_involutive x) at 2. f_equal.
    destruct (rev x) as [|d r]; [reflexivity|].
    cbn [startsWith] in He. rewrite andb_true_r in He.
    cbn [dropCR]. rewrite char_eqb_sym, He. reflexivity.
Qed.

End LineEnds.

(** ** The path lists of the settings tab *)

Section PathLists.

Lemma splitRuns_from_noLineFeed (s cur : str) (b : bool) :
  noLineFeed cur = true ->
  Forall (fun p => noLineFeed p = true) (splitRuns_from cur b s).
Proof.
  revert cur b. induction s as [|c s IH]; intros cur b Hc; cbn [splitRuns_from].
  - constructor; [|constructor]. rewrite noLineFeed_rev. exact Hc.
  - destruct (char_eqb c 10) eqn:E.
    + destruct b; [apply IH; reflexivity|].
      constructor; [|apply IH; reflexivity]. rewrite noLineFeed_rev. exact Hc.
    + apply IH. rewrite noLineFeed_cons, E, Hc. reflexivity.
Qed.

Lemma splitRuns_from_piece (x s cur : str) (b : bool) :
  noLineFeed x = true ->
  splitRuns_from cur b (x ++ s)
  = splitRuns_from (rev x ++ cur) (match x with [] => b | _ => false end) s.
Proof.
  revert cur b. induction x as [|c x IH]; intros cur b Hx; [reflexivity|].
  rewrite noLineFeed_cons in Hx. apply andb_true_iff in Hx as [Hc Hx].
  cbn [app splitRuns_from]. apply negb_true_iff in Hc. rewrite Hc.
  rewrite IH by exact Hx. cbn [rev]. rewrite <- app_assoc.
  destruct x; reflexivity.
Qed.

Lemma splitRuns_from_join (paths : list str) (b : bool) :
  paths <> [] ->
  Forall (fun p => p <> [] /\ noLineFeed p = true) paths ->
  splitRuns_from [] b (join LF paths) = paths.
Proof.
  intros Hne H. revert b. induction H as [|x paths [Hx0 Hx] _ IH]; intros b;
    [contradiction|].
  destruct paths as [|y paths].
  - cbn [join]. rewrite <- (app_nil_r x) at 1.
    rewrite splitRuns_from_piece by exact Hx.
    cbn [splitRuns_from]. rewrite app_nil_r, rev_involutive. reflexivity.
  - rewrite join_cons by discriminate.
    rewrite splitRuns_from_piece by exact Hx. rewrite app_nil_r.
    destruct x as [|c x]; [contradiction|].
    unfold LF at 1. cbn [app splitRuns_from]. rewrite char_eqb_refl.
    rewrite rev_involutive. f_equal. apply IH. discriminate.
Qed.

Lemma filter_isNonEmpty_all (l : list str) :
  Forall (fun p => p <> []) l -> List.filter isNonEmpty l = l.
Proof.
  induction 1 as [|x l Hx _ IH]; [reflexivity|].
  cbn [List.filter]. unfold isNonEmpty at 1.
  assert (E : str_eqb x empty = false) by (apply str_eqb_neq; exact Hx).
  rewrite E. cbn [negb]. f_equal. exact IH.
Qed.

Lemma map_trim_all (l : list str) :
  Forall (fun p => trim p = p) l -> List.map trim l = l.
Proof.
  induction 1 as [|x l Hx _ IH]; [reflexivity|].
  cbn [List.map]. rewrite Hx, IH. reflexivity.
Qed.

End PathLists.

(** ** Glob patterns *)

Section Substitution.

Lemma substituteAll_from_skip (needle by_ t s : str) :
  substituteAll_from needle by_ (length t) (t ++ s)
  = substituteAll_from needle by_ 0 s.
Proof.
  induction t as [|c t IH]; [reflexivity|]. exact IH.
Qed.

Lemma substituteAll_match (x : char) (nd by_ s : str) :
  substituteAll (x :: nd) by_ ((x :: nd) ++ s)
  = by_ ++ substituteAll (x :: nd) by_ s.
Proof.
  unfold substituteAll. cbn [app substituteAll_from].
  change (x :: nd ++ s) with ((x :: nd) ++ s). rewrite startsWith_app.
  replace (length (x :: nd) - 1) with (length nd) by (cbn [length]; lia).
  rewrite substituteAll_from_skip. reflexivity.
Qed.

Lemma substituteAll_pass (x : char) (nd by_ t s : str) :
  forallb (fun c => negb (char_eqb x c)) t = true ->
  substituteAll (x :: nd) by_ (t ++ s) = t ++ substituteAll (x :: nd) by_ s.
Proof.
  intros Ht. unfold substituteAll. induction t as [|c t IH]; [reflexivity|].
  cbn [forallb] in Ht. apply andb_true_iff in Ht as [Hc Ht].
  cbn [app substituteAll_from startsWith].
  apply negb_true_iff in Hc. rewrite Hc. cbn [andb].
  rewrite IH by exact Ht. reflexivity.
Qed.

Lemma substituteAll_nil (needle by_ : str) : substituteAll needle by_ [] = [].
Proof. reflexivity. Qed.

End Substitution.

Section Escaping.

Lemma char_in_false (cs : str) (c k : char) :
  char_in cs c = false -> In k cs -> char_eqb c k = false.
Proof.
  unfold char_in. intros H Hk.
  destruct (char_eqb c k) eqn:E; [|reflexivity].
  assert (existsb (char_eqb c) cs = true) by (apply existsb_exists; eauto).
  congruence.
Qed.

Lemma char_in_true (cs : str) (c : char) :
  char_in cs c = true -> In c cs.
Proof.
  unfold char_in. intros H. apply existsb_exists in H as [k [Hk E]].
  apply char_eqb_eq in E. subst k. exact Hk.
Qed.

Lemma In_char_in (cs : str) (c : char) : In c cs -> char_in cs c = true.
Proof.
  intros H. unfold char_in. apply existsb_exists. exists c.
  split; [exact H | apply char_eqb_refl].
Qed.

(** The characters that [globToRegExp] quotes are syntax characters; the
    star and the question mark are the two syntax characters it does not
    quote. *)
Lemma quoted_isSyntaxChar (c : char) :
  char_in (lit ".+^${}()|[]\") c = true -> isSyntaxChar c = true.
Proof.
  intros H. apply char_in_true in H. apply In_char_in.
  cbv in H. cbv. tauto.
Qed.

Lemma plain_not_SyntaxChar (c : char) :
  char_in (lit ".+^${}()|[]\") c = false ->
  char_eqb c (ch "*") = false -> char_eqb c (ch "?") = false ->
  isSyntaxChar c = false.
Proof.
  intros H Hs Hq. unfold isSyntaxChar, char_in.
  destruct (existsb _ _) eqn:E; [|reflexivity].
  apply existsb_exists in E as [k [Hk E]]. apply char_eqb_eq in E. subst k.
  assert (In c (lit ".+^${}()|[]\") \/ ch "*" = c \/ ch "?" = c) as [Hc|[Hc|Hc]].
  { cbv in Hk. cbv. tauto. }
  - apply In_char_in in Hc. congruence.
  - symmetry in Hc. apply char_eqb_eq in Hc. congruence.
  - symmetry in Hc. apply char_eqb_eq in Hc. congruence.
Qed.

End Escaping.

Section Reading.

Lemma str_pair_ind (P : str -> Prop) :
  P [] -> (forall c, P [c]) ->
  (forall c d p, P p -> P (d :: p) -> P (c :: d :: p)) ->
  forall p, P p.
Proof.
  intros H0 H1 H2 p.
  assert (H : P p /\ forall c, P (c :: p)); [|exact (proj1 H)].
  induction p as [|d p [IHa IHb]]; [split; [exact H0 | exact H1]|].
  split; [apply IHb|]. intros c. apply H2; [exact IHa | apply IHb].
Qed.

Lemma globItems_wellRead (p : str) : wellRead (globItems p) = true.
Proof.
  induction p as [| c | c d p IH1 IH2] using str_pair_ind.
  - reflexivity.
  - cbn [globItems]. destruct (char_eqb c (ch "*")) eqn:E; [reflexivity|].
    cbn [wellRead]. rewrite E. reflexivity.
  - cbn [globItems] in IH2 |- *. destruct (char_eqb c (ch "*")) eqn:Ec.
    + destruct (char_eqb d (ch "*")) eqn:Ed; [exact IH1|].
      cbn [wellRead]. exact IH2.
    + cbn [wellRead]. rewrite Ec. exact IH2.
Qed.

Lemma globItems_two (c d : char) (p : str) :
  globItems (c :: d :: p)
  = if char_eqb c (ch "*")
    then if char_eqb d (ch "*") then GStarStar :: globItems p
         else GStar :: globItems (d :: p)
    else GChar c :: globItems (d :: p).
Proof. reflexivity. Qed.

Lemma escapeChars_cons (cls : char -> bool) (c : char) (s : str) :
  escapeChars cls (c :: s)
  = (if cls c then [ch "\"; c] else [c]) ++ escapeChars cls s.
Proof. cbn [escapeChars]. destruct (cls c); reflexivity. Qed.

Lemma escapeChars_written (p : str) :
  escapeChars (char_in (lit ".+^${}()|[]\")) p = writtenAll 0 (globItems p).
Proof.
  unfold writtenAll.
  induction p as [| c | c d p IH1 IH2] using str_pair_ind.
  - reflexivity.
  - cbn [globItems escapeChars]. destruct (char_eqb c (ch "*")) eqn:E.
    + apply char_eqb_eq in E. subst c. reflexivity.
    + cbn [flat_map written]. unfold escapeOne.
      destruct (char_in _ c); reflexivity.
  - rewrite globItems_two, escapeChars_cons.
    destruct (char_eqb c (ch "*")) eqn:Ec.
    + apply char_eqb_eq in Ec. subst c.
      destruct (char_eqb d (ch "*")) eqn:Ed.
      * apply char_eqb_eq in Ed. subst d.
        rewrite escapeChars_cons, IH1. reflexivity.
      * rewrite IH2. reflexivity.
    + rewrite IH2. reflexivity.
Qed.

Lemma escapeOne_chars (k c : char) :
  char_eqb k c = false -> char_eqb k (ch "\") = false ->
  forallb (fun x => negb (char_eqb k x)) (escapeOne c) = true.
Proof.
  intros Hc Hb. unfold escapeOne. destruct (char_in _ c); cbn [forallb];
    rewrite ?Hc, ?Hb; reflexivity.
Qed.

Lemma wellRead_tail (i : globItem) (items : list globItem) :
  wellRead (i :: items) = true -> wellRead items = true.
Proof.
  destruct i; cbn [wellRead].
  - intros H. apply andb_true_iff in H as [_ H]. exact H.
  - destruct items as [|[]]; try discriminate; auto.
  - auto.
Qed.

Lemma first_replacement (items : list globItem) :
  wellRead items = true ->
  substituteAll (lit "**") placeholder (writtenAll 0 items) = writtenAll 1 items.
Proof.
  unfold writtenAll. induction items as [|i items IH]; [reflexivity|].
  intros H. pose proof (wellRead_tail _ _ H) as Ht. specialize (IH Ht).
  destruct i as [c| |]; cbn [flat_map written].
  - cbn [wellRead] in H. apply andb_true_iff in H as [Hc _].
    apply negb_true_iff in Hc.
    change (lit "**") with (ch "*" :: lit "*").
    rewrite substituteAll_pass.
    + change (ch "*" :: lit "*") with (lit "**"). rewrite IH. reflexivity.
    + apply escapeOne_chars; [rewrite char_eqb_sym; exact Hc | reflexivity].
  - change (0 <? 2) with true. change (1 <? 2) with true. cbv iota.
    destruct items as [|[d| |] items]; try discriminate.
    + reflexivity.
    + cbn [wellRead] in H. apply andb_true_iff in H as [Hd _].
      apply negb_true_iff in Hd.
      change (lit "*" ++ flat_map (written 0) (GChar d :: items))
        with (ch "*" :: flat_map (written 0) (GChar d :: items)).
      unfold substituteAll in IH |- *.
      assert (Hs : startsWith (ch "*" :: flat_map (written 0) (GChar d :: items))
                     (lit "**") = false).
      { cbn [flat_map written]. unfold escapeOne.
        destruct (char_in _ d); [reflexivity|].
        change (lit "**") with [ch "*"; ch "*"]. cbn [app startsWith].
        rewrite char_eqb_refl, (char_eqb_sym (ch "*") d), Hd. reflexivity. }
      cbn [substituteAll_from]. rewrite Hs. rewrite IH. reflexivity.
  - change (lit "**") with (ch "*" :: lit "*").
    rewrite substituteAll_match.
    change (ch "*" :: lit "*") with (lit "**"). rewrite IH. reflexivity.
Qed.


Lemma second_replacement (items : list globItem) :
  wellRead items = true ->
  substituteAll (lit "*") (lit "[^/]*") (writtenAll 1 items) = writtenAll 2 items.
Proof.
  unfold writtenAll. induction items as [|i items IH]; [reflexivity|].
  intros H. pose proof (wellRead_tail _ _ H) as Ht. specialize (IH Ht).
  destruct i as [c| |]; cbn [flat_map written].
  - cbn [wellRead] in H. apply andb_true_iff in H as [Hc _].
    apply negb_true_iff in Hc.
    change (lit "*") with (ch "*" :: []).
    rewrite substituteAll_pass.
    + change (ch "*" :: []) with (lit "*"). rewrite IH. reflexivity.
    + apply escapeOne_chars; [rewrite char_eqb_sym; exact Hc | reflexivity].
  - change (1 <? 2) with true. change (2 <? 2) with false. cbv iota.
    change (lit "*") with (ch "*" :: []).
    rewrite substituteAll_match.
    change (ch "*" :: []) with (lit "*"). rewrite IH. reflexivity.
  - change (lit "*") with (ch "*" :: []).
    rewrite substituteAll_pass by reflexivity.
    change (ch "*" :: []) with (lit "*"). rewrite IH. reflexivity.
Qed.

Lemma third_replacement (items : list globItem) :
  simpleItems items = true ->
  substituteAll placeholder (lit ".*") (writtenAll 2 items) = writtenAll 3 items.
Proof.
  unfold writtenAll. induction items as [|i items IH]; [reflexivity|].
  intros H. cbn [simpleItems forallb] in H. apply andb_true_iff in H as [Hi Ht].
  specialize (IH Ht).
  destruct i as [c| |]; cbn [flat_map written]; unfold placeholder in *.
  - apply andb_true_iff in Hi as [_ Hi]. apply negb_true_iff in Hi.
    rewrite substituteAll_pass.
    + f_equal. exact IH.
    + apply escapeOne_chars; [rewrite char_eqb_sym; exact Hi | reflexivity].
  - change (2 <? 2) with false. change (3 <? 2) with false. cbv iota.
    rewrite substituteAll_pass by reflexivity.
    f_equal. exact IH.
  - rewrite substituteAll_match. f_equal. exact IH.
Qed.

Lemma globItems_simple (p : str) :
  simpleGlob p = true -> simpleItems (globItems p) = true.
Proof.
  unfold simpleItems, simpleGlob.
  induction p as [| c | c d p IH1 IH2] using str_pair_ind.
  - reflexivity.
  - cbn [globItems forallb]. intros H. rewrite andb_true_r in H.
    destruct (char_eqb c (ch "*")); [reflexivity|]. cbn [forallb]. rewrite H.
    reflexivity.
  - intros H. rewrite globItems_two.
    apply andb_true_iff in H as [Hc Hdp]. specialize (IH2 Hdp).
    destruct (char_eqb c (ch "*")).
    + destruct (char_eqb d (ch "*")); [|exact IH2].
      apply IH1. apply andb_true_iff in Hdp as [_ Hp]. exact Hp.
    + cbn [forallb]. rewrite Hc. exact IH2.
Qed.

End Reading.

Section Compiling.

Lemma tokens_caret (s : str) : tokens 0 (lit "^" ++ s) = TCaret :: tokens 0 s.
Proof. reflexivity. Qed.

Lemma tokens_dollar : tokens 0 (lit "$") = [TDollar].
Proof. reflexivity. Qed.

Lemma tokens_char (c : char) (s : str) :
  char_eqb c (ch "*") = false -> char_eqb c (ch "?") = false ->
  tokens 0 (escapeOne c ++ s) = TChar c :: tokens 0 s.
Proof.
  intros Hs Hq. unfold escapeOne.
  destruct (char_in (lit ".+^${}()|[]\") c) eqn:Hcls.
  - cbn [app tokens]. rewrite char_eqb_refl.
    rewrite (quoted_isSyntaxChar c Hcls). reflexivity.
  - assert (Hb : char_eqb c (ch "\") = false)
      by (apply (char_in_false _ _ _ Hcls); cbv; tauto).
    assert (Hk : char_eqb c (ch "[") = false)
      by (apply (char_in_false _ _ _ Hcls); cbv; tauto).
    assert (Hd : char_eqb c (ch ".") = false)
      by (apply (char_in_false _ _ _ Hcls); cbv; tauto).
    assert (Hc : char_eqb c (ch "^") = false)
      by (apply (char_in_false _ _ _ Hcls); cbv; tauto).
    assert (Hl : char_eqb c (ch "$") = false)
      by (apply (char_in_false _ _ _ Hcls); cbv; tauto).
    pose proof (plain_not_SyntaxChar c Hcls Hs Hq) as Hy.
    cbn [app tokens]. rewrite Hb.
    assert (Hp : startsWith (c :: s) (lit "[^/]") = false).
    { change (lit "[^/]") with (ch "[" :: lit "^/]"). cbn [startsWith].
      rewrite char_eqb_sym, Hk. reflexivity. }
    rewrite Hp, Hd, Hs, Hq, Hc, Hl, Hy. reflexivity.
Qed.

Lemma tokens_star (s : str) :
  tokens 0 (lit "[^/]*" ++ s) = TNotSlash :: TStar :: tokens 0 s.
Proof. reflexivity. Qed.

Lemma tokens_starstar (s : str) :
  tokens 0 (lit ".*" ++ s) = TDot :: TStar :: tokens 0 s.
Proof. reflexivity. Qed.

Lemma tokens_written (items : list globItem) :
  wellRead items = true -> simpleItems items = true ->
  tokens 0 (writtenAll 3 items ++ lit "$")
  = flat_map itemTokens items ++ [TDollar].
Proof.
  unfold writtenAll. induction items as [|i items IH]; [reflexivity|].
  intros Hw Hs. pose proof (wellRead_tail _ _ Hw) as Hw'.
  cbn [simpleItems forallb] in Hs. apply andb_true_iff in Hs as [Hi Hs].
  specialize (IH Hw' Hs). cbn [flat_map]. rewrite <- app_assoc.
  destruct i as [c| |]; cbn [written itemTokens].
  - cbn [wellRead] in Hw. apply andb_true_iff in Hw as [Hc _].
    apply andb_true_iff in Hi as [Hq _].
    apply negb_true_iff in Hc. apply negb_true_iff in Hq.
    rewrite tokens_char by assumption. rewrite IH. reflexivity.
  - change (3 <? 2) with false. cbv iota. rewrite tokens_star, IH. reflexivity.
  - rewrite tokens_starstar, IH. reflexivity.
Qed.

Lemma itemTokens_head (items : list globItem) :
  exists t ts, flat_map itemTokens items ++ [TDollar] = t :: ts /\
               quantifier t = false.
Proof.
  destruct items as [|[c| |] items]; cbn [flat_map itemTokens app]; eauto.
Qed.

Lemma terms_char (c : char) (t : token) (ts : list token) :
  quantifier t = false ->
  terms (TChar c :: t :: ts) = andThen (chr c) (terms (t :: ts)).
Proof. destruct t; try discriminate; reflexivity. Qed.

Lemma terms_star (t : token) (ts : list token) :
  quantifier t = false ->
  terms (TNotSlash :: TStar :: t :: ts) = andThen (Star notSlash) (terms (t :: ts)).
Proof. destruct t; try discriminate; reflexivity. Qed.

Lemma terms_starstar (t : token) (ts : list token) :
  quantifier t = false ->
  terms (TDot :: TStar :: t :: ts) = andThen (Star dot) (terms (t :: ts)).
Proof. destruct t; try discriminate; reflexivity. Qed.

Lemma terms_items (items : list globItem) :
  terms (flat_map itemTokens items ++ [TDollar]) = Ok (globRe items).
Proof.
  induction items as [|i items IH]; [reflexivity|].
  cbn [flat_map]. rewrite <- app_assoc.
  destruct (itemTokens_head items) as [t [ts [E Hq]]]. rewrite E in IH |- *.
  destruct i as [c| |]; cbn [itemTokens app].
  - rewrite terms_char by exact Hq. rewrite IH. reflexivity.
  - rewrite terms_star by exact Hq. rewrite IH. reflexivity.
  - rewrite terms_starstar by exact Hq. rewrite IH. reflexivity.
Qed.

Lemma globToRegExp_items (p : str) :
  simpleGlob p = true -> globToRegExp p = Ok (globRe (globItems p)).
Proof.
  intros H. unfold globToRegExp. cbv zeta.
  rewrite !replaceAll_plain by reflexivity.
  rewrite escapeChars_written.
  rewrite first_replacement by apply globItems_wellRead.
  rewrite second_replacement by apply globItems_wellRead.
  rewrite third_replacement by (apply globItems_simple; exact H).
  unfold RegExp_new. rewrite tokens_caret.
  rewrite tokens_written by (apply globItems_wellRead || (apply globItems_simple; exact H)).
  apply terms_items.
Qed.

End Compiling.

Section Accepting.

Lemma GlobMatch_nil_inv (s : str) : GlobMatch [] s -> s = [].
Proof. inversion 1. reflexivity. Qed.

Lemma GlobMatch_char_inv (c : char) (items : list globItem) (s : str) :
  GlobMatch (GChar c :: items) s -> exists s', s = c :: s' /\ GlobMatch items s'.
Proof. inversion 1; subst. eauto. Qed.

Lemma GlobMatch_star_inv (items : list globItem) (s : str) :
  GlobMatch (GStar :: items) s ->
  exists seg s', s = seg ++ s' /\ noSlash seg = true /\ GlobMatch items s'.
Proof. inversion 1; subst. eauto. Qed.

Lemma GlobMatch_starstar_inv (items : list globItem) (s : str) :
  GlobMatch (GStarStar :: items) s ->
  exists seg s', s = seg ++ s' /\ noLineTerminator seg = true /\ GlobMatch items s'.
Proof. inversion 1; subst. eauto. Qed.

Lemma globRe_GlobMatch (items : list globItem) (s : str) :
  Matches (globRe items) s <-> GlobMatch items s.
Proof.
  revert s. induction items as [|i items IH]; intros s.
  - split.
    + intros H. apply Matches_Eps_inv in H. subst s. constructor.
    + intros H. apply GlobMatch_nil_inv in H. subst s. constructor.
  - change (globRe (i :: items)) with (Cat (itemRe i) (globRe items)). split.
    + intros H. apply Matches_Cat_inv in H as [s1 [s2 [-> [H1 H2]]]].
      apply IH in H2. destruct i as [c| |]; cbn [itemRe] in H1.
      * apply Matches_Cls_inv in H1 as [d [-> Hd]].
        apply char_eqb_eq in Hd. subst d. constructor. exact H2.
      * apply Matches_star_cls in H1. constructor; assumption.
      * apply Matches_star_cls in H1. constructor; assumption.
    + intros H. destruct i as [c| |].
      * apply GlobMatch_char_inv in H as [s' [-> H]].
        change (c :: s') with ([c] ++ s'). constructor; [|apply IH; exact H].
        constructor. apply char_eqb_refl.
      * apply GlobMatch_star_inv in H as [seg [s' [-> [Hseg H]]]].
        constructor; [|apply IH; exact H]. apply Matches_star_cls. exact Hseg.
      * apply GlobMatch_starstar_inv in H as [seg [s' [-> [Hseg H]]]].
        constructor; [|apply IH; exact H]. apply Matches_star_cls. exact Hseg.
Qed.

Lemma plainPath_simpleGlob (p : str) : plainPath p = true -> simpleGlob p = true.
Proof.
  unfold plainPath, simpleGlob. induction p as [|c p IH]; [reflexivity|].
  cbn [forallb]. intros H. apply andb_true_iff in H as [Hc Hp].
  apply andb_true_iff in Hc as [Hc H3]. apply andb_true_iff in Hc as [_ H2].
  rewrite H2, H3, IH by exact Hp. reflexivity.
Qed.

Lemma simpleGlob_app (p q : str) :
  simpleGlob (p ++ q) = simpleGlob p && simpleGlob q.
Proof. apply forallb_app. Qed.

Lemma globItems_plain_app (p q : str) :
  plainPath p = true ->
  globItems (p ++ q) = List.map GChar p ++ globItems q.
Proof.
  unfold plainPath. induction p as [|c p IH]; [reflexivity|].
  cbn [forallb]. intros H. apply andb_true_iff in H as [Hc Hp].
  apply andb_true_iff in Hc as [Hc _]. apply andb_true_iff in Hc as [Hc _].
  apply negb_true_iff in Hc.
  cbn [app globItems List.map]. rewrite Hc, IH by exact Hp. reflexivity.
Qed.

Lemma GlobMatch_chars (p : str) (items : list globItem) (s : str) :
  GlobMatch (List.map GChar p ++ items) s <->
  exists rest, s = p ++ rest /\ GlobMatch items rest.
Proof.
  revert s. induction p as [|c p IH]; intros s; cbn [List.map app].
  - split; [intros H; exists s; auto | intros [rest [-> H]]; exact H].
  - split.
    + intros H. apply GlobMatch_char_inv in H as [s' [-> H]].
      apply IH in H as [rest [-> H]]. exists rest. auto.
    + intros [rest [-> H]]. constructor. apply IH. exists rest. auto.
Qed.

Lemma GlobMatch_plain (p s : str) : GlobMatch (List.map GChar p) s <-> s = p.
Proof.
  rewrite <- (app_nil_r (List.map GChar p)), GlobMatch_chars. split.
  - intros [rest [-> H]]. apply GlobMatch_nil_inv in H. subst rest.
    apply app_nil_r.
  - intros ->. exists []. split; [symmetry; apply app_nil_r | constructor].
Qed.

Lemma GlobMatch_rest (s : str) :
  GlobMatch [GStarStar] s <-> noLineTerminator s = true.
Proof.
  split.
  - intros H. apply GlobMatch_starstar_inv in H as [seg [s' [-> [Hseg H]]]].
    apply GlobMatch_nil_inv in H. subst s'. rewrite app_nil_r. exact Hseg.
  - intros H. rewrite <- (app_nil_r s). constructor; [exact H | constructor].
Qed.

Lemma toGlob_covers (p : str) :
  plainPath p = true ->
  exists r, globToRegExp (toGlob p) = Ok r /\
            forall path, test r path = coversPath p path.
Proof.
  intros Hp. unfold toGlob, coversPath.
  destruct (endsWith p (lit "/")).
  - exists (globRe (globItems (p ++ lit "**"))). split.
    + apply globToRegExp_items. rewrite simpleGlob_app.
      rewrite (plainPath_simpleGlob p Hp). reflexivity.
    + intros path. apply Bool.eq_true_iff_eq.
      unfold test, test_whole. rewrite matchb_Matches, globRe_GlobMatch.
      rewrite globItems_plain_app by exact Hp.
      change (globItems (lit "**")) with [GStarStar].
      rewrite GlobMatch_chars, andb_true_iff, startsWith_iff. split.
      * intros [rest [-> H]]. apply GlobMatch_rest in H.
        split; [eauto|]. rewrite drop_app_length. exact H.
      * intros [[rest ->] H]. rewrite drop_app_length in H.
        exists rest. split; [reflexivity | apply GlobMatch_rest; exact H].
  - exists (globRe (globItems p)). split.
    + apply globToRegExp_items. apply plainPath_simpleGlob. exact Hp.
    + intros path. apply Bool.eq_true_iff_eq.
      unfold test, test_whole. rewrite matchb_Matches, globRe_GlobMatch.
      rewrite <- (app_nil_r p) at 1. rewrite globItems_plain_app by exact Hp.
      change (globItems []) with (@nil globItem). rewrite app_nil_r.
      rewrite GlobMatch_plain, str_eqb_eq. reflexivity.
Qed.

Lemma compileAll_covers (ps : list str) :
  Forall (fun p => plainPath p = true) ps ->
  exists rs, compileAll ps = Some rs /\
             forall path, existsb (fun r => test r path) rs
                          = existsb (fun p => coversPath p path) ps.
Proof.
  induction 1 as [|p ps Hp _ [rs [E H]]].
  - exists []. split; reflexivity.
  - destruct (toGlob_covers p Hp) as [r [Er Hr]].
    exists (r :: rs). split.
    + cbn [compileAll]. rewrite Er, E. reflexivity.
    + intros path. cbn [existsb]. rewrite Hr, H. reflexivity.
Qed.

Lemma compileAll_simple (ps : list str) :
  Forall (fun p => simpleGlob p = true) ps ->
  exists rs, compileAll ps = Some rs /\
             Forall2 (fun p r => forall path,
                        test r path = true <-> GlobMatch (globItems (toGlob p)) path)
                     ps rs.
Proof.
  induction 1 as [|p ps Hp _ [rs [E H]]].
  - exists []. split; [reflexivity | constructor].
  - assert (Hg : simpleGlob (toGlob p) = true).
    { unfold toGlob. destruct (endsWith p (lit "/")); [|exact Hp].
      rewrite simpleGlob_app, Hp. reflexivity. }
    exists (globRe (globItems (toGlob p)) :: rs). split.
    + cbn [compileAll]. rewrite (globToRegExp_items _ Hg), E. reflexivity.
    + constructor; [|exact H]. intros path.
      unfold test, test_whole. rewrite matchb_Matches. apply globRe_GlobMatch.
Qed.

End Accepting.

(** ** A second run on the written text *)

Section SecondRun.

Lemma hPrefixOf_noLineTerminator (level : nat) :
  noLineTerminator (hPrefixOf level) = true.
Proof.
  unfold hPrefixOf. rewrite noLineTerminator_app.
  apply andb_true_iff. split; [|reflexivity].
  unfold Js.repeat. induction level as [|n IH]; [reflexivity|].
  cbn [replicate]. unfold noLineTerminator in *. cbn [forallb]. rewrite IH.
  reflexivity.
Qed.

Lemma headingRounds_plain (hPrefix noteName : str) (fuel : nat) :
  noLineTerminator hPrefix = true -> noLineTerminator noteName = true ->
  forall rest c out c',
    Forall (fun x => noLineTerminator x = true) rest ->
    headingRounds fuel hPrefix noteName rest c = Some (out, c') ->
    Forall (fun x => noLineTerminator x = true) out.
Proof.
  intros Hp Hn. induction fuel as [|fuel IH]; intros rest c out c' Hplain H;
    [discriminate|].
  cbn [headingRounds] in H. destruct rest as [|l tl]; [injection H as <- _; constructor|].
  pose proof (Forall_inv Hplain) as Hl. pose proof (Forall_inv_tail Hplain) as Htl.
  destruct (headingRound hPrefix noteName l tl c) as [[l' tl'] c1] eqn:Er.
  destruct (headingRounds fuel hPrefix noteName tl' c1) as [[o c2]|] eqn:Eo;
    [|discriminate].
  injection H as <- <-.
  unfold headingRound in Er. destruct (negb (startsWith l hPrefix)).
  - injection Er as <- <- <-. constructor; [exact Hl|]. eapply IH; eassumption.
  - set (clean := cleanHeadingOf hPrefix l) in *.
    assert (Hclean : noLineTerminator clean = true)
      by (apply cleanHeading_noLineTerminator; exact Hl).
    assert (Hbl : noLineTerminator (backlinkFor noteName clean) = true)
      by (apply backlink_noLineTerminator; assumption).
    destruct (negb (str_eqb (slice (length hPrefix) l) clean)).
    + pose proof (placeBacklink_Forall _ (backlinkFor noteName clean) tl true
                    Hbl Htl) as Hf.
      destruct (placeBacklink (backlinkFor noteName clean) tl true) as [t2 c3].
      injection Er as <- <- <-. constructor.
      * rewrite noLineTerminator_app, Hp, Hclean. reflexivity.
      * eapply IH; [exact Hf | exact Eo].
    + pose proof (placeBacklink_Forall _ (backlinkFor noteName clean) tl c
                    Hbl Htl) as Hf.
      destruct (placeBacklink (backlinkFor noteName clean) tl c) as [t2 c3].
      injection Er as <- <- <-. constructor; [exact Hl|].
      eapply IH; [exact Hf | exact Eo].
Qed.

Lemma tidyRounds_Forall (P : str -> Prop) (fuel : nat) :
  P (lit " ") ->
  forall rest c out c',
    Forall P rest -> tidyRounds fuel rest c = Some (out, c') -> Forall P out.
Proof.
  intros Hsep. induction fuel as [|fuel IH]; intros rest c out c' Hr H;
    [discriminate|].
  cbn [tidyRounds] in H. destruct rest as [|l tl]; [injection H as <- _; constructor|].
  pose proof (Forall_inv Hr) as Hl. pose proof (Forall_inv_tail Hr) as Htl.
  destruct (tidyRound l tl c) as [[kept rest'] c1] eqn:Er.
  destruct (tidyRounds fuel rest' c1) as [[o c2]|] eqn:Eo; [|discriminate].
  injection H as <- <-.
  unfold tidyRound in Er. destruct (negb (isList l)).
  - injection Er as <- <- <-. constructor; [exact Hl|]. eapply IH; eassumption.
  - injection Er as <- <- <-. apply Forall_app. split.
    + eapply Forall_impl;
        [|apply filter_keep_Forall; constructor;
          [exact Hl | apply Forall_take; exact Htl]].
      intros x [Hx _]. exact Hx.
    + eapply IH; [|exact Eo]. apply Forall_app. split.
      * unfold separatorFor. destruct (drop _ tl) as [|x r]; [constructor|].
        destruct (needSpace x); constructor; [exact Hsep | constructor].
      * apply Forall_drop. exact Htl.
Qed.

Lemma pipeline_plain (this : AnkiHelperPlugin) (file : TFile)
    (D out : list str) (c : bool) :
  noLineTerminator (basename file) = true ->
  noLineTerminator (targetDeckTemplate (settings this)) = true ->
  Forall (fun l => noLineTerminator l = true) D ->
  pipeline this file D = Some (out, c) ->
  Forall (fun l => noLineTerminator l = true) out.
Proof.
  intros Hname Htpl HD H.
  destruct (pipeline_stages this file D)
    as [l1 [c1 [l2 [c2 [l3 [c3 [H1 [H2 [H3 E]]]]]]]]].
  rewrite E in H. injection H as <- _.
  assert (Hl1 : Forall (fun l => noLineTerminator l = true) l1).
  { destruct (enableTargetDeck (settings this)).
    - replace l1 with (fst (ensureTargetDeck this D file))
        by (rewrite H1; reflexivity).
      apply ensureTargetDeck_plain; assumption.
    - injection H1 as -> _. exact HD. }
  assert (Hl2 : Forall (fun l => noLineTerminator l = true) l2).
  { destruct (enableHeadingOps (settings this)).
    - destruct (rewriteHeadings_total this l1 file) as [o [c0 [Eo Eh]]].
      rewrite Eh in H2. injection H2 as <- _. apply Forall_app. split.
      + apply Forall_take. exact Hl1.
      + eapply headingRounds_plain; [apply hPrefixOf_noLineTerminator | exact Hname
                                    | | exact Eo].
        apply Forall_drop. exact Hl1.
    - injection H2 as -> _. exact Hl1. }
  destruct (enableListTidy (settings this)).
  - destruct (tidyLists_total l2) as [o [c0 [Eo Et]]].
    rewrite Et in H3. injection H3 as <- _. apply Forall_app. split.
    + apply Forall_take. exact Hl2.
    + eapply (tidyRounds_Forall (fun l => noLineTerminator l = true));
        [reflexivity | | exact Eo].
      apply Forall_drop. exact Hl2.
  - injection H3 as -> _. exact Hl2.
Qed.

Lemma pipeline_settles (this : AnkiHelperPlugin) (file : TFile)
    (D out : list str) (c : bool) :
  1 <= headingLevel (settings this) ->
  noLineTerminator (basename file) = true ->
  noLineTerminator (targetDeckTemplate (settings this)) = true ->
  Forall (fun l => noLineTerminator l = true) D ->
  pipeline this file D = Some (out, c) ->
  (enableTargetDeck (settings this) = true -> existsb hasMarker out = true) ->
  pipeline this file out = Some (out, false).
Proof.
  intros Hlevel Hname Htpl HD H Hmark.
  destruct (pipeline_stages this file D)
    as [l1 [c1 [l2 [c2 [l3 [c3 [H1 [H2 [H3 E]]]]]]]]].
  rewrite E in H. injection H as <- _.
  apply pipeline_fixed; [exact Hmark | |].
  - intros Eh. rewrite Eh in H2.
    assert (Hl1 : Forall (fun l => noLineTerminator l = true) l1).
    { destruct (enableTargetDeck (settings this)).
      - replace l1 with (fst (ensureTargetDeck this D file))
          by (rewrite H1; reflexivity).
        apply ensureTargetDeck_plain; assumption.
      - injection H1 as -> _. exact HD. }
    pose proof (rewriteHeadings_settles this file l1 l2 c2 Hlevel Hname Hl1 H2)
      as Hs.
    destruct (enableListTidy (settings this)).
    + eapply tidyLists_keeps_settled; eassumption.
    + injection H3 as -> _. exact Hs.
  - intros El. rewrite El in H3. eapply tidyLists_tidies. exact H3.
Qed.

Lemma isLineTerminator_false (c : char) :
  isLineTerminator c = false -> char_eqb c 10 = false /\ char_eqb c 13 = false.
Proof.
  intros H. split; apply (char_in_false _ _ _ H); cbv; tauto.
Qed.

Lemma noLineTerminator_line (l : str) :
  noLineTerminator l = true ->
  noLineFeed l = true /\ endsWith l [13%N] = false.
Proof.
  intros H. split.
  - unfold noLineTerminator, noLineFeed in *.
    induction l as [|c l IH]; [reflexivity|]. cbn [forallb] in H |- *.
    apply andb_true_iff in H as [Hc Hl]. apply negb_true_iff in Hc.
    apply isLineTerminator_false in Hc as [Hc _]. rewrite Hc, IH by exact Hl.
    reflexivity.
  - unfold endsWith. cbn [rev app].
    assert (Hr : noLineTerminator (rev l) = true)
      by (unfold noLineTerminator; rewrite forallb_rev; exact H).
    destruct (rev l) as [|d r]; [reflexivity|].
    unfold noLineTerminator in Hr. cbn [forallb] in Hr.
    apply andb_true_iff in Hr as [Hd _]. apply negb_true_iff in Hd.
    apply isLineTerminator_false in Hd as [_ Hd].
    cbn [startsWith]. rewrite char_eqb_sym, Hd. reflexivity.
Qed.

Lemma split_lines_from_plain (s cur : str) :
  plainText s = true -> noLineTerminator cur = true ->
  Forall (fun l => noLineTerminator l = true) (split_lines_from cur s).
Proof.
  revert cur. induction s as [|c s IH]; intros cur Hs Hc; cbn [split_lines_from].
  - constructor; [|constructor]. unfold noLineTerminator. rewrite forallb_rev.
    exact Hc.
  - unfold plainText in Hs. cbn [forallb] in Hs.
    apply andb_true_iff in Hs as [Hh Hs].
    destruct (char_eqb c 10) eqn:E.
    + constructor; [|apply IH; [exact Hs | reflexivity]].
      unfold noLineTerminator. rewrite forallb_rev.
      destruct cur as [|d cur]; [reflexivity|]. cbn [dropCR].
      destruct (char_eqb d 13); [|exact Hc].
      unfold noLineTerminator in Hc. cbn [forallb] in Hc.
      apply andb_true_iff in Hc as [_ Hc]. exact Hc.
    + apply IH; [exact Hs|]. unfold noLineTerminator in *. cbn [forallb].
      cbn [orb] in Hh. rewrite Hh, Hc. reflexivity.
Qed.

Lemma pipeline_empty_line (this : AnkiHelperPlugin) (file : TFile) :
  enableTargetDeck (settings this) = false ->
  pipeline this file [empty] = Some ([empty], false).
Proof.
  intros Hd. apply pipeline_fixed.
  - intros E. congruence.
  - intros _. change (drop (findYamlEnd [empty]) [empty]) with [empty].
    apply no_headings_settled. constructor; [|constructor].
    unfold hPrefixOf, Js.repeat.
    destruct (headingLevel (settings this)); reflexivity.
  - intros _. change (drop (findYamlEnd [empty]) [empty]) with [empty].
    apply no_list_lines_tidy. constructor; [reflexivity | constructor].
Qed.

End SecondRun.

(** * Further properties of the code *)

(** ** The list tidier *)

(** X1: [tidyLists] always returns, and a second call on its result
    changes nothing and reports no change. *)
Theorem tidyLists_twice (lines : list str) :
  exists out c,
    tidyLists lines = Some (out, c) /\ tidyLists out = Some (out, false).
Proof.
  destruct (tidyLists_total lines) as [o [c [_ E]]].
  eexists _, c. split; [exact E|].
  apply tidyLists_tidied. eapply tidyLists_tidies. exact E.
Qed.

(** X2: [tidyLists] keeps the lines of the front matter; in the lines it
    returns after them no empty list item is left, and a line right after
    a list line is blank, a list line or an HTML comment. *)
Theorem tidyLists_result (lines : list str) :
  exists o c,
    tidyLists lines = Some (take (findYamlEnd lines) lines ++ o, c) /\
    Forall (fun x => isEmptyItem x = false) o /\
    forall i x y, o !! i = Some x -> o !! (S i) = Some y -> isList x = true ->
                  isBlankLine y || isList y || isHtmlCmt y = true.
Proof.
  destruct (tidyLists_total lines) as [o [c [Er E]]].
  exists o, c. split; [exact E|].
  pose proof (tidyRounds_tidy _ _ _ _ _ Er) as Ht.
  split; [apply listsTidy_items; exact Ht|].
  intros i x y Hx Hy Hl.
  pose proof (listsTidy_pairs o Ht i x y Hx Hy Hl) as Hn.
  unfold needSpace in Hn.
  destruct (isBlankLine y), (isList y), (isHtmlCmt y); try reflexivity; discriminate.
Qed.

(** X3: [tidyLists] deletes nothing but empty list items and inserts
    nothing but the single-space line: apart from single-space lines, the
    lines it returns after the front matter are the lines it got there
    without the empty items, in the same order. *)
Theorem tidyLists_content (lines : list str) :
  exists o c,
    tidyLists lines = Some (take (findYamlEnd lines) lines ++ o, c) /\
    withoutSeparators o
    = withoutSeparators (withoutEmptyItems (drop (findYamlEnd lines) lines)).
Proof.
  destruct (tidyLists_total lines) as [o [c [Er E]]].
  exists o, c. split; [exact E|]. eapply tidyRounds_content. exact Er.
Qed.

(** X4: the result of [tidyLists] is [false] exactly when the lines it
    returns are the lines it got. *)
Theorem tidyLists_flag (lines : list str) :
  exists out c,
    tidyLists lines = Some (out, c) /\ (c = false <-> out = lines).
Proof.
  destruct (tidyLists_total lines) as [o [c [Er E]]].
  eexists _, c. split; [exact E|]. split.
  - intros ->. apply tidyRounds_unflagged in Er as [-> _]. apply take_drop.
  - intros Heq. destruct c; [|reflexivity]. exfalso.
    apply tidyRounds_flagged in Er. apply Er.
    rewrite <- (take_drop (findYamlEnd lines) lines) in Heq at 3.
    apply app_inv_head in Heq. exact Heq.
Qed.

(** ** The heading normalizer *)

(** X5: with a heading level of at least 1 and no line terminator in the
    note name and the lines, a second call of
    [rewriteHeadingsAndCollectLists] on its result changes nothing and
    reports no change. *)
Theorem rewriteHeadings_twice (this : AnkiHelperPlugin) (file : TFile)
    (lines : list str) :
  1 <= headingLevel (settings this) ->
  noLineTerminator (basename file) = true ->
  Forall (fun l => noLineTerminator l = true) lines ->
  exists out c,
    rewriteHeadingsAndCollectLists this lines file = Some (out, c) /\
    rewriteHeadingsAndCollectLists this out file = Some (out, false).
Proof.
  intros Hlevel Hname Hplain.
  destruct (rewriteHeadings_total this lines file) as [o [c [_ E]]].
  eexists _, c. split; [exact E|].
  apply rewriteHeadings_settled.
  eapply rewriteHeadings_settles; eassumption.
Qed.

Lemma rewriteHeadings_twice_witness :
  exists out c,
    rewriteHeadingsAndCollectLists freshPlugin
      [lit "#### A <b>"; lit "text"; lit "#### C"] (fileAt "n.md" "n")
    = Some (out, c) /\
    rewriteHeadingsAndCollectLists freshPlugin out (fileAt "n.md" "n")
    = Some (out, false).
Proof.
  apply (rewriteHeadings_twice freshPlugin (fileAt "n.md" "n")
           [lit "#### A <b>"; lit "text"; lit "#### C"]).
  - simpl. lia.
  - reflexivity.
  - repeat constructor.
Defined.

(** X6: under the same conditions, in the lines returned after the front
    matter every heading line is its prefix followed by its cleaned text,
    and the first line after it that is not blank is, trimmed, the
    backlink to that heading. *)
Theorem rewriteHeadings_result (this : AnkiHelperPlugin) (file : TFile)
    (lines : list str) :
  1 <= headingLevel (settings this) ->
  noLineTerminator (basename file) = true ->
  Forall (fun l => noLineTerminator l = true) lines ->
  let hPrefix := hPrefixOf (headingLevel (settings this)) in
  exists o c,
    rewriteHeadingsAndCollectLists this lines file
    = Some (take (findYamlEnd lines) lines ++ o, c) /\
    forall i l, o !! i = Some l -> startsWith l hPrefix = true ->
      l = hPrefix ++ cleanHeadingOf hPrefix l /\
      exists j x, firstNonBlankAfter o i j /\ o !! j = Some x /\
                  trim x = lit "[[" ++ basename file ++ lit "#"
                           ++ cleanHeadingOf hPrefix l ++ lit "]]".
Proof.
  intros Hlevel Hname Hplain hPrefix.
  destruct (rewriteHeadings_total this lines file) as [o [c [Er E]]].
  exists o, c. split; [exact E|].
  assert (Hs : headingsSettled hPrefix (basename file) o).
  { unfold hPrefix. destruct (headingLevel (settings this)) as [|n]; [lia|].
    eapply headingRounds_settle; [exact Hname | | exact Er].
    apply Forall_drop. exact Hplain. }
  intros i l Hl Hh.
  destruct (headingsSettled_at _ _ _ Hs i l Hl Hh) as [Hc [x [Hx [_ Ht]]]].
  split.
  - rewrite <- Hc. apply startsWith_slice. exact Hh.
  - exists (S i + countWhile isTrimEmpty (drop (S i) o)), x.
    split; [|split].
    + eapply countWhile_firstNonBlank; [|exact Hx].
      apply lookup_lt_Some in Hl. exact Hl.
    + rewrite lookup_drop in Hx. exact Hx.
    + exact Ht.
Qed.

Lemma rewriteHeadings_result_witness :
  exists o c,
    rewriteHeadingsAndCollectLists freshPlugin
      [lit "---"; lit "a: b"; lit "---"; lit "#### A <b>"; lit "text"]
      (fileAt "n.md" "n")
    = Some ([lit "---"; lit "a: b"; lit "---"] ++ o, c) /\
    o !! 1 = Some (lit "[[n#A b]]").
Proof.
  destruct (rewriteHeadings_result freshPlugin (fileAt "n.md" "n")
              [lit "---"; lit "a: b"; lit "---"; lit "#### A <b>"; lit "text"])
    as [o [c [E _]]].
  - simpl. lia.
  - reflexivity.
  - repeat constructor.
  - exists o, c. split; [exact E|].
    vm_compute in E. injection E as <- _. reflexivity.
Defined.

(** X7: [rewriteHeadingsAndCollectLists] never makes the document shorter,
    and it adds at most one line for each heading line after the front
    matter. *)
Theorem rewriteHeadings_length (this : AnkiHelperPlugin) (file : TFile)
    (lines : list str) :
  exists out c,
    rewriteHeadingsAndCollectLists this lines file = Some (out, c) /\
    length lines <= length out /\
    length out
    <= length lines
       + length (headingLines (hPrefixOf (headingLevel (settings this)))
                   (drop (findYamlEnd lines) lines)).
Proof.
  destruct (rewriteHeadings_total this lines file) as [o [c [Er E]]].
  eexists _, c. split; [exact E|].
  pose proof (headingRounds_grows _ _ _ _ _ _ _ Er) as Hg.
  pose proof (headingRounds_bounded _ _ (hPrefixOf_no_bracket _) _ _ _ _ _ Er) as Hb.
  unfold headingMeasure in Hb. fold (headingLines
    (hPrefixOf (headingLevel (settings this))) (drop (findYamlEnd lines) lines)) in Hb.
  pose proof (findYamlEnd_le lines) as Hle.
  rewrite length_app, length_take_le by exact Hle.
  rewrite length_drop in Hg, Hb. lia.
Qed.

(** X8: a line that is neither a heading line nor, trimmed, of the shape
    of a link with [#] is never lost by
    [rewriteHeadingsAndCollectLists]. *)
Theorem rewriteHeadings_keeps_text (this : AnkiHelperPlugin) (file : TFile)
    (lines : list str) :
  exists out c,
    rewriteHeadingsAndCollectLists this lines file = Some (out, c) /\
    forall x, In x lines ->
              startsWith x (hPrefixOf (headingLevel (settings this))) = false ->
              ~ WikiShape (trim x) -> In x out.
Proof.
  destruct (rewriteHeadings_total this lines file) as [o [c [Er E]]].
  eexists _, c. split; [exact E|]. intros x Hx Hh Hw.
  rewrite <- (take_drop (findYamlEnd lines) lines) in Hx.
  apply in_app_or in Hx as [Hx|Hx]; apply in_or_app; [left; exact Hx|].
  right. eapply headingRounds_keeps; [exact Hh | | exact Hx | exact Er].
  destruct (test_whole wikiLinkRe (trim x)) eqn:Et; [|reflexivity].
  apply wikiLink_test in Et. contradiction.
Qed.

(** ** The deck header and the front matter *)

(** X9: a second call of [ensureTargetDeck] on the lines that a first call
    leaves changes nothing and reports no change; and the first call
    leaves the lines of the front matter as they are. *)
Theorem ensureTargetDeck_twice (this : AnkiHelperPlugin) (file : TFile)
    (lines : list str) :
  let out := fst (ensureTargetDeck this lines file) in
  ensureTargetDeck this out file = (out, false) /\
  take (findYamlEnd lines) out = take (findYamlEnd lines) lines.
Proof.
  intros out. unfold out.
  destruct (existsb (fun l => includes l marker) lines) eqn:E.
  - assert (Hsame : ensureTargetDeck this lines file = (lines, false))
      by (apply ensureTargetDeck_present; exact E).
    rewrite Hsame. cbn [fst]. split; [exact Hsame | reflexivity].
  - split.
    + apply ensureTargetDeck_present, marker_line_found,
        ensureTargetDeck_adds_marker. exact E.
    + rewrite ensureTargetDeck_inserts by exact E. cbn [fst].
      pose proof (deckIndex_ge lines) as Hge.
      pose proof (deckIndex_le lines) as Hle.
      rewrite take_app_le by (rewrite length_take_le; lia).
      rewrite take_take. f_equal. lia.
Qed.

(** X10: the index that [findYamlEnd] gives is 0, or it is at least 2 and
    at most the number of lines, line 0 is [---] and so is the line right
    before the index. *)
Theorem findYamlEnd_bounds (lines : list str) :
  findYamlEnd lines = 0 \/
  (2 <= findYamlEnd lines <= length lines /\
   lines !! 0 = Some (lit "---") /\
   lines !! (findYamlEnd lines - 1) = Some (lit "---")).
Proof.
  destruct (findYamlEnd_cases lines) as [E|[k [E [Hk1 [H0 [Hk _]]]]]];
    [left; exact E|].
  right. rewrite E. pose proof (lookup_lt_Some _ _ _ Hk) as Hlt.
  split; [lia|]. split; [exact H0|].
  replace (k + 1 - 1) with k by lia. exact Hk.
Qed.

(** ** The pipeline *)

(** X11: when the pipeline reports no change, the lines it returns are the
    lines it got: a write is only left out when there is nothing to
    write. *)
Theorem pipeline_unflagged (this : AnkiHelperPlugin) (file : TFile)
    (lines : list str) :
  exists out c,
    pipeline this file lines = Some (out, c) /\ (c = false -> out = lines).
Proof.
  destruct (pipeline_stages this file lines)
    as [l1 [c1 [l2 [c2 [l3 [c3 [H1 [H2 [H3 E]]]]]]]]].
  exists l3, (c1 || c2 || c3). split; [exact E|]. intros Hc.
  apply orb_false_iff in Hc as [Hc ->]. apply orb_false_iff in Hc as [-> ->].
  assert (l1 = lines) as ->.
  { destruct (enableTargetDeck (settings this)); [|congruence].
    unfold ensureTargetDeck in H1.
    destruct (existsb _ lines); [congruence|].
    destruct (_ && _) in H1; discriminate. }
  assert (l2 = lines) as ->.
  { destruct (enableHeadingOps (settings this)); [|congruence].
    rewrite rewriteHeadings_rounds in H2.
    destruct (headingRounds _ _ _ _ _) as [[o c]|] eqn:Er; [|discriminate].
    injection H2 as <- ->. apply headingRounds_unflagged in Er as [-> _].
    apply take_drop. }
  destruct (enableListTidy (settings this)); [|congruence].
  rewrite tidyLists_rounds in H3.
  destruct (tidyRounds _ _ _) as [[o c]|] eqn:Er; [|discriminate].
  injection H3 as <- ->. apply tidyRounds_unflagged in Er as [-> _].
  apply take_drop.
Qed.

(** X12: lines that every enabled stage has already dealt with come back
    as they are, with no change reported: a line with the marker is there
    or the deck stage is off; after the front matter every heading of the
    configured level holds its cleaned text and the first line after it
    that is not blank is a link line that trims to its backlink, or the
    heading stage is off; after the front matter no line is an empty
    item and every list line is followed by nothing, a blank line, a
    list line or a comment line, or the list stage is off. *)
Theorem pipeline_nothing_to_do (this : AnkiHelperPlugin) (file : TFile)
    (lines : list str) :
  (enableTargetDeck (settings this) = true -> existsb hasMarker lines = true) ->
  (enableHeadingOps (settings this) = true ->
   headingsSettled (hPrefixOf (headingLevel (settings this))) (basename file)
     (drop (findYamlEnd lines) lines)) ->
  (enableListTidy (settings this) = true ->
   listsTidy (drop (findYamlEnd lines) lines)) ->
  pipeline this file lines = Some (lines, false).
Proof.
  intros Hd Hh Hl. unfold pipeline.
  assert (E1 : (if enableTargetDeck (settings this)
                then let '(l, c) := ensureTargetDeck this lines file in (l, c || false)
                else (lines, false)) = (lines, false)).
  { destruct (enableTargetDeck (settings this)); [|reflexivity].
    rewrite ensureTargetDeck_present by (apply Hd; reflexivity). reflexivity. }
  cbv zeta. rewrite E1. cbv beta iota.
  assert (E2 : (if enableHeadingOps (settings this)
                then match rewriteHeadingsAndCollectLists this lines file with
                     | Some (l, c) => Some (l, c || false)
                     | None => None
                     end
                else Some (lines, false)) = Some (lines, false)).
  { destruct (enableHeadingOps (settings this)); [|reflexivity].
    rewrite rewriteHeadings_settled by (apply Hh; reflexivity). reflexivity. }
  rewrite E2. destruct (enableListTidy (settings this)); [|reflexivity].
  rewrite tidyLists_tidied by (apply Hl; reflexivity). reflexivity.
Qed.

Lemma pipeline_nothing_to_do_witness :
  pipeline freshPlugin (fileAt "n.md" "n")
    [lit "TARGET DECK"; lit "#### Q"; lit "[[n#Q]]"; lit "- a"]
  = Some ([lit "TARGET DECK"; lit "#### Q"; lit "[[n#Q]]"; lit "- a"], false).
Proof.
  apply (pipeline_nothing_to_do freshPlugin (fileAt "n.md" "n")).
  - intros _. reflexivity.
  - intros _.
    change (drop (findYamlEnd [lit "TARGET DECK"; lit "#### Q"; lit "[[n#Q]]"; lit "- a"])
              [lit "TARGET DECK"; lit "#### Q"; lit "[[n#Q]]"; lit "- a"])
      with [lit "TARGET DECK"; lit "#### Q"; lit "[[n#Q]]"; lit "- a"].
    cbn [headingsSettled]. unfold headingSettled.
    split; [intros H; discriminate H|].
    split; [|split; [intros H; discriminate H|split; [intros H; discriminate H|exact I]]].
    intros _. split; [reflexivity|].
    exists (lit "[[n#Q]]"). split; [reflexivity|]. split; reflexivity.
  - intros _.
    change (drop (findYamlEnd [lit "TARGET DECK"; lit "#### Q"; lit "[[n#Q]]"; lit "- a"])
              [lit "TARGET DECK"; lit "#### Q"; lit "[[n#Q]]"; lit "- a"])
      with [lit "TARGET DECK"; lit "#### Q"; lit "[[n#Q]]"; lit "- a"].
    cbn [listsTidy].
    repeat split; try reflexivity; intros H; discriminate H.
Defined.

(** ** Reading and writing the note *)

(** X13: the lines that [processFile] works on are never none and hold
    no line feed; joining them again gives the text that was read with
    the carriage return of every carriage return, line feed pair
    dropped, so a text without such a pair is given back as it was. *)
Theorem split_lines_join (s : str) :
  split_lines s <> [] /\
  Forall (fun l => noLineFeed l = true) (split_lines s) /\
  join LF (split_lines s) = dropCarriageReturns s /\
  (includes s [13%N; 10%N] = false -> join LF (split_lines s) = s).
Proof.
  unfold split_lines. split; [apply split_lines_from_nonempty|].
  split; [apply split_lines_from_noLineFeed; reflexivity|].
  assert (E : join LF (split_lines_from [] s) = dropCarriageReturns s)
    by (apply (join_split_lines_from s []); reflexivity).
  split; [exact E|]. intros H. rewrite E. clear E.
  induction s as [|c s IH]; [reflexivity|].
  cbn [includes] in H. apply orb_false_iff in H as [H1 H2].
  cbn [dropCarriageReturns]. rewrite IH by exact H2.
  destruct (char_eqb c 13) eqn:Ec; [|reflexivity].
  apply char_eqb_eq in Ec. subst c.
  cbn [startsWith] in H1. rewrite char_eqb_refl in H1. cbn [andb] in H1.
  unfold LF. destruct s as [|d s]; [reflexivity|].
  cbn [startsWith] in H1 |- *. rewrite andb_true_r in H1 |- *.
  rewrite H1. reflexivity.
Qed.

(** X14: lines that hold no line feed and do not end in a carriage
    return are read back as they were written: splitting the joined
    text gives the same lines. *)
Theorem split_lines_of_join (lines : list str) :
  lines <> [] ->
  Forall (fun l => noLineFeed l = true /\ endsWith l [13%N] = false) lines ->
  split_lines (join LF lines) = lines.
Proof. intros Hne H. unfold split_lines. apply split_lines_from_join; assumption. Qed.

Lemma split_lines_of_join_witness :
  split_lines (join LF [lit "# a"; empty; lit "- b"]) = [lit "# a"; empty; lit "- b"].
Proof.
  apply split_lines_of_join; [discriminate|].
  repeat constructor.
Defined.

(** ** The path lists of the settings tab *)

(** X15: every path that the settings tab stores is non-empty, holds no
    line feed and has no white space at its ends. *)
Theorem parsePathList_normal (value : str) :
  Forall (fun p => p <> [] /\ noLineFeed p = true /\ trim p = p)
         (parsePathList value).
Proof.
  unfold parsePathList, splitRuns.
  pose proof (splitRuns_from_noLineFeed value [] false eq_refl) as H.
  induction H as [|x l Hx _ IH]; [constructor|].
  cbn [List.map List.filter]. unfold isNonEmpty at 1.
  destruct (str_eqb (trim x) empty) eqn:E; cbn [negb]; [exact IH|].
  constructor; [|exact IH]. apply str_eqb_neq in E.
  split; [exact E|]. split; [|apply trim_idem].
  apply forallb_trim. exact Hx.
Qed.

(** X16: the text that the settings tab shows for stored paths is read
    back as the same paths. *)
Theorem parsePathList_show (paths : list str) :
  Forall (fun p => p <> [] /\ noLineFeed p = true /\ trim p = p) paths ->
  parsePathList (showPathList paths) = paths.
Proof.
  intros H. unfold parsePathList, showPathList, splitRuns.
  destruct paths as [|x paths]; [reflexivity|].
  rewrite splitRuns_from_join; [|discriminate|].
  - rewrite map_trim_all
      by (eapply Forall_impl; [|exact H]; intros p (_ & _ & Hp); exact Hp).
    apply filter_isNonEmpty_all.
    eapply Forall_impl; [|exact H]. intros p (Hp & _ & _). exact Hp.
  - eapply Forall_impl; [|exact H]. intros p (Hp & Hq & _). split; assumption.
Qed.

Lemma parsePathList_show_witness :
  parsePathList (showPathList [lit "Pool Dir/"; lit "a.md"])
  = [lit "Pool Dir/"; lit "a.md"].
Proof.
  apply parsePathList_show.
  repeat constructor; discriminate.
Defined.

(** ** Glob patterns and the scope *)

(** X17: a pattern without question mark and without the placeholder
    character compiles, and the matcher accepts exactly the paths that
    the pattern, read as items, accepts: a character stands for itself,
    a single star for any text without a slash, a double star for any
    text without a line terminator. *)
Theorem globToRegExp_accepts (p : str) :
  simpleGlob p = true ->
  exists r, globToRegExp p = Ok r /\
            forall path, test r path = true <-> GlobMatch (globItems p) path.
Proof.
  intros H. exists (globRe (globItems p)).
  split; [apply globToRegExp_items; exact H|].
  intros path. unfold test, test_whole. rewrite matchb_Matches.
  apply globRe_GlobMatch.
Qed.

Lemma globToRegExp_accepts_witness :
  exists r, globToRegExp (lit "Notes/*.md") = Ok r /\
            forall path, test r path = true <->
                         GlobMatch (globItems (lit "Notes/*.md")) path.
Proof. apply globToRegExp_accepts. reflexivity. Defined.

(** X18: a path of the settings without star, question mark and
    placeholder character compiles; when it ends in a slash its matcher
    accepts the paths that start with it and go on without a line
    terminator, otherwise it accepts that path alone. *)
Theorem stored_path_covers (p : str) :
  plainPath p = true ->
  exists r, globToRegExp (toGlob p) = Ok r /\
            forall path, test r path = coversPath p path.
Proof. apply toGlob_covers. Qed.

Lemma stored_path_covers_witness :
  exists r, globToRegExp (toGlob (lit "Notes/Anki/")) = Ok r /\
            forall path, test r path = coversPath (lit "Notes/Anki/") path.
Proof. apply stored_path_covers. reflexivity. Defined.

(** X19: with such paths in both lists [updateScopePatterns] returns
    and leaves the settings as they are; afterwards a file is in scope
    in mode [include] exactly when a listed path covers it, in mode
    [exclude] exactly when none does, and always in mode [all]. *)
Theorem isInScope_stored_paths (this : AnkiHelperPlugin) :
  Forall (fun p => plainPath p = true) (includePaths (settings this)) ->
  Forall (fun p => plainPath p = true) (excludePaths (settings this)) ->
  exists this',
    updateScopePatterns this = Returned this' /\
    settings this' = settings this /\
    forall file,
      isInScope this' file
      = match runScope (settings this) with
        | ScopeAll => true
        | ScopeInclude =>
            existsb (fun p => coversPath p (path file))
                    (includePaths (settings this))
        | ScopeExclude =>
            negb (existsb (fun p => coversPath p (path file))
                          (excludePaths (settings this)))
        end.
Proof.
  intros Hi He.
  destruct (compileAll_covers _ Hi) as [inc [Ei Hinc]].
  destruct (compileAll_covers _ He) as [exc [Ee Hexc]].
  unfold updateScopePatterns. rewrite Ei, Ee. eexists. split; [reflexivity|].
  split; [reflexivity|]. intros file. unfold isInScope.
  cbn [settings includePatterns excludePatterns].
  destruct (runScope (settings this)); [reflexivity | apply Hinc|].
  rewrite Hexc. reflexivity.
Qed.

Lemma isInScope_stored_paths_witness :
  exists this',
    updateScopePatterns (withScope ScopeExclude [] [lit "Archive/"])
    = Returned this' /\
    isInScope this' (fileAt "Archive/2020/x.md" "x") = false.
Proof.
  destruct (isInScope_stored_paths (withScope ScopeExclude [] [lit "Archive/"]))
    as [this' [E [_ H]]].
  - constructor.
  - repeat constructor.
  - exists this'. split; [exact E|]. rewrite H. reflexivity.
Defined.

(** X20: when no path of the two lists holds a question mark or the
    placeholder character, [updateScopePatterns] returns: no pattern
    fails to compile, and every compiled pattern accepts what its path,
    with the double star added after a final slash, accepts as a glob. *)
Theorem updateScopePatterns_returns (this : AnkiHelperPlugin) :
  Forall (fun p => simpleGlob p = true) (includePaths (settings this)) ->
  Forall (fun p => simpleGlob p = true) (excludePaths (settings this)) ->
  exists this',
    updateScopePatterns this = Returned this' /\
    settings this' = settings this /\
    Forall2 (fun p r => forall path,
               test r path = true <-> GlobMatch (globItems (toGlob p)) path)
            (includePaths (settings this)) (includePatterns this') /\
    Forall2 (fun p r => forall path,
               test r path = true <-> GlobMatch (globItems (toGlob p)) path)
            (excludePaths (settings this)) (excludePatterns this').
Proof.
  intros Hi He.
  destruct (compileAll_simple _ Hi) as [inc [Ei Hinc]].
  destruct (compileAll_simple _ He) as [exc [Ee Hexc]].
  unfold updateScopePatterns. rewrite Ei, Ee. eexists. split; [reflexivity|].
  split; [reflexivity|]. split; [exact Hinc | exact Hexc].
Qed.

Lemma updateScopePatterns_returns_witness :
  exists this',
    updateScopePatterns (withScope ScopeInclude [lit "Notes/*/cards/"] [])
    = Returned this'.
Proof.
  destruct (updateScopePatterns_returns
              (withScope ScopeInclude [lit "Notes/*/cards/"] []))
    as [this' [E _]].
  - repeat constructor.
  - constructor.
  - exists this'. exact E.
Defined.

(** ** A second run on the written text *)

(** X21: for a note in scope whose text has no line terminator other
    than the line feed, with a heading level of at least 1 and no line
    terminator in the base name and the deck template: when
    [processFile] writes the note, a run that reads the written text
    only reads and writes nothing, provided that, with the deck stage
    enabled, a line of the written text holds the marker. *)
Theorem processFile_second_run (this : AnkiHelperPlugin) (vault : str -> str)
    (file : TFile) :
  isInScope this file = true ->
  1 <= headingLevel (settings this) ->
  noLineTerminator (basename file) = true ->
  noLineTerminator (targetDeckTemplate (settings this)) = true ->
  plainText (vault (path file)) = true ->
  exists trace,
    processFile this vault file = Some trace /\
    forall data vault',
      In (VaultModify (path file) data) trace ->
      vault' (path file) = data ->
      (enableTargetDeck (settings this) = true ->
       existsb hasMarker (split_lines data) = true) ->
      processFile this vault' file = Some [VaultRead (path file)].
Proof.
  intros Hscope Hlevel Hname Htpl Hraw.
  assert (HD : Forall (fun l => noLineTerminator l = true)
                 (split_lines (vault (path file))))
    by (apply split_lines_from_plain; [exact Hraw | reflexivity]).
  destruct (pipeline_stages this file (split_lines (vault (path file))))
    as [l1 [c1 [l2 [c2 [l3 [c3 [_ [_ [_ E]]]]]]]]].
  unfold processFile at 1. rewrite Hscope. cbn [negb]. cbv zeta. rewrite E.
  eexists. split; [reflexivity|].
  intros data vault' Hin Hv Hmark.
  destruct Hin as [Hin|Hin]; [discriminate|].
  destruct (c1 || c2 || c3); [|destruct Hin].
  destruct Hin as [Hin|[]]. injection Hin as Hdata.
  pose proof (pipeline_plain this file _ _ _ Hname Htpl HD E) as Hplain.
  unfold processFile. rewrite Hscope. cbn [negb]. cbv zeta. rewrite Hv, <- Hdata.
  rewrite <- Hdata in Hmark.
  destruct l3 as [|x l3].
  - change (split_lines (join LF [])) with [empty] in *.
    rewrite pipeline_empty_line; [reflexivity|].
    destruct (enableTargetDeck (settings this)); [|reflexivity].
    specialize (Hmark eq_refl). discriminate.
  - assert (Hs : split_lines (join LF (x :: l3)) = x :: l3).
    { apply split_lines_from_join; [discriminate|].
      eapply Forall_impl; [|exact Hplain]. intros l Hl.
      apply noLineTerminator_line. exact Hl. }
    rewrite Hs in Hmark |- *.
    rewrite (pipeline_settles this file _ _ _ Hlevel Hname Htpl HD E Hmark).
    reflexivity.
Qed.

Lemma processFile_second_run_witness :
  exists trace,
    processFile freshPlugin (fun _ => lit "#### Q" ++ LF ++ lit "- a")
      (fileAt "Card1.md" "Card1") = Some trace /\
    forall data vault',
      In (VaultModify (lit "Card1.md") data) trace ->
      vault' (lit "Card1.md") = data ->
      (enableTargetDeck (settings freshPlugin) = true ->
       existsb hasMarker (split_lines data) = true) ->
      processFile freshPlugin vault' (fileAt "Card1.md" "Card1")
      = Some [VaultRead (lit "Card1.md")].
Proof.
  apply (processFile_second_run freshPlugin
           (fun _ => lit "#### Q" ++ LF ++ lit "- a") (fileAt "Card1.md" "Card1")).
  - reflexivity.
  - cbn. lia.
  - reflexivity.
  - reflexivity.
  - reflexivity.
Defined.

(** ** The deck template of the settings tab *)

(** X22: the deck template that the settings tab stores is never empty
    and has no white space at its ends; storing a stored template gives
    it back, and a typed text without line terminator gives a template
    without one. *)
Theorem storeTemplate_normal (value : str) :
  storeTemplate value <> empty /\
  trim (storeTemplate value) = storeTemplate value /\
  storeTemplate (storeTemplate value) = storeTemplate value /\
  (noLineTerminator value = true ->
   noLineTerminator (storeTemplate value) = true).
Proof.
  unfold storeTemplate. cbv zeta.
  destruct (str_eqb (trim value) empty) eqn:E.
  - split; [discriminate|]. split; [reflexivity|]. split; reflexivity.
  - split; [apply str_eqb_neq; exact E|]. split; [apply trim_idem|].
    split.
    + rewrite trim_idem, E. reflexivity.
    + intros H. apply forallb_trim. exact H.
Qed.
